(** * EvanRTOS: a shallow embedding of the kernel, semaphores and queues

    The embedding follows [eos_kernel.c], [eos_semaphore.c] and
    [eos_queue.c].  Memory is a store of objects indexed by address: task
    control blocks, semaphores and queue descriptors live in three finite
    maps; a pointer is a 32-bit address held in [Z] and [NULL] is 0.
    Dereferencing an address that holds no object is undefined behaviour in
    C and yields [None] here.

    The interrupt controller is two bits of state: [primask] (set by
    [__disable_irq], cleared by [__enable_irq]) and [pendsv] (the PENDSVSET
    bit written by [EOS_Suspend]). *)

From stdpp Require Import gmap list.
From Stdlib Require Import ZArith Lia.

Local Open Scope Z_scope.

(** ** Machine integers *)

Definition u32 (x : Z) : Z := x mod 2 ^ 32.
Definition u8 (x : Z) : Z := x mod 2 ^ 8.

(** ** Constants and enumerations of [eos_kernel.h] *)

Definition NULL : Z := 0.
Definition EOS_TIMED_OUT : Z := 2.
Definition EOS_PAUSED : Z := 1.

Definition PRIORITY_IDLE : Z := 0.
Definition PRIORITY_LOW : Z := 1.
Definition PRIORITY_MEDIUM : Z := 2.
Definition PRIORITY_HIGH : Z := 3.

Inductive EOS_status_t : Type :=
  | EOS_ERROR
  | EOS_OK
  | EOS_BLOCKED
  | EOS_USE_FPU
  | EOS_NO_FPU.

Inductive EOS_block_status_t : Type :=
  | EOS_BLOCK
  | EOS_NO_BLOCK.

#[global] Instance EOS_status_eq_dec : EqDecision EOS_status_t.
Proof. solve_decision. Defined.

#[global] Instance EOS_block_status_eq_dec : EqDecision EOS_block_status_t.
Proof. solve_decision. Defined.

(** ** Objects *)

Record EOS_TCB_t : Type := mkTCB {
  sp : Z;
  blocked : Z;
  next : Z;
  timeOut : Z;
  priority : Z;
  paused : Z
}.

Record EOS_semaphore_t : Type := mkSem {
  sem_count : Z;
  max_count : Z
}.

(** [buffer] is the address returned by [malloc]; [data] is the contents of
    the [size * item_size] bytes it points at. *)
Record EOS_queue_t : Type := mkQueue {
  q_buffer : Z;
  q_data : list Z;
  q_head : Z;
  q_tail : Z;
  q_size : Z;
  q_item_size : Z;
  q_count : Z
}.

Definition set_sp (v : Z) (t : EOS_TCB_t) : EOS_TCB_t :=
  mkTCB v (blocked t) (next t) (timeOut t) (priority t) (paused t).
Definition set_blocked (v : Z) (t : EOS_TCB_t) : EOS_TCB_t :=
  mkTCB (sp t) v (next t) (timeOut t) (priority t) (paused t).
Definition set_next (v : Z) (t : EOS_TCB_t) : EOS_TCB_t :=
  mkTCB (sp t) (blocked t) v (timeOut t) (priority t) (paused t).
Definition set_timeOut (v : Z) (t : EOS_TCB_t) : EOS_TCB_t :=
  mkTCB (sp t) (blocked t) (next t) v (priority t) (paused t).
Definition set_paused (v : Z) (t : EOS_TCB_t) : EOS_TCB_t :=
  mkTCB (sp t) (blocked t) (next t) (timeOut t) (priority t) v.

Definition set_sem_count (v : Z) (s : EOS_semaphore_t) : EOS_semaphore_t :=
  mkSem v (max_count s).

(** ** Kernel state *)

Record kernel : Type := mkKernel {
  tcbs : gmap Z EOS_TCB_t;
  run_ptr : Z;
  sems : gmap Z EOS_semaphore_t;
  queues : gmap Z EOS_queue_t;
  primask : bool;
  pendsv : bool
}.

Definition set_tcbs (h : gmap Z EOS_TCB_t) (k : kernel) : kernel :=
  mkKernel h (run_ptr k) (sems k) (queues k) (primask k) (pendsv k).
Definition set_run_ptr (p : Z) (k : kernel) : kernel :=
  mkKernel (tcbs k) p (sems k) (queues k) (primask k) (pendsv k).
Definition set_sems (m : gmap Z EOS_semaphore_t) (k : kernel) : kernel :=
  mkKernel (tcbs k) (run_ptr k) m (queues k) (primask k) (pendsv k).
Definition set_queues (m : gmap Z EOS_queue_t) (k : kernel) : kernel :=
  mkKernel (tcbs k) (run_ptr k) (sems k) m (primask k) (pendsv k).
Definition set_primask (b : bool) (k : kernel) : kernel :=
  mkKernel (tcbs k) (run_ptr k) (sems k) (queues k) b (pendsv k).
Definition set_pendsv (b : bool) (k : kernel) : kernel :=
  mkKernel (tcbs k) (run_ptr k) (sems k) (queues k) (primask k) b.

(** ** Helper functions of [eos_kernel.c] *)

Definition EOS_Suspend (k : kernel) : kernel := set_pendsv true k.
Definition EOS_EnterCritical (k : kernel) : kernel := set_primask true k.
Definition EOS_ExitCritical (k : kernel) : kernel := set_primask false k.

(** A task is runnable when it is neither blocked nor paused. *)
Definition runnable (t : EOS_TCB_t) : bool :=
  (blocked t =? 0) && (paused t =? 0).

(** ** The scheduler *)

(** The [while (current_ptr != run_ptr)] loop of [EOS_scheduler].  The
    loop is bounded by the number of TCBs in the store: a walk that has
    not come back to [stop] after that many steps never will. *)
Fixpoint scheduler_loop (fuel : nat) (h : gmap Z EOS_TCB_t)
    (stop current best : Z) : option Z :=
  if current =? stop then Some best
  else match fuel with
       | O => None
       | S fuel' =>
         match h !! current with
         | None => None
         | Some c =>
           if (blocked c =? 0) && (paused c =? 0) then
             match h !! best with
             | None => None
             | Some b =>
               scheduler_loop fuel' h stop (next c)
                 (if priority b <=? priority c then current else best)
             end
           else scheduler_loop fuel' h stop (next c) best
         end
       end.

Section Scheduler.

(** The address of the static [idle_task]. *)
Variable idle_task : Z.

Definition EOS_scheduler (k : kernel) : option kernel :=
  match tcbs k !! run_ptr k with
  | None => None
  | Some r =>
    let fuel := size (tcbs k) in
    if negb (blocked r =? 0) || negb (paused r =? 0) then
      match tcbs k !! idle_task with
      | None => None
      | Some i =>
        match scheduler_loop fuel (tcbs k) (run_ptr k) (next i) idle_task with
        | None => None
        | Some best => Some (set_run_ptr best k)
        end
      end
    else
      match scheduler_loop fuel (tcbs k) (run_ptr k) (next r) (run_ptr k) with
      | None => None
      | Some best => Some (set_run_ptr best k)
      end
  end.

End Scheduler.

(** ** Basic operations *)

(** [EOS_Delay]: the running task puts itself to sleep. *)
Definition EOS_Delay (timeout : Z) (k : kernel) : option kernel :=
  let k1 := EOS_EnterCritical k in
  let timeout := if timeout =? 0 then 1 else timeout in
  match tcbs k1 !! run_ptr k1 with
  | None => None
  | Some r =>
    let r' := set_timeOut timeout (set_blocked EOS_TIMED_OUT r) in
    let k2 := set_tcbs (<[run_ptr k1 := r']> (tcbs k1)) k1 in
    Some (EOS_Suspend (EOS_ExitCritical k2))
  end.

Definition EOS_Pause (task : Z) (k : kernel)
    : option (EOS_status_t * kernel) :=
  let k1 := EOS_EnterCritical k in
  if task =? NULL then Some (EOS_ERROR, k1)
  else
    match tcbs k1 !! task with
    | None => None
    | Some t =>
      if negb (paused t =? 0) then Some (EOS_ERROR, k1)
      else
        let k2 := set_tcbs (<[task := set_paused EOS_PAUSED t]> (tcbs k1)) k1 in
        let k3 := if task =? run_ptr k2
                  then EOS_Suspend (EOS_ExitCritical k2)
                  else k2 in
        Some (EOS_OK, EOS_ExitCritical k3)
    end.

Definition EOS_Resume (task : Z) (k : kernel)
    : option (EOS_status_t * kernel) :=
  let k1 := EOS_EnterCritical k in
  if task =? NULL then Some (EOS_ERROR, k1)
  else
    match tcbs k1 !! task with
    | None => None
    | Some t =>
      if negb (paused t =? EOS_PAUSED) then Some (EOS_ERROR, k1)
      else
        let k2 := set_tcbs (<[task := set_paused 0 t]> (tcbs k1)) k1 in
        Some (EOS_OK, EOS_ExitCritical k2)
    end.

(** ** Unblocking a waiter *)

(** The [do ... while (tmp_ptr != start_ptr)] loop of [EOS_TaskUnblock];
    [best] is [NULL] until a waiter has been found. *)
Fixpoint unblock_loop (fuel : nat) (h : gmap Z EOS_TCB_t)
    (start item tmp best : Z) : option Z :=
  match fuel with
  | O => None
  | S fuel' =>
    match h !! tmp with
    | None => None
    | Some t =>
      let obest :=
        if blocked t =? item then
          if best =? NULL then Some tmp
          else match h !! best with
               | None => None
               | Some b => Some (if priority b <? priority t then tmp else best)
               end
        else Some best in
      match obest with
      | None => None
      | Some best' =>
        if next t =? start then Some best'
        else unblock_loop fuel' h start item (next t) best'
      end
    end
  end.

Definition EOS_TaskUnblock (item : Z) (k : kernel) : option kernel :=
  match tcbs k !! run_ptr k with
  | None => None
  | Some r =>
    match unblock_loop (size (tcbs k)) (tcbs k) (run_ptr k) item (next r)
            NULL with
    | None => None
    | Some best =>
      if best =? NULL then Some k
      else
        match tcbs k !! best with
        | None => None
        | Some b =>
          let k1 := set_tcbs (<[best := set_blocked 0 b]> (tcbs k)) k in
          match tcbs k1 !! run_ptr k1 with
          | None => None
          | Some r1 =>
            if priority r1 <? priority b
            then Some (EOS_Suspend (EOS_ExitCritical k1))
            else Some k1
          end
        end
    end
  end.

(** ** Timeouts *)

(** One visit of the loop body of [EOS_HandleTimeout]. *)
Definition timeout_visit (c : EOS_TCB_t) : EOS_TCB_t :=
  if (blocked c =? EOS_TIMED_OUT) && (paused c =? 0) then
    if 0 <? timeOut c then
      let c1 := set_timeOut (u32 (timeOut c - 1)) c in
      if timeOut c1 =? 0 then set_blocked 0 c1 else c1
    else c
  else c.

Fixpoint timeout_loop (fuel : nat) (h : gmap Z EOS_TCB_t)
    (stop current : Z) : option (gmap Z EOS_TCB_t) :=
  if current =? stop then Some h
  else match fuel with
       | O => None
       | S fuel' =>
         match h !! current with
         | None => None
         | Some c =>
           timeout_loop fuel' (<[current := timeout_visit c]> h) stop (next c)
         end
       end.

Definition EOS_HandleTimeout (k : kernel) : option kernel :=
  match tcbs k !! run_ptr k with
  | None => None
  | Some r =>
    match timeout_loop (size (tcbs k)) (tcbs k) (run_ptr k) (next r) with
    | None => None
    | Some h => Some (set_tcbs h k)
    end
  end.

(** ** Thread creation *)

(** The [while (temp->next != run_ptr)] walk of [EOS_ThreadNew]: the
    predecessor of [stop] in the ring. *)
Fixpoint find_pred (fuel : nat) (h : gmap Z EOS_TCB_t)
    (stop temp : Z) : option Z :=
  match h !! temp with
  | None => None
  | Some t =>
    if next t =? stop then Some temp
    else match fuel with
         | O => None
         | S fuel' => find_pred fuel' h stop (next t)
         end
  end.

(** [control_block] and [stack] are what the two calls of [malloc] return
    ([NULL] when the allocation fails).  The contents of the stack are not
    part of the modelled state; [sp] is kept as an address.  When the
    control block could not be allocated the function calls [free (sp)]
    after [sp] has been moved to the frame inside the stack: [sp] is then
    neither [NULL] nor a pointer returned by [malloc] (the stack may even
    be the array of the caller), so the call, and with it the function,
    has no defined behaviour. *)
Definition EOS_ThreadNew (control_block stack : Z)
    (function prio task_stack stack_size : Z) (use_fpu : EOS_status_t)
    (k : kernel) : option (Z * kernel) :=
  if stack_size <? 64 then Some (NULL, k)
  else if PRIORITY_HIGH <? prio then Some (NULL, k)
  else
    let frame := if decide (use_fpu = EOS_USE_FPU) then 51 else 17 in
    if (task_stack =? NULL) && (stack =? NULL) then Some (NULL, k)
    else
      let base := if task_stack =? NULL then stack else task_stack in
      let sp := u32 (base + 4 * (stack_size - frame)) in
      if control_block =? NULL then None
      else
        match find_pred (size (tcbs k)) (tcbs k) (run_ptr k) (run_ptr k) with
        | None => None
        | Some temp =>
          match tcbs k !! temp with
          | None => None
          | Some t =>
            let cb := mkTCB sp 0 (run_ptr k) 0 (u8 prio) 0 in
            let h := <[temp := set_next control_block t]> (tcbs k) in
            Some (control_block, set_tcbs (<[control_block := cb]> h) k)
          end
        end.

(** The static initialiser of [idle_task] and [run_ptr]. *)
Definition idle_tcb (idle_task idle_sp : Z) : EOS_TCB_t :=
  mkTCB idle_sp 0 idle_task 0 PRIORITY_IDLE 0.

Definition kernel_init (idle_task idle_sp : Z) : kernel :=
  mkKernel {[ idle_task := idle_tcb idle_task idle_sp ]} idle_task ∅ ∅
    false false.

(** ** Blocking calls

    A task that blocks unmasks interrupts with a switch pending, is
    switched out, and continues only once the scheduler has elected it
    again.  Everything that happens in between (the switch handler, other
    tasks, interrupt handlers) is one transition of the environment.  A
    blocking call consumes a list of such transitions, one per suspension;
    when the list is exhausted the caller is still switched out. *)

Definition world : Type := list (kernel → kernel).

Inductive outcome (A : Type) : Type :=
  | Returned (a : A) (k : kernel)
  | Suspended (k : kernel)
  | Undefined.

Arguments Returned {A} a k.
Arguments Suspended {A} k.
Arguments Undefined {A}.

(** ** Semaphores ([eos_semaphore.c]) *)

(** The [while (1)] loop of [EOS_SemaphoreAcquire], entered with
    interrupts masked. *)
Fixpoint sem_acquire_loop (w : world) (semaphore : Z) (k : kernel)
    : outcome EOS_status_t :=
  match sems k !! semaphore with
  | None => Undefined
  | Some s =>
    if 0 <? sem_count s then
      let s' := set_sem_count (u32 (sem_count s - 1)) s in
      Returned EOS_OK
        (EOS_ExitCritical (set_sems (<[semaphore := s']> (sems k)) k))
    else
      match tcbs k !! run_ptr k with
      | None => Undefined
      | Some r =>
        let r' := set_blocked semaphore r in
        let k1 := set_tcbs (<[run_ptr k := r']> (tcbs k)) k in
        let k2 := EOS_Suspend (EOS_ExitCritical k1) in
        match w with
        | [] => Suspended k2
        | e :: w' => sem_acquire_loop w' semaphore (EOS_EnterCritical (e k2))
        end
      end
  end.

Definition EOS_SemaphoreAcquire (w : world) (semaphore : Z) (k : kernel)
    : outcome EOS_status_t :=
  sem_acquire_loop w semaphore (EOS_EnterCritical k).

Definition EOS_SemaphoreRelease (semaphore : Z) (k : kernel)
    : option (EOS_status_t * kernel) :=
  let k1 := EOS_EnterCritical k in
  match sems k1 !! semaphore with
  | None => None
  | Some s =>
    if max_count s <=? sem_count s then Some (EOS_ERROR, EOS_ExitCritical k1)
    else
      let s' := set_sem_count (u32 (sem_count s + 1)) s in
      let k2 := set_sems (<[semaphore := s']> (sems k1)) k1 in
      match EOS_TaskUnblock semaphore k2 with
      | None => None
      | Some k3 => Some (EOS_OK, EOS_ExitCritical k3)
      end
  end.

(** [semaphore] is what [malloc] returns ([NULL] on failure); the
    parameter [count] is a [uint8_t]. *)
Definition EOS_SemaphoreNew (semaphore : Z) (count : Z) (k : kernel)
    : Z * kernel :=
  if semaphore =? NULL then (NULL, k)
  else
    let s := mkSem (u8 count) (u8 count) in
    (semaphore, set_sems (<[semaphore := s]> (sems k)) k).

(** ** Queues ([eos_queue.c]) *)

(** [memcpy] out of and into a byte array; reading or writing past the
    end of the array is undefined. *)
Definition read_bytes (off n : Z) (mem : list Z) : option (list Z) :=
  if (0 <=? off) && (0 <=? n) && (off + n <=? Z.of_nat (length mem))
  then Some (take (Z.to_nat n) (drop (Z.to_nat off) mem))
  else None.

Definition write_bytes (off : Z) (src mem : list Z) : option (list Z) :=
  if (0 <=? off) && (off + Z.of_nat (length src) <=? Z.of_nat (length mem))
  then Some (take (Z.to_nat off) mem ++ src
             ++ drop (Z.to_nat off + length src) mem)
  else None.

(** [queue] and [buf] are what the two calls of [malloc] return; [raw] is
    the indeterminate contents of the fresh buffer. *)
Definition EOS_QueueCreate (queue buf : Z) (raw : list Z)
    (size item_size : Z) (k : kernel) : Z * kernel :=
  if queue =? NULL then (NULL, k)
  else if buf =? NULL then (NULL, k)
  else
    let q := mkQueue buf raw 0 0 (u32 size) (u32 item_size) 0 in
    (queue, set_queues (<[queue := q]> (queues k)) k).

(** The inner [while (queue->count == 0)] loop of [EOS_QueueGet]. *)
Fixpoint queue_get_wait (w : world) (queue : Z) (k : kernel) : outcome unit :=
  match queues k !! queue with
  | None => Undefined
  | Some q =>
    if q_count q =? 0 then
      let k1 := EOS_Suspend (EOS_ExitCritical k) in
      match w with
      | [] => Suspended k1
      | e :: w' => queue_get_wait w' queue (EOS_EnterCritical (e k1))
      end
    else Returned tt k
  end.

(** The inner [while (queue->count == queue->size)] loop of
    [EOS_QueuePut]. *)
Fixpoint queue_put_wait (w : world) (queue : Z) (k : kernel) : outcome unit :=
  match queues k !! queue with
  | None => Undefined
  | Some q =>
    if q_count q =? q_size q then
      let k1 := EOS_Suspend (EOS_ExitCritical k) in
      match w with
      | [] => Suspended k1
      | e :: w' => queue_put_wait w' queue (EOS_EnterCritical (e k1))
      end
    else Returned tt k
  end.

(** The part of [EOS_QueueGet] after the emptiness test: copy the item at
    [head] into [item], advance [head], decrement [count], unblock a
    waiter.  The result carries the new contents of [item]. *)
Definition queue_get_commit (queue : Z) (item : list Z) (k : kernel)
    : outcome (EOS_status_t * list Z) :=
  match queues k !! queue with
  | None => Undefined
  | Some q =>
    match read_bytes (u32 (q_head q * q_item_size q)) (q_item_size q)
            (q_data q) with
    | None => Undefined
    | Some src =>
      match write_bytes 0 src item with
      | None => Undefined
      | Some item' =>
        if q_size q =? 0 then Undefined
        else
          let q' := mkQueue (q_buffer q) (q_data q)
                      (u32 (q_head q + 1) mod q_size q) (q_tail q)
                      (q_size q) (q_item_size q) (u32 (q_count q - 1)) in
          let k1 := set_queues (<[queue := q']> (queues k)) k in
          match EOS_TaskUnblock queue k1 with
          | None => Undefined
          | Some k2 => Returned (EOS_OK, item') (EOS_ExitCritical k2)
          end
      end
    end
  end.

Definition EOS_QueueGet (w : world) (queue : Z) (item : list Z)
    (block : EOS_block_status_t) (k : kernel)
    : outcome (EOS_status_t * list Z) :=
  let k1 := EOS_EnterCritical k in
  match queues k1 !! queue with
  | None => Undefined
  | Some q =>
    if q_count q =? 0 then
      if decide (block = EOS_BLOCK) then
        match tcbs k1 !! run_ptr k1 with
        | None => Undefined
        | Some r =>
          let r' := set_blocked queue r in
          let k2 := set_tcbs (<[run_ptr k1 := r']> (tcbs k1)) k1 in
          let k3 := EOS_Suspend (EOS_ExitCritical k2) in
          match w with
          | [] => Suspended k3
          | e :: w' =>
            match queue_get_wait w' queue (EOS_EnterCritical (e k3)) with
            | Returned _ k4 => queue_get_commit queue item k4
            | Suspended k4 => Suspended k4
            | Undefined => Undefined
            end
          end
        end
      else Returned (EOS_BLOCKED, item) (EOS_ExitCritical k1)
    else queue_get_commit queue item k1
  end.

(** The part of [EOS_QueuePut] after the fullness test. *)
Definition queue_put_commit (queue : Z) (item : list Z) (k : kernel)
    : outcome EOS_status_t :=
  match queues k !! queue with
  | None => Undefined
  | Some q =>
    match read_bytes 0 (q_item_size q) item with
    | None => Undefined
    | Some src =>
      match write_bytes (u32 (q_tail q * q_item_size q)) src (q_data q) with
      | None => Undefined
      | Some data' =>
        if q_size q =? 0 then Undefined
        else
          let q' := mkQueue (q_buffer q) data'
                      (q_head q) (u32 (q_tail q + 1) mod q_size q)
                      (q_size q) (q_item_size q) (u32 (q_count q + 1)) in
          let k1 := set_queues (<[queue := q']> (queues k)) k in
          match EOS_TaskUnblock queue k1 with
          | None => Undefined
          | Some k2 => Returned EOS_OK (EOS_ExitCritical k2)
          end
      end
    end
  end.

Definition EOS_QueuePut (w : world) (queue : Z) (item : list Z)
    (block : EOS_block_status_t) (k : kernel) : outcome EOS_status_t :=
  let k1 := EOS_EnterCritical k in
  match queues k1 !! queue with
  | None => Undefined
  | Some q =>
    if q_count q =? q_size q then
      if decide (block = EOS_BLOCK) then
        match tcbs k1 !! run_ptr k1 with
        | None => Undefined
        | Some r =>
          let r' := set_blocked queue r in
          let k2 := set_tcbs (<[run_ptr k1 := r']> (tcbs k1)) k1 in
          let k3 := EOS_Suspend (EOS_ExitCritical k2) in
          match w with
          | [] => Suspended k3
          | e :: w' =>
            match queue_put_wait w' queue (EOS_EnterCritical (e k3)) with
            | Returned _ k4 => queue_put_commit queue item k4
            | Suspended k4 => Suspended k4
            | Undefined => Undefined
            end
          end
        end
      else Returned EOS_BLOCKED (EOS_ExitCritical k1)
    else queue_put_commit queue item k1
  end.

(** * Predicates of the specification *)

(** ** The ring of task control blocks *)

(** [seg h p l q]: following [next] from [p] visits the addresses [l], in
    this order, and arrives at [q]. *)
Fixpoint seg (h : gmap Z EOS_TCB_t) (p : Z) (l : list Z) (q : Z) : Prop :=
  match l with
  | [] => p = q
  | x :: l' => x = p ∧ ∃ t, h !! p = Some t ∧ seg h (next t) l' q
  end.

(** [ring h p l]: the TCBs form a ring; walking it from the successor of
    [p] visits [l] and comes back to [p].  No TCB lives at [NULL]. *)
Definition ring (h : gmap Z EOS_TCB_t) (p : Z) (l : list Z) : Prop :=
  NoDup (p :: l) ∧ (NULL ∉ p :: l)
  ∧ ∃ t, h !! p = Some t ∧ seg h (next t) l p.

(** [n] steps along [next]. *)
Fixpoint walk (h : gmap Z EOS_TCB_t) (n : nat) (p : Z) : option Z :=
  match n with
  | O => Some p
  | S n' => match h !! p with
            | None => None
            | Some t => walk h n' (next t)
            end
  end.

Definition runnable_at (h : gmap Z EOS_TCB_t) (p : Z) : Prop :=
  ∃ t, h !! p = Some t ∧ runnable t = true.

(** ** Waiters *)

(** [x] waits on [item]. *)
Definition waits_on (h : gmap Z EOS_TCB_t) (item x : Z) : Prop :=
  ∃ t, h !! x = Some t ∧ blocked t = item.

(** The waiter of the specification: [b] is a waiter in [l] whose priority
    is strictly above that of every waiter before it and not below that of
    any waiter after it (the first found of the highest priority). *)
Definition first_best_waiter (h : gmap Z EOS_TCB_t) (item : Z)
    (l : list Z) (b : Z) : Prop :=
  ∃ l1 l2 tb, l = l1 ++ b :: l2 ∧ h !! b = Some tb ∧ blocked tb = item
    ∧ (∀ x t, x ∈ l1 → h !! x = Some t → blocked t = item →
         priority t < priority tb)
    ∧ (∀ x t, x ∈ l2 → h !! x = Some t → blocked t = item →
         priority t ≤ priority tb).

(** What the loop has found after visiting [l]. *)
Definition found (h : gmap Z EOS_TCB_t) (item : Z) (l : list Z) (b : Z)
    : Prop :=
  (b = NULL ∧ ∀ x, x ∈ l → ¬ waits_on h item x)
  ∨ first_best_waiter h item l b.

(** What [EOS_TaskUnblock item] is specified to do on the ring
    [run_ptr k :: l], where [r] is the running TCB: nothing when no TCB of
    [l] waits on [item]; otherwise clear [blocked] of the first waiter of
    highest priority, touch no other TCB, and request a switch exactly
    when that waiter's priority is above the running task's. *)
Definition unblocks_best_waiter (k : kernel) (l : list Z) (item : Z)
    (r : EOS_TCB_t) : Prop :=
  ((∀ x, x ∈ l → ¬ waits_on (tcbs k) item x)
   ∧ EOS_TaskUnblock item k = Some k)
  ∨ (∃ b tb, first_best_waiter (tcbs k) item l b
      ∧ tcbs k !! b = Some tb
      ∧ EOS_TaskUnblock item k =
          Some (let k1 := set_tcbs (<[b := set_blocked 0 tb]> (tcbs k)) k in
                if decide (priority r < priority tb)
                then EOS_Suspend (EOS_ExitCritical k1)
                else k1)).

(** A semaphore whose count and maximum are both zero. *)
Definition dead_semaphore (semaphore : Z) (k : kernel) : Prop :=
  sems k !! semaphore = Some (mkSem 0 0).

(** ** Wake-ups that find the queue unchanged *)

(** The environment hands the processor back to the caller with its
    [blocked] field cleared although [queue] holds nothing: the caller was
    woken by [EOS_TaskUnblock] and the item went to somebody else. *)
Definition wakes_empty_handed (queue : Z) (e : kernel → kernel)
    (k : kernel) : Prop :=
  (∃ q, queues (e k) !! queue = Some q ∧ q_count q = 0)
  ∧ ∃ r, tcbs (e k) !! run_ptr (e k) = Some r ∧ blocked r = 0.

(** The same for a producer: woken while the queue is still full. *)
Definition wakes_still_full (queue : Z) (e : kernel → kernel)
    (k : kernel) : Prop :=
  (∃ q, queues (e k) !! queue = Some q ∧ q_count q = q_size q)
  ∧ ∃ r, tcbs (e k) !! run_ptr (e k) = Some r ∧ blocked r = 0.

(** ** Queues *)

(** The predicate of the specification on a queue descriptor. *)
Definition queue_inv (q : EOS_queue_t) : Prop :=
  0 ≤ q_count q ≤ q_size q
  ∧ 0 ≤ q_head q < q_size q
  ∧ 0 ≤ q_tail q < q_size q.

(** The descriptor is that of a queue of [sz] slots of [isz] bytes whose
    buffer has this size. *)
Definition queue_shape (sz isz : Z) (q : EOS_queue_t) : Prop :=
  q_size q = sz ∧ q_item_size q = isz
  ∧ Z.of_nat (length (q_data q)) = sz * isz.

Definition ring_ok (k : kernel) : Prop := ∃ l, ring (tcbs k) (run_ptr k) l.

Definition queue_ok (queue sz isz : Z) (k : kernel) : Prop :=
  ∃ q, queues k !! queue = Some q ∧ queue_inv q ∧ queue_shape sz isz q.


(** ** Sequences of calls *)

(** The arguments of one call of [EOS_ThreadNew], with what its two
    calls of [malloc] return. *)
Record thread_args : Type := mkArgs {
  ta_control_block : Z;
  ta_stack : Z;
  ta_function : Z;
  ta_priority : Z;
  ta_task_stack : Z;
  ta_stack_size : Z;
  ta_use_fpu : EOS_status_t
}.

(** A sequence of calls of [EOS_ThreadNew]; the result lists the handles
    returned. *)
Fixpoint create_threads (calls : list thread_args) (k : kernel)
    : option (list Z * kernel) :=
  match calls with
  | [] => Some ([], k)
  | a :: rest =>
    match EOS_ThreadNew (ta_control_block a) (ta_stack a) (ta_function a)
            (ta_priority a) (ta_task_stack a) (ta_stack_size a)
            (ta_use_fpu a) k with
    | None => None
    | Some (handle, k1) =>
      match create_threads rest k1 with
      | None => None
      | Some (handles, k2) => Some (handle :: handles, k2)
      end
    end
  end.

(** The running task tags itself as waiting on [token] and asks for a
    switch: what [EOS_SemaphoreAcquire], [EOS_QueueGet] and [EOS_QueuePut]
    do before they suspend. *)
Definition block_on (token : Z) (k : kernel) : option kernel :=
  match tcbs k !! run_ptr k with
  | None => None
  | Some r =>
    Some (EOS_Suspend (EOS_ExitCritical
            (set_tcbs (<[run_ptr k := set_blocked token r]> (tcbs k))
               (EOS_EnterCritical k))))
  end.

(** ** What a call does to the queue *)







(** * Concrete states *)

(** A checker for [ring] on concrete stores. *)
Fixpoint segb (h : gmap Z EOS_TCB_t) (p : Z) (l : list Z) (q : Z) : bool :=
  match l with
  | [] => bool_decide (p = q)
  | x :: l' =>
    bool_decide (x = p)
    && match h !! p with
       | Some t => segb h (next t) l' q
       | None => false
       end
  end.

Definition ringb (h : gmap Z EOS_TCB_t) (p : Z) (l : list Z) : bool :=
  bool_decide (NoDup (p :: l)) && bool_decide (NULL ∉ p :: l)
  && match h !! p with
     | Some t => segb h (next t) l p
     | None => false
     end.

(** Running a list of kernel transitions one after the other. *)
Definition run_script (fs : list (kernel → option kernel)) (k : kernel)
    : option kernel :=
  foldl (λ ok f, match ok with Some k' => f k' | None => None end) (Some k) fs.

Definition returned {A : Type} (o : outcome A) : option kernel :=
  match o with
  | Returned _ k => Some k
  | _ => None
  end.

Definition result {A : Type} (o : outcome A) : option A :=
  match o with
  | Returned a _ => Some a
  | _ => None
  end.

Definition suspended {A : Type} (o : outcome A) : option kernel :=
  match o with
  | Suspended k => Some k
  | _ => None
  end.

Definition thread_new (a : thread_args) (k : kernel) : option kernel :=
  snd <$> EOS_ThreadNew (ta_control_block a) (ta_stack a) (ta_function a)
            (ta_priority a) (ta_task_stack a) (ta_stack_size a)
            (ta_use_fpu a) k.

(** The idle task at address 1000 and three threads, created the way
    [EvanRTOS_Init] of [eos.c] creates its tasks: [2000] of high, [3000]
    of medium and [4000] of low priority. *)
Definition demo_idle : Z := 1000.

Definition demo_init : kernel := kernel_init demo_idle 500.

Definition demo_calls : list thread_args :=
  [ mkArgs 2000 20000 7 PRIORITY_HIGH 0 128 EOS_NO_FPU;
    mkArgs 3000 30000 8 PRIORITY_MEDIUM 0 128 EOS_USE_FPU;
    mkArgs 4000 40000 9 PRIORITY_LOW 0 128 EOS_NO_FPU ].

Definition demo_kernel : kernel :=
  default demo_init (run_script (thread_new <$> demo_calls) demo_init).

(** The high-priority task has been elected and has gone to sleep. *)
Definition demo_elected : kernel :=
  default demo_kernel (EOS_scheduler demo_idle demo_kernel).

Definition demo_asleep : kernel :=
  default demo_elected (EOS_Delay 5 demo_elected).

(** The same, after the high-priority task has paused the idle task
    through its global TCB before going to sleep. *)
Definition demo_idle_paused : kernel :=
  default demo_elected
    (run_script [ λ k, snd <$> EOS_Pause demo_idle k; EOS_Delay 5 ]
       demo_elected).

(** Tasks [2000] and [3000] wait on the semaphore at [500], whose count is
    zero; the low-priority task [4000] is running. *)
Definition demo_waiting : kernel :=
  default demo_kernel
    (run_script
       [ λ k, Some (snd (EOS_SemaphoreNew 500 1 k));
         EOS_scheduler demo_idle;
         λ k, returned (EOS_SemaphoreAcquire [] 500 k);
         block_on 500;
         EOS_scheduler demo_idle;
         EOS_scheduler demo_idle;
         block_on 500;
         EOS_scheduler demo_idle;
         EOS_scheduler demo_idle ]
       demo_kernel).

(** A ring of the idle task alone, tagged with the token [500]. *)
Definition lonely_idle : EOS_TCB_t := mkTCB 0 500 demo_idle 0 PRIORITY_IDLE 0.

Definition demo_lonely : kernel :=
  mkKernel {[ demo_idle := lonely_idle ]} demo_idle ∅ ∅ true false.

(** Task [2000] sleeps for one more tick, task [3000] runs, and the queue
    at [600] (two slots of one byte) is empty. *)
Definition demo_queue : kernel :=
  default demo_kernel
    (run_script
       [ λ k, Some (snd (EOS_QueueCreate 600 6000 [0; 0] 2 1 k));
         EOS_scheduler demo_idle;
         EOS_Delay 1;
         EOS_scheduler demo_idle;
         EOS_scheduler demo_idle ]
       demo_kernel).

(** What happens while task [3000] is switched out of its call of
    [EOS_QueueGet]: the idle task and then task [4000] are elected; [4000]
    puts one byte, which wakes [3000]; the tick wakes [2000], which is
    elected first, takes the byte and goes back to sleep; then [3000] is
    elected. *)
Definition demo_env (k : kernel) : kernel :=
  default k
    (run_script
       [ EOS_scheduler demo_idle;
         EOS_scheduler demo_idle;
         λ k, returned (EOS_QueuePut [] 600 [7] EOS_NO_BLOCK k);
         EOS_HandleTimeout;
         EOS_scheduler demo_idle;
         λ k, returned (EOS_QueueGet [] 600 [0] EOS_NO_BLOCK k);
         EOS_Delay 10;
         EOS_scheduler demo_idle;
         EOS_scheduler demo_idle ]
       k).

Definition demo_queue_suspended : kernel :=
  default demo_queue (suspended (EOS_QueueGet [] 600 [0] EOS_BLOCK demo_queue)).

(** The two scenarios of the specification that need no scheduling: a
    semaphore created with count 1, and a queue of two slots of one
    byte. *)
Definition demo_sem : kernel := snd (EOS_SemaphoreNew 500 1 demo_kernel).

Definition demo_two_slots : kernel :=
  snd (EOS_QueueCreate 600 6000 [0; 0] 2 1 demo_kernel).

Definition put_byte (b : Z) (k : kernel) : outcome EOS_status_t :=
  EOS_QueuePut [] 600 [b] EOS_NO_BLOCK k.

Definition get_byte (k : kernel) : outcome (EOS_status_t * list Z) :=
  EOS_QueueGet [] 600 [0] EOS_NO_BLOCK k.

(** ** The invariant of the scheduler

    The definitions below depend on the address of the idle task. *)

Section Kernel.

Variable idle_task : Z.

(** The TCBs form a ring through [run_ptr], the idle task is one of them,
    and the idle task is runnable. *)
Definition kernel_inv (k : kernel) (l : list Z) : Prop :=
  ring (tcbs k) (run_ptr k) l
  ∧ idle_task ∈ run_ptr k :: l
  ∧ runnable_at (tcbs k) idle_task.

Definition kernel_ok (k : kernel) : Prop := ∃ l, kernel_inv k l.

End Kernel.

(** * The rest of the kernel *)

(** ** What the scheduler elects *)

(** [b] is what the loop of [EOS_scheduler] elects when it starts with
    the candidate [start] and visits [visited]: either no runnable TCB
    visited has a priority that reaches that of [start], and [b] is
    [start]; or [b] is a runnable TCB visited whose priority is not below
    that of [start] nor of any runnable TCB visited before it, and is
    strictly above that of every runnable TCB visited after it (of several
    candidates of the highest priority the last one visited wins). *)
Definition elected_among (h : gmap Z EOS_TCB_t) (start : Z)
    (visited : list Z) (b : Z) : Prop :=
  ∃ ts tb, h !! start = Some ts ∧ h !! b = Some tb
    ∧ ((b = start
        ∧ ∀ x t, x ∈ visited → h !! x = Some t → runnable t = true →
            priority t < priority ts)
       ∨ (∃ l1 l2, visited = l1 ++ b :: l2 ∧ runnable tb = true
           ∧ priority ts ≤ priority tb
           ∧ (∀ x t, x ∈ l1 → h !! x = Some t → runnable t = true →
                priority t ≤ priority tb)
           ∧ (∀ x t, x ∈ l2 → h !! x = Some t → runnable t = true →
                priority t < priority tb))).

(** Where [EOS_scheduler] starts and what it visits on the ring
    [run_ptr k :: l]: from the running task, all of [l], when the running
    task is runnable; otherwise from the idle task, the TCBs that follow
    the idle task in [l]. *)
Definition scheduler_visits (idle_task : Z) (k : kernel) (l : list Z)
    (start : Z) (visited : list Z) : Prop :=
  match tcbs k !! run_ptr k with
  | None => False
  | Some r =>
    if runnable r then start = run_ptr k ∧ visited = l
    else start = idle_task
         ∧ ((idle_task = run_ptr k ∧ visited = l)
            ∨ ∃ l1, l = l1 ++ idle_task :: visited)
  end.

(** ** The switch handler *)

(** [PendSV_Handler], as far as the kernel state goes: with interrupts
    masked it stores [psp], the process stack pointer once the registers
    of the outgoing task have been pushed, in the TCB of that task, calls
    the scheduler, and unmasks interrupts.  The registers and the
    contents of the stacks are not part of the state; the pending bit is
    cleared by the processor, not by the handler. *)
Definition PendSV_Handler (idle_task psp : Z) (k : kernel) : option kernel :=
  let k1 := EOS_EnterCritical k in
  match tcbs k1 !! run_ptr k1 with
  | None => None
  | Some r =>
    let k2 := set_tcbs (<[run_ptr k1 := set_sp psp r]> (tcbs k1)) k1 in
    match EOS_scheduler idle_task k2 with
    | None => None
    | Some k3 => Some (EOS_ExitCritical k3)
    end
  end.

(** ** Quanta and switches *)

(** What [SysTick_Handler] does to the kernel state when a quantum
    ends. *)
Definition quantum_end (k : kernel) : option kernel :=
  match EOS_HandleTimeout (EOS_EnterCritical k) with
  | None => None
  | Some k' => Some (EOS_ExitCritical (set_pendsv true k'))
  end.

(** The two handlers that run between the instructions of the tasks: the
    tick that ends a quantum, and the switch with the stack pointer it
    saves. *)
Inductive kernel_event : Type :=
  | Quantum
  | Switch (psp : Z).

Definition kernel_event_run (idle_task : Z) (e : kernel_event) (k : kernel)
    : option kernel :=
  match e with
  | Quantum => quantum_end k
  | Switch psp => PendSV_Handler idle_task psp k
  end.

Fixpoint run_events (idle_task : Z) (evs : list kernel_event) (k : kernel)
    : option kernel :=
  match evs with
  | [] => Some k
  | e :: evs' =>
    match kernel_event_run idle_task e k with
    | None => None
    | Some k' => run_events idle_task evs' k'
    end
  end.

(** The number of quanta that end during [evs]. *)
Fixpoint quanta (evs : list kernel_event) : Z :=
  match evs with
  | [] => 0
  | Quantum :: evs' => 1 + quanta evs'
  | Switch _ :: evs' => quanta evs'
  end.

(** ** The tick handler *)

(** The kernel state together with the variables of [eos_kernel.c] that
    only the tick handler and [EOS_Init] use: [task_period],
    [scheduler_enable] and the static counter of [SysTick_Handler]. *)
Record system : Type := mkSystem {
  sys_kernel : kernel;
  task_period : Z;
  scheduler_enable : Z;
  eos_tickCounter : Z
}.

(** [HAL_IncTick] belongs to the vendor library; it touches none of the
    variables of the kernel and is left out. *)
Definition SysTick_Handler (s : system) : option system :=
  let k1 := EOS_EnterCritical (sys_kernel s) in
  let counter := u32 (eos_tickCounter s + 1) in
  if (task_period s <=? counter) && (scheduler_enable s =? 1) then
    match EOS_HandleTimeout k1 with
    | None => None
    | Some k2 =>
      Some (mkSystem (EOS_ExitCritical (set_pendsv true k2))
              (task_period s) (scheduler_enable s) 0)
    end
  else
    Some (mkSystem (EOS_ExitCritical k1)
            (task_period s) (scheduler_enable s) counter).

(** [n] ticks in a row. *)
Fixpoint ticks (n : nat) (s : system) : option system :=
  match n with
  | O => Some s
  | S n' =>
    match SysTick_Handler s with
    | None => None
    | Some s' => ticks n' s'
    end
  end.

(** [n] calls of [EOS_HandleTimeout] in a row. *)
Fixpoint timeouts (n : nat) (k : kernel) : option kernel :=
  match n with
  | O => Some k
  | S n' =>
    match EOS_HandleTimeout k with
    | None => None
    | Some k' => timeouts n' k'
    end
  end.

(** ** Semaphores *)

(** The count of a semaphore stays between zero and its maximum. *)
Definition sem_inv (s : EOS_semaphore_t) : Prop :=
  0 ≤ sem_count s ≤ max_count s ∧ max_count s < 2 ^ 32.

Definition sem_ok (semaphore : Z) (k : kernel) : Prop :=
  ∃ s, sems k !! semaphore = Some s ∧ sem_inv s.

(** The environment keeps the ring and the semaphore in order. *)
Definition sem_env_ok (semaphore : Z) (w : world) : Prop :=
  Forall (λ e, ∀ k, ring_ok k → sem_ok semaphore k →
                    ring_ok (e k) ∧ sem_ok semaphore (e k)) w.

(** [n] calls of [EOS_SemaphoreAcquire] in a row, none of which has to
    wait. *)
Fixpoint acquire_n (n : nat) (semaphore : Z) (k : kernel) : option kernel :=
  match n with
  | O => Some k
  | S n' =>
    match EOS_SemaphoreAcquire [] semaphore k with
    | Returned EOS_OK k' => acquire_n n' semaphore k'
    | _ => None
    end
  end.

(** ** The items of a queue *)

(** The bytes of slot [j] of the buffer. *)
Definition queue_slot (q : EOS_queue_t) (j : Z) : list Z :=
  take (Z.to_nat (q_item_size q))
    (drop (Z.to_nat (j * q_item_size q)) (q_data q)).

(** The items the queue holds, oldest first: the [count] slots from
    [head] on, wrapping around at [size]. *)
Definition queue_items (q : EOS_queue_t) : list (list Z) :=
  (λ i : nat, queue_slot q ((q_head q + Z.of_nat i) mod q_size q))
    <$> seq 0 (Z.to_nat (q_count q)).

(** [tail] is the slot that follows the newest item. *)
Definition queue_coherent (q : EOS_queue_t) : Prop :=
  q_tail q = (q_head q + q_count q) mod q_size q.

(** The queue at [queue], of [sz] slots of [isz] bytes, holds [items]. *)
Definition queue_holds (queue sz isz : Z) (items : list (list Z))
    (k : kernel) : Prop :=
  ∃ q, queues k !! queue = Some q ∧ queue_inv q ∧ queue_shape sz isz q
       ∧ queue_coherent q ∧ queue_items q = items.

(** A producer that puts [items] one after the other without blocking,
    and a consumer that gets [n] items into the buffer [item]. *)
Fixpoint put_all (queue : Z) (items : list (list Z)) (k : kernel)
    : option kernel :=
  match items with
  | [] => Some k
  | item :: rest =>
    match EOS_QueuePut [] queue item EOS_NO_BLOCK k with
    | Returned EOS_OK k' => put_all queue rest k'
    | _ => None
    end
  end.

Fixpoint get_all (queue : Z) (n : nat) (item : list Z) (k : kernel)
    : option (list (list Z) * kernel) :=
  match n with
  | O => Some ([], k)
  | S n' =>
    match EOS_QueueGet [] queue item EOS_NO_BLOCK k with
    | Returned (EOS_OK, item') k' =>
      match get_all queue n' item' k' with
      | Some (items, k'') => Some (item' :: items, k'')
      | None => None
      end
    | _ => None
    end
  end.

(** * Task stacks and start-up *)

(** A stack is an array of [int32_t], here the list of its words; a
    constant or an address that does not fit in [int32_t] is stored
    modulo [2 ^ 32]. *)
Definition s32 (x : Z) : Z := (x + 2 ^ 31) mod 2 ^ 32 - 2 ^ 31.

(** [task_stack[i] = v]; writing outside of the array is undefined. *)
Definition store_word (i v : Z) (task_stack : list Z) : option (list Z) :=
  if (0 <=? i) && (i <? Z.of_nat (length task_stack))
  then Some (<[Z.to_nat i := s32 v]> task_stack)
  else None.

(** The indices are computed in [uint32_t]. *)
Definition EOS_InitStack (task_stack : list Z) (stack_size function : Z)
    : option (list Z) :=
  m ← store_word (u32 (stack_size - 1)) 0x01000000 task_stack;
  m ← store_word (u32 (stack_size - 2)) function m;
  m ← store_word (u32 (stack_size - 3)) 0xFFFFFFFD m;
  m ← store_word (u32 (stack_size - 4)) 0xDEADBEEA m;
  m ← store_word (u32 (stack_size - 5)) 0xDEADBEEB m;
  m ← store_word (u32 (stack_size - 6)) 0xDEADBEEC m;
  m ← store_word (u32 (stack_size - 7)) 0xDEADBEED m;
  m ← store_word (u32 (stack_size - 8)) 0xDEADBEEF m;
  m ← store_word (u32 (stack_size - 9)) 0xDEADBEEF m;
  m ← store_word (u32 (stack_size - 10)) 0xDEADBEAA m;
  m ← store_word (u32 (stack_size - 11)) 0xDEADBEDF m;
  m ← store_word (u32 (stack_size - 12)) 0xDEADBEBF m;
  m ← store_word (u32 (stack_size - 13)) 0xDEADBECF m;
  m ← store_word (u32 (stack_size - 14)) 0xDEADBECC m;
  m ← store_word (u32 (stack_size - 15)) 0xDEADBEDD m;
  m ← store_word (u32 (stack_size - 16)) 0xDEADBAAA m;
  store_word (u32 (stack_size - 17)) 0xFFFFFFFD m.

(** The loops [for (int i = from; i < bound; i++)
    task_stack[stack_size - i] = v] of [EOS_InitFpuStack]. *)
Fixpoint store_loop (fuel : nat) (stack_size i bound v : Z)
    (task_stack : list Z) : option (list Z) :=
  if bound <=? i then Some task_stack
  else match fuel with
       | O => None
       | S fuel' =>
         m ← store_word (u32 (stack_size - i)) v task_stack;
         store_loop fuel' stack_size (i + 1) bound v m
       end.

Definition EOS_InitFpuStack (task_stack : list Z) (stack_size function : Z)
    : option (list Z) :=
  m ← store_word (u32 (stack_size - 1)) 0xDEADBEEF task_stack;
  m ← store_word (u32 (stack_size - 2)) 0x00000000 m;
  m ← store_loop 16 stack_size 3 19 0x00000000 m;
  m ← store_word (u32 (stack_size - 19)) 0x01000000 m;
  m ← store_word (u32 (stack_size - 20)) function m;
  m ← store_word (u32 (stack_size - 21)) 0xFFFFFFED m;
  m ← store_word (u32 (stack_size - 22)) 0xDEADBEEA m;
  m ← store_word (u32 (stack_size - 23)) 0xDEADBEEB m;
  m ← store_word (u32 (stack_size - 24)) 0xDEADBEEC m;
  m ← store_word (u32 (stack_size - 25)) 0xDEADBEED m;
  m ← store_word (u32 (stack_size - 26)) 0xDEADBEEF m;
  m ← store_loop 16 stack_size 27 43 0x00000000 m;
  m ← store_loop 8 stack_size 43 51 0xDEADBEEF m;
  store_word (u32 (stack_size - 51)) 0xFFFFFFED m.

(** What [EOS_ThreadNew] does with the stack it uses (the one passed in
    or the one allocated): it seeds it and makes [sp] point at the word
    with this index. *)
Definition EOS_ThreadNew_stack (task_stack : list Z)
    (stack_size function : Z) (use_fpu : EOS_status_t)
    : option (list Z * Z) :=
  if decide (use_fpu = EOS_USE_FPU) then
    m ← EOS_InitFpuStack task_stack stack_size function;
    Some (m, u32 (stack_size - 51))
  else
    m ← EOS_InitStack task_stack stack_size function;
    Some (m, u32 (stack_size - 17)).

(** The words of the two frames, from the word [sp] points at upwards:
    the exception-return marker, r4 to r11 (with s16 to s31 above them in
    the second frame), then what exception return pops: r0 to r3, r12,
    lr, pc, xPSR (and s0 to s15, FPSCR and a reserved word). *)
Definition stack_frame (function : Z) : list Z :=
  s32 <$> [0xFFFFFFFD;
           0xDEADBAAA; 0xDEADBEDD; 0xDEADBECC; 0xDEADBECF;
           0xDEADBEBF; 0xDEADBEDF; 0xDEADBEAA; 0xDEADBEEF;
           0xDEADBEEF; 0xDEADBEED; 0xDEADBEEC; 0xDEADBEEB;
           0xDEADBEEA; 0xFFFFFFFD; function; 0x01000000].

Definition fpu_stack_frame (function : Z) : list Z :=
  s32 <$> ([0xFFFFFFED] ++ replicate 8 0xDEADBEEF ++ replicate 16 0
           ++ [0xDEADBEEF; 0xDEADBEED; 0xDEADBEEC; 0xDEADBEEB;
               0xDEADBEEA; 0xFFFFFFED; function; 0x01000000]
           ++ replicate 17 0 ++ [0xDEADBEEF]).

(** ** Starting the first task *)

(** The registers [EOS_Start] loads. *)
Record registers : Type := mkRegisters {
  reg_r0_r3 : list Z;
  reg_r4_r11 : list Z;
  reg_r12 : Z;
  reg_lr : Z;
  reg_sp : Z
}.

(** The word at address [addr] of the stack that starts at [base]. *)
Definition load_word (base : Z) (stack : list Z) (addr : Z) : option Z :=
  if (base <=? addr) && ((addr - base) mod 4 =? 0)
  then u32 <$> stack !! Z.to_nat ((addr - base) / 4)
  else None.

(** [POP] of [n] registers: the words at [sp], [sp + 4], ... *)
Fixpoint pop_words (n : nat) (base : Z) (stack : list Z) (sp : Z)
    : option (list Z * Z) :=
  match n with
  | O => Some ([], sp)
  | S n' =>
    v ← load_word base stack sp;
    '(vs, sp') ← pop_words n' base stack (u32 (sp + 4));
    Some (v :: vs, sp')
  end.

(** [EOS_Start], on the stack of the running task: it skips the marker,
    pops r4 to r11, r0 to r3 and r12, skips the saved lr, pops the saved
    pc into lr, skips xPSR, unmasks interrupts and branches to lr. *)
Definition EOS_Start (base : Z) (stack : list Z) (k : kernel)
    : option (registers * kernel) :=
  r ← tcbs k !! run_ptr k;
  '(r4_r11, sp1) ← pop_words 8 base stack (u32 (sp r + 4));
  '(r0_r3, sp2) ← pop_words 4 base stack sp1;
  r12 ← load_word base stack sp2;
  lr ← load_word base stack (u32 (u32 (sp2 + 4) + 4));
  Some (mkRegisters r0_r3 r4_r11 r12 lr
          (u32 (u32 (u32 (u32 (sp2 + 4) + 4) + 4) + 4)),
        EOS_ExitCritical k).

(** [EOS_Init]: [idle_stack] is the contents of the array of 32 words at
    address [idle_base], [idleTask] the address of the idle function.
    Selecting the process stack pointer changes nothing that is modelled.
    The result carries the registers the idle task starts with and the
    seeded stack. *)
Definition EOS_Init (user_task_period : Z) (idle_base : Z)
    (idle_stack : list Z) (idleTask : Z) (s : system)
    : option (registers * list Z * system) :=
  let k1 := EOS_EnterCritical (sys_kernel s) in
  stack ← EOS_InitStack idle_stack 32 idleTask;
  let period := if negb (user_task_period =? task_period s)
                then user_task_period else task_period s in
  '(regs, k2) ← EOS_Start idle_base stack k1;
  Some (regs, stack, mkSystem k2 period 1 (eos_tickCounter s)).

(** ** More concrete states *)

(** The queue of two slots after one byte has been put. *)
Definition demo_one_item : kernel :=
  default demo_two_slots (returned (put_byte 7 demo_two_slots)).

(** Another task puts the byte 9 while the caller is switched out. *)
Definition demo_producer (k : kernel) : kernel :=
  default k (returned (EOS_QueuePut [] 600 [9] EOS_NO_BLOCK k)).

(** The kernel before [EOS_Init], with the idle stack at address 5000,
    and an empty stack of [n] words. *)
Definition demo_boot : system :=
  mkSystem (kernel_init demo_idle (5000 + 4 * 15)) 1 0 0.

Definition demo_stack (n : nat) : list Z := replicate n 0.

(** Two tasks of medium priority, [2000] and [3000], and one of low
    priority; [3000] has been elected. *)
Definition demo_peer_calls : list thread_args :=
  [ mkArgs 2000 20000 7 PRIORITY_MEDIUM 0 128 EOS_NO_FPU;
    mkArgs 3000 30000 8 PRIORITY_MEDIUM 0 128 EOS_NO_FPU;
    mkArgs 4000 40000 9 PRIORITY_LOW 0 128 EOS_NO_FPU ].

Definition demo_peers : kernel :=
  default demo_init
    (run_script ((thread_new <$> demo_peer_calls) ++ [EOS_scheduler demo_idle])
       demo_init).

(** Task [3000] has filled the queue of two slots and blocks on a third
    put; a consumer takes the oldest byte while it is switched out. *)
Definition demo_full : kernel :=
  default demo_queue
    (run_script
       [ λ k, returned (EOS_QueuePut [] 600 [1] EOS_NO_BLOCK k);
         λ k, returned (EOS_QueuePut [] 600 [2] EOS_NO_BLOCK k) ]
       demo_queue).

Definition demo_full_suspended : kernel :=
  default demo_full (suspended (EOS_QueuePut [] 600 [3] EOS_BLOCK demo_full)).

Definition demo_consumer (k : kernel) : kernel :=
  default k (returned (EOS_QueueGet [] 600 [0] EOS_NO_BLOCK k)).

(** * Proofs *)

(** ** The ring *)

(** Membership in lists built with [::] and [++]. *)
Ltac list_in :=
  repeat (rewrite elem_of_app in * || rewrite elem_of_cons in *
          || rewrite elem_of_nil in *);
  intuition (subst; auto; try congruence).

Lemma seg_app h l1 l2 p q :
  seg h p (l1 ++ l2) q ↔ ∃ m, seg h p l1 m ∧ seg h m l2 q.
Proof.
  revert p. induction l1 as [|x l1 IH]; intros p; simpl.
  - split; [eauto | by intros (m & -> & ?)].
  - split.
    + intros (-> & t & Ht & Hs). apply IH in Hs as (m & ? & ?). eauto 10.
    + intros (m & (-> & t & Ht & Hs) & H2). split; [done|].
      exists t. split; [done|]. apply IH. eauto.
Qed.

Lemma seg_lookup h l p q x : seg h p l q → x ∈ l → is_Some (h !! x).
Proof.
  revert p. induction l as [|y l IH]; intros p; simpl.
  - intros _ Hx. by apply elem_of_nil in Hx.
  - intros (-> & t & Ht & Hs) [->|Hx]%elem_of_cons; eauto.
Qed.

Lemma seg_frame h h' l p q :
  (∀ x t, x ∈ l → h !! x = Some t →
     ∃ t', h' !! x = Some t' ∧ next t' = next t) →
  seg h p l q → seg h' p l q.
Proof.
  revert p. induction l as [|y l IH]; intros p Hf; simpl; [done|].
  intros (-> & t & Ht & Hs).
  destruct (Hf p t) as (t' & Ht' & Hn); [left | done |].
  split; [done|]. exists t'. split; [done|]. rewrite Hn.
  apply IH; [|done]. intros x u Hx. apply Hf. by right.
Qed.

Lemma seg_walk h l p q : seg h p l q → walk h (length l) p = Some q.
Proof.
  revert p. induction l as [|y l IH]; intros p; simpl.
  - by intros ->.
  - intros (-> & t & -> & Hs). by apply IH.
Qed.

Lemma seg_split h l p q x :
  seg h p l q → x ∈ l →
  ∃ l1 l2 t, l = l1 ++ x :: l2 ∧ seg h p l1 x ∧ h !! x = Some t
             ∧ seg h (next t) l2 q.
Proof.
  intros Hs (l1 & l2 & ->)%list_elem_of_split.
  apply seg_app in Hs as (m & H1 & H2). simpl in H2.
  destruct H2 as (-> & t & Ht & H2). eauto 10.
Qed.

Lemma ring_lookup h p l x : ring h p l → x ∈ p :: l → is_Some (h !! x).
Proof.
  intros (_ & _ & t & Ht & Hs) [->|Hx]%elem_of_cons; [eauto|].
  eapply seg_lookup; eauto.
Qed.

Lemma ring_length h p l : ring h p l → (S (length l) ≤ size h)%nat.
Proof.
  intros Hr. pose proof Hr as (Hnd & _).
  change (S (length l)) with (length (p :: l)).
  rewrite <- (size_dom (D := gset Z)).
  rewrite <- (size_list_to_set (C := gset Z) (p :: l)) by done.
  apply subseteq_size. intros x Hx. apply elem_of_list_to_set in Hx.
  apply elem_of_dom. eapply ring_lookup; eauto.
Qed.

Lemma ring_rotate h p l x :
  ring h p l → x ∈ l →
  ∃ l1 l2, l = l1 ++ x :: l2 ∧ ring h x (l2 ++ p :: l1).
Proof.
  intros (Hnd & Hnull & t & Ht & Hs) Hx.
  destruct (seg_split _ _ _ _ _ Hs Hx) as (l1 & l2 & tx & -> & H1 & Htx & H2).
  exists l1, l2. split; [done|]. split; [|split].
  - apply NoDup_cons in Hnd as [Hp Hnd].
    apply NoDup_app in Hnd as (N1 & N12 & N2).
    apply NoDup_cons in N2 as [Hx2 N2].
    apply NoDup_cons. split.
    + intros [?|[->|?]%elem_of_cons]%elem_of_app; [done| |].
      * apply Hp. list_in.
      * eapply N12; [done|]. by left.
    + apply NoDup_app. split; [done|]. split.
      * intros y Hy [->|Hy1]%elem_of_cons.
        -- apply Hp. list_in.
        -- eapply N12; [done|]. by right.
      * apply NoDup_cons. split; [|done]. intros ?. apply Hp. list_in.
  - intros Hin. apply Hnull. list_in.
  - exists tx. split; [done|]. apply seg_app. exists p. split; [done|].
    simpl. split; [done|]. exists t. split; [done|]. done.
Qed.

Lemma scheduler_loop_spec h stop l : ∀ (fuel : nat) cur best,
  seg h cur l stop → stop ∉ l → (length l ≤ fuel)%nat →
  is_Some (h !! best) →
  ∃ b, scheduler_loop fuel h stop cur best = Some b
       ∧ (b = best ∨ (b ∈ l ∧ runnable_at h b)).
Proof.
  induction l as [|x l IH]; intros fuel cur best Hs Hstop Hfuel [tb Hb].
  - simpl in Hs. subst cur. exists best. split; [|by left].
    destruct fuel; simpl; by rewrite Z.eqb_refl.
  - simpl in Hs. destruct Hs as (-> & t & Ht & Hs).
    destruct fuel as [|fuel]; [simpl in Hfuel; lia|].
    assert (cur ≠ stop) as Hne by (intros ->; apply Hstop; left).
    apply Z.eqb_neq in Hne.
    assert (stop ∉ l) as Hstop' by (intros ?; apply Hstop; by right).
    simpl in Hfuel. simpl. rewrite Hne, Ht.
    destruct ((blocked t =? 0) && (paused t =? 0)) eqn:Hrun.
    + rewrite Hb. destruct (priority tb <=? priority t).
      * destruct (IH fuel (next t) cur) as (b & -> & Hd);
          [done|done|lia|eauto|].
        exists b. split; [done|]. right.
        destruct Hd as [->|[Hin Hr]].
        -- split; [left|]. by exists t.
        -- split; [by right|done].
      * destruct (IH fuel (next t) best) as (b & -> & Hd);
          [done|done|lia|eauto|].
        exists b. split; [done|]. destruct Hd as [->|[Hin Hr]]; [by left|].
        right. split; [by right|done].
    + destruct (IH fuel (next t) best) as (b & -> & Hd); [done|done|lia|eauto|].
      exists b. split; [done|]. destruct Hd as [->|[Hin Hr]]; [by left|].
      right. split; [by right|done].
Qed.

(** ** Timeout handling *)

Lemma timeout_visit_next c : next (timeout_visit c) = next c.
Proof.
  unfold timeout_visit.
  repeat (match goal with |- context [if ?b then _ else _] => destruct b end);
    reflexivity.
Qed.

Lemma timeout_visit_decrement c :
  blocked c = EOS_TIMED_OUT → paused c = 0 → 0 < timeOut c < 2 ^ 32 →
  timeout_visit c =
    mkTCB (sp c) (if decide (timeOut c = 1) then 0 else EOS_TIMED_OUT)
      (next c) (timeOut c - 1) (priority c) (paused c).
Proof.
  intros Hb Hp Ht. unfold timeout_visit. rewrite Hb, Hp. simpl.
  destruct (0 <? timeOut c) eqn:Hpos; [|apply Z.ltb_ge in Hpos; lia].
  assert (u32 (timeOut c - 1) = timeOut c - 1) as Hu.
  { unfold u32. apply Z.mod_small. lia. }
  simpl. rewrite Hu. case_decide as H1.
  - rewrite H1. simpl. unfold set_blocked, set_timeOut. simpl.
    by rewrite Hp.
  - destruct (timeOut c - 1 =? 0) eqn:Hz; [apply Z.eqb_eq in Hz; lia|].
    unfold set_timeOut. simpl. by rewrite Hb, Hp.
Qed.

Lemma timeout_visit_skip c :
  blocked c ≠ EOS_TIMED_OUT ∨ paused c ≠ 0 ∨ timeOut c = 0 →
  timeout_visit c = c.
Proof.
  intros H. unfold timeout_visit.
  destruct (blocked c =? EOS_TIMED_OUT) eqn:Hb; [|done].
  destruct (paused c =? 0) eqn:Hp; [|done]. simpl.
  apply Z.eqb_eq in Hb, Hp.
  destruct H as [?|[?|Hz]]; [done|done|]. by rewrite Hz.
Qed.

Lemma timeout_loop_spec stop l : ∀ (fuel : nat) h cur,
  seg h cur l stop → stop ∉ l → NoDup l → (length l ≤ fuel)%nat →
  ∃ h', timeout_loop fuel h stop cur = Some h'
        ∧ ∀ x, h' !! x = if decide (x ∈ l) then timeout_visit <$> h !! x
                         else h !! x.
Proof.
  induction l as [|y l IH]; intros fuel h cur Hs Hstop Hnd Hfuel.
  - simpl in Hs. subst cur. exists h. split.
    + destruct fuel; simpl; by rewrite Z.eqb_refl.
    + intros x. case_decide as Hx; [by apply elem_of_nil in Hx|done].
  - simpl in Hs. destruct Hs as (-> & t & Ht & Hs).
    destruct fuel as [|fuel]; [simpl in Hfuel; lia|].
    assert (cur ≠ stop) as Hne by (intros ->; apply Hstop; left).
    apply Z.eqb_neq in Hne.
    apply NoDup_cons in Hnd as [Hcur Hnd].
    simpl in Hfuel. simpl. rewrite Hne, Ht.
    destruct (IH fuel (<[cur := timeout_visit t]> h) (next t))
      as (h' & -> & Hh').
    + eapply seg_frame; [|done]. intros x u Hx Hu.
      exists u. split; [|done]. rewrite lookup_insert_ne; [done|].
      by intros ->.
    + intros ?. apply Hstop. by right.
    + done.
    + lia.
    + exists h'. split; [done|]. intros x. rewrite Hh'.
      destruct (decide (x = cur)) as [->|Hxc].
      * rewrite decide_False by done. rewrite decide_True by left.
        rewrite lookup_insert_eq. by rewrite Ht.
      * rewrite lookup_insert_ne by done.
        destruct (decide (x ∈ l)) as [Hin|Hnin].
        -- rewrite decide_True by (by right). done.
        -- rewrite decide_False; [done|]. by intros [?|?]%elem_of_cons.
Qed.

(** C6: one call of [EOS_HandleTimeout] on a ring visits every TCB but the
    running one.  A visited TCB that is timed out, not paused and has a
    positive timeout gets its timeout decremented by one, and its
    [blocked] field cleared exactly when the timeout reaches zero; every
    other TCB (paused, not timed out, timeout zero, the running one, and
    anything outside the ring) is left as it was, as is the rest of the
    kernel state. *)
Theorem EOS_HandleTimeout_spec k l :
  ring (tcbs k) (run_ptr k) l →
  ∃ h', EOS_HandleTimeout k = Some (set_tcbs h' k)
    ∧ (∀ x, x ∉ l → h' !! x = tcbs k !! x)
    ∧ (∀ x t, x ∈ l → tcbs k !! x = Some t →
         blocked t = EOS_TIMED_OUT → paused t = 0 →
         0 < timeOut t < 2 ^ 32 →
         h' !! x = Some (mkTCB (sp t)
                           (if decide (timeOut t = 1) then 0 else EOS_TIMED_OUT)
                           (next t) (timeOut t - 1) (priority t) (paused t)))
    ∧ (∀ x t, x ∈ l → tcbs k !! x = Some t →
         blocked t ≠ EOS_TIMED_OUT ∨ paused t ≠ 0 ∨ timeOut t = 0 →
         h' !! x = Some t).
Proof.
  intros Hr. pose proof (ring_length _ _ _ Hr) as Hlen.
  destruct Hr as (Hnd & _ & r & Hrun & Hs).
  apply NoDup_cons in Hnd as [Hp Hnd].
  destruct (timeout_loop_spec (run_ptr k) l (size (tcbs k)) (tcbs k) (next r))
    as (h' & Hloop & Hh'); [done|done|done|lia|].
  exists h'. unfold EOS_HandleTimeout. rewrite Hrun, Hloop.
  split; [done|]. split; [|split].
  - intros x Hx. rewrite Hh'. by rewrite decide_False.
  - intros x t Hx Ht Hb Hpa Hto. rewrite Hh', decide_True, Ht by done.
    simpl. f_equal. by apply timeout_visit_decrement.
  - intros x t Hx Ht Hcase. rewrite Hh', decide_True, Ht by done.
    simpl. f_equal. by apply timeout_visit_skip.
Qed.

(** ** Unblocking the best waiter *)

Lemma found_snoc_skip h item l b x t :
  h !! x = Some t → blocked t ≠ item →
  found h item l b → found h item (l ++ [x]) b.
Proof.
  intros Ht Hb [[-> Hno]|(l1 & l2 & tb & -> & Htb & Hbb & H1 & H2)].
  - left. split; [done|]. intros y [Hy|Hy]%elem_of_app; [by apply Hno|].
    apply list_elem_of_singleton in Hy as ->. intros (t' & Ht' & ?). congruence.
  - right. exists l1, (l2 ++ [x]), tb. rewrite <- app_assoc. simpl.
    split; [done|]. split; [done|]. split; [done|]. split; [done|].
    intros y u [Hy|Hy]%elem_of_app Hu Hbu; [eauto|].
    apply list_elem_of_singleton in Hy as ->. congruence.
Qed.

Lemma found_snoc_first h item l x t :
  h !! x = Some t → blocked t = item →
  found h item l NULL → NULL ∉ l → found h item (l ++ [x]) x.
Proof.
  intros Ht Hb [[_ Hno]|(l1 & l2 & tb & -> & _)] Hnull.
  - right. exists l, [], t. split; [done|]. split; [done|]. split; [done|].
    split.
    + intros y u Hy Hu Hbu. exfalso. eapply Hno; [done|]. by exists u.
    + intros y u Hy. by apply elem_of_nil in Hy.
  - exfalso. apply Hnull. list_in.
Qed.

Lemma found_snoc_better h item l b tb x t :
  h !! x = Some t → blocked t = item → h !! b = Some tb → b ≠ NULL →
  NoDup l →
  found h item l b →
  found h item (l ++ [x]) (if priority tb <? priority t then x else b).
Proof.
  intros Ht Hb Htb Hnn Hnd [[-> _]|(l1 & l2 & tb' & -> & Htb' & Hbb & H1 & H2)];
    [done|].
  rewrite Htb in Htb'. injection Htb' as <-.
  right. destruct (priority tb <? priority t) eqn:Hlt.
  - apply Z.ltb_lt in Hlt.
    exists (l1 ++ b :: l2), [], t. split; [done|]. split; [done|].
    split; [done|]. split.
    + intros y u [Hy|[->|Hy]%elem_of_cons]%elem_of_app Hu Hbu.
      * specialize (H1 _ _ Hy Hu Hbu). lia.
      * rewrite Htb in Hu. injection Hu as <-. done.
      * specialize (H2 _ _ Hy Hu Hbu). lia.
    + intros y u Hy. by apply elem_of_nil in Hy.
  - apply Z.ltb_ge in Hlt.
    exists l1, (l2 ++ [x]), tb. rewrite <- app_assoc. simpl.
    split; [done|]. split; [done|]. split; [done|]. split; [done|].
    intros y u [Hy|Hy]%elem_of_app Hu Hbu; [eauto|].
    apply list_elem_of_singleton in Hy as ->.
    rewrite Ht in Hu. by injection Hu as <-.
Qed.

Lemma found_lookup h item l b :
  found h item l b → b = NULL ∨ (b ∈ l ∧ is_Some (h !! b)).
Proof.
  intros [[-> _]|(l1 & l2 & tb & -> & Htb & _)]; [by left|].
  right. split; [list_in|eauto].
Qed.

(** The loop visits [x :: v] and stops when it is back at [start]. *)
Lemma unblock_loop_spec h start item v : ∀ (fuel : nat) pre x best,
  seg h x (x :: v) start → start ∉ v → (length v < fuel)%nat →
  NoDup (pre ++ x :: v) → NULL ∉ pre ++ x :: v →
  found h item pre best →
  ∃ b, unblock_loop fuel h start item x best = Some b
       ∧ found h item (pre ++ x :: v) b.
Proof.
  induction v as [|y v IH]; intros fuel pre x best Hs Hstart Hfuel Hnd Hnull Hf.
  - destruct fuel as [|fuel]; [simpl in Hfuel; lia|].
    simpl in Hs. destruct Hs as (_ & t & Ht & Hnext).
    simpl. rewrite Ht, Hnext, Z.eqb_refl.
    destruct (blocked t =? item) eqn:Hb.
    + apply Z.eqb_eq in Hb. destruct (best =? NULL) eqn:Hbn.
      * apply Z.eqb_eq in Hbn. subst best. eexists. split; [done|].
        eapply found_snoc_first; eauto. intros ?. apply Hnull. list_in.
      * apply Z.eqb_neq in Hbn.
        destruct (found_lookup _ _ _ _ Hf) as [?|[_ [tb Htb]]]; [done|].
        rewrite Htb. eexists. split; [done|].
        eapply found_snoc_better; eauto.
        by apply NoDup_app in Hnd as (? & _).
    + apply Z.eqb_neq in Hb. eexists. split; [done|].
      eapply found_snoc_skip; eauto.
  - destruct fuel as [|fuel]; [simpl in Hfuel; lia|].
    simpl in Hs. destruct Hs as (_ & t & Ht & Hy & Hs).
    assert (next t ≠ start) as Hne.
    { rewrite <- Hy. intros ->. apply Hstart. left. }
    apply Z.eqb_neq in Hne.
    assert (seg h (next t) (next t :: v) start) as Hs'.
    { simpl. split; [done|]. exact Hs. }
    assert (start ∉ v) as Hstart' by (intros ?; apply Hstart; by right).
    assert (NoDup ((pre ++ [x]) ++ next t :: v)) as Hnd'.
    { rewrite <- app_assoc. simpl. by rewrite <- Hy. }
    assert (NULL ∉ (pre ++ [x]) ++ next t :: v) as Hnull'.
    { rewrite <- app_assoc. simpl. by rewrite <- Hy. }
    simpl in Hfuel. simpl. rewrite Ht, Hne.
    assert (∀ b', found h item (pre ++ [x]) b' →
              ∃ b, unblock_loop fuel h start item (next t) b' = Some b
                   ∧ found h item (pre ++ x :: y :: v) b) as Hnext.
    { intros b' Hb'.
      destruct (IH fuel (pre ++ [x]) (next t) b') as (b & Hl & Hfb);
        [done|done|lia|done|done|done|].
      exists b. split; [done|]. rewrite <- app_assoc in Hfb. simpl in Hfb.
      by rewrite <- Hy in Hfb. }
    destruct (blocked t =? item) eqn:Hb.
    + apply Z.eqb_eq in Hb. destruct (best =? NULL) eqn:Hbn.
      * apply Z.eqb_eq in Hbn. subst best. apply Hnext.
        eapply found_snoc_first; eauto. intros ?. apply Hnull. list_in.
      * apply Z.eqb_neq in Hbn.
        destruct (found_lookup _ _ _ _ Hf) as [?|[_ [tb Htb]]]; [done|].
        rewrite Htb. apply Hnext.
        eapply found_snoc_better; eauto.
        by apply NoDup_app in Hnd as (? & _).
    + apply Z.eqb_neq in Hb. apply Hnext.
      eapply found_snoc_skip; eauto.
Qed.

(** C4 (amended): on every ring in which the running TCB is not the only
    TCB, or is not itself tagged with the token, [EOS_TaskUnblock] clears
    [blocked] of exactly the first highest-priority waiter among the TCBs
    other than the running one, leaves every other TCB as it was, requests
    a context switch if and only if the waiter's priority is strictly
    above the running task's, and changes nothing when there is no
    waiter. *)
Theorem EOS_TaskUnblock_spec k l item r :
  ring (tcbs k) (run_ptr k) l →
  tcbs k !! run_ptr k = Some r →
  l ≠ [] ∨ blocked r ≠ item →
  unblocks_best_waiter k l item r.
Proof.
  intros Hr Hrun Hcase. pose proof (ring_length _ _ _ Hr) as Hlen.
  destruct Hr as (Hnd & Hnull & r' & Hrun' & Hs).
  rewrite Hrun in Hrun'. injection Hrun' as <-.
  apply NoDup_cons in Hnd as [Hp Hnd].
  assert (NULL ∉ l) as Hnl by (intros ?; apply Hnull; by right).
  assert (run_ptr k ≠ NULL) as Hrn
    by (intros E; apply Hnull; rewrite E; left).
  unfold unblocks_best_waiter, EOS_TaskUnblock. rewrite Hrun.
  destruct l as [|y v].
  - destruct Hcase as [?|Hb]; [done|]. simpl in Hs.
    destruct (unblock_loop_spec (tcbs k) (run_ptr k) item [] (size (tcbs k))
                [] (run_ptr k) NULL) as (b & Hloop & Hf).
    + simpl. eauto.
    + by intros ?%elem_of_nil.
    + simpl in *. lia.
    + simpl. apply NoDup_singleton.
    + simpl. intros E%list_elem_of_singleton. by apply Hrn.
    + left. split; [done|]. by intros x ?%elem_of_nil.
    + rewrite Hs, Hloop. left. split; [by intros x ?%elem_of_nil|].
      destruct Hf as [[-> _]|(l1 & l2 & tb & Heq & Htb & Hbb & _)]; [done|].
      exfalso. destruct l1 as [|? [|? ?]]; simpl in Heq; try discriminate.
      injection Heq as <- _. rewrite Hrun in Htb. injection Htb as <-. done.
  - pose proof Hs as (Hy & _). simpl in Hs. simpl in Hlen.
    destruct (unblock_loop_spec (tcbs k) (run_ptr k) item v (size (tcbs k))
                [] (next r) NULL) as (b & Hloop & Hf).
    + simpl. split; [done|]. exact (proj2 Hs).
    + intros ?. apply Hp. by right.
    + lia.
    + simpl. by rewrite <- Hy.
    + simpl. by rewrite <- Hy.
    + left. split; [done|]. by intros x ?%elem_of_nil.
    + rewrite Hloop. simpl in Hf. rewrite <- Hy in Hf.
      destruct Hf as [[-> Hno]|Hfb].
      * left. done.
      * right. pose proof Hfb as (l1 & l2 & tb & Heq & Htb & _).
        assert (b ∈ y :: v) as Hin by (rewrite Heq; list_in).
        assert (b ≠ NULL) as Hbn by (intros E; apply Hnl; by rewrite <- E).
        assert (b ≠ run_ptr k) as Hbr
          by (intros E; apply Hp; by rewrite <- E).
        apply Z.eqb_neq in Hbn. rewrite Hbn, Htb. simpl.
        rewrite lookup_insert_ne, Hrun by done.
        exists b, tb. split; [done|]. split; [done|].
        destruct (priority r <? priority tb) eqn:Hlt.
        -- apply Z.ltb_lt in Hlt. by rewrite decide_True.
        -- apply Z.ltb_ge in Hlt. rewrite decide_False; [done|lia].
Qed.

(** Updating fields other than [next] keeps the ring. *)
Lemma ring_update h p l x t t' :
  h !! x = Some t → next t' = next t → ring h p l →
  ring (<[x := t']> h) p l.
Proof.
  intros Hx Hn (Hnd & Hnull & r & Hr & Hs).
  split; [done|]. split; [done|].
  assert (∀ y u, h !! y = Some u →
            ∃ u', <[x := t']> h !! y = Some u' ∧ next u' = next u) as Hf.
  { intros y u Hu. destruct (decide (y = x)) as [->|Hne].
    - rewrite lookup_insert_eq. exists t'. split; [done|]. congruence.
    - rewrite lookup_insert_ne by done. eauto. }
  destruct (Hf _ _ Hr) as (r' & Hr' & Hnr). exists r'. split; [done|].
  rewrite Hnr. eapply seg_frame; [|done]. intros y u _. apply Hf.
Qed.

(** [EOS_TaskUnblock] touches nothing but one [blocked] field and the
    interrupt controller. *)
Lemma EOS_TaskUnblock_frame item k k' :
  EOS_TaskUnblock item k = Some k' →
  sems k' = sems k ∧ queues k' = queues k ∧ run_ptr k' = run_ptr k
  ∧ (tcbs k' = tcbs k
     ∨ ∃ b tb, tcbs k !! b = Some tb
               ∧ tcbs k' = <[b := set_blocked 0 tb]> (tcbs k)).
Proof.
  unfold EOS_TaskUnblock. intros H.
  destruct (tcbs k !! run_ptr k) as [r|]; [|done].
  destruct (unblock_loop _ _ _ _ _ _) as [b|]; [|done].
  destruct (b =? NULL); [injection H as <-; eauto|].
  destruct (tcbs k !! b) as [tb|] eqn:Hb; [|done]. simpl in H.
  destruct (<[b:=set_blocked 0 tb]> (tcbs k) !! run_ptr k) as [r1|]; [|done].
  destruct (priority r1 <? priority tb); injection H as <-; simpl; eauto 10.
Qed.

Lemma EOS_TaskUnblock_total item k l :
  ring (tcbs k) (run_ptr k) l → is_Some (EOS_TaskUnblock item k).
Proof.
  intros Hr. pose proof (ring_length _ _ _ Hr) as Hlen.
  pose proof Hr as (Hnd & Hnull & r & Hrun & Hs).
  apply NoDup_cons in Hnd as [Hp Hnd].
  assert (∃ v, seg (tcbs k) (next r) (next r :: v) (run_ptr k)
               ∧ (run_ptr k ∉ v) ∧ (length v < size (tcbs k))%nat
               ∧ NoDup (next r :: v) ∧ (NULL ∉ next r :: v)) as (v & Hv).
  { destruct l as [|y v].
    - simpl in Hs. exists []. rewrite Hs. simpl. split; [eauto|].
      split; [by intros ?%elem_of_nil|]. split; [simpl in Hlen; lia|].
      split; [apply NoDup_singleton|]. intros E. apply Hnull.
      apply list_elem_of_singleton in E. rewrite E. left.
    - pose proof Hs as (Hy & _). subst y. exists v.
      split; [done|].
      split; [intros ?; apply Hp; by right|].
      split; [simpl in Hlen; lia|]. split; [done|].
      intros ?. apply Hnull. by right. }
  destruct Hv as (Hsv & Hrv & Hlv & Hndv & Hnv).
  destruct (unblock_loop_spec (tcbs k) (run_ptr k) item v (size (tcbs k))
              [] (next r) NULL) as (b & Hloop & Hf); [done..| |].
  { left. split; [done|]. by intros x ?%elem_of_nil. }
  unfold EOS_TaskUnblock. rewrite Hrun, Hloop.
  destruct (b =? NULL) eqn:Hbn; [eauto|]. apply Z.eqb_neq in Hbn.
  destruct (found_lookup _ _ _ _ Hf) as [?|[_ [tb Htb]]]; [done|].
  rewrite Htb. simpl.
  destruct (ring_lookup _ _ _ (run_ptr k)
              (ring_update _ _ _ _ _ (set_blocked 0 tb) Htb eq_refl Hr))
    as [r1 ->]; [left|].
  destruct (priority r1 <? priority tb); eauto.
Qed.

(** ** Semaphores *)

(** C5: on a semaphore whose count does not exceed its maximum,
    [EOS_SemaphoreRelease] returns [EOS_ERROR] exactly when the count is at
    the maximum, and then changes neither the semaphores nor any TCB;
    otherwise it adds one to the count and returns [EOS_OK]. *)
Theorem EOS_SemaphoreRelease_spec k l semaphore s :
  ring (tcbs k) (run_ptr k) l →
  sems k !! semaphore = Some s →
  0 ≤ sem_count s ≤ max_count s → max_count s < 2 ^ 32 →
  ∃ st k', EOS_SemaphoreRelease semaphore k = Some (st, k')
    ∧ (st = EOS_ERROR ↔ sem_count s = max_count s)
    ∧ (sem_count s = max_count s → sems k' = sems k ∧ tcbs k' = tcbs k)
    ∧ (sem_count s ≠ max_count s →
         st = EOS_OK
         ∧ sems k'
           = <[semaphore := mkSem (sem_count s + 1) (max_count s)]> (sems k)).
Proof.
  intros Hr Hs Hc Hm. unfold EOS_SemaphoreRelease. simpl. rewrite Hs.
  destruct (max_count s <=? sem_count s) eqn:Hfull.
  - apply Z.leb_le in Hfull. assert (sem_count s = max_count s) by lia.
    eexists _, _. split; [done|]. simpl. split; [done|]. split; [done|]. done.
  - apply Z.leb_gt in Hfull.
    set (k2 := set_sems _ _).
    destruct (EOS_TaskUnblock_total semaphore k2 l) as [k3 Hk3]; [done|].
    rewrite Hk3. eexists _, _. split; [done|].
    apply EOS_TaskUnblock_frame in Hk3 as (Hsems & _).
    split; [split; [done|lia]|]. split; [lia|]. intros _. split; [done|].
    simpl. rewrite Hsems. unfold k2. simpl. unfold set_sem_count, u32.
    rewrite Z.mod_small by lia. done.
Qed.

Lemma sem_acquire_loop_dead semaphore w : ∀ k,
  dead_semaphore semaphore k →
  Forall (λ e, ∀ k0, dead_semaphore semaphore k0 →
                     dead_semaphore semaphore (e k0)) w →
  ∀ st k', sem_acquire_loop w semaphore k ≠ Returned st k'.
Proof.
  induction w as [|e w IH]; intros k Hd Hw st k'; simpl;
    rewrite Hd; simpl; destruct (tcbs k !! run_ptr k); try done.
  apply Forall_cons in Hw as [He Hw]. apply IH; [|done].
  unfold dead_semaphore. simpl. by apply He.
Qed.

(** C9: [EOS_SemaphoreNew] accepts a count of zero; the semaphore it
    returns has [count = max_count = 0].  On such a semaphore every call
    of [EOS_SemaphoreRelease] returns [EOS_ERROR] and changes nothing but
    the interrupt mask, so the semaphore stays as it is, and no call of
    [EOS_SemaphoreAcquire] ever returns, whatever else happens in between
    as long as it leaves the semaphore alone. *)
Theorem EOS_SemaphoreNew_zero semaphore k :
  semaphore ≠ NULL →
  (∃ k1, EOS_SemaphoreNew semaphore 0 k = (semaphore, k1)
         ∧ dead_semaphore semaphore k1)
  ∧ (∀ k1, dead_semaphore semaphore k1 →
       EOS_SemaphoreRelease semaphore k1
         = Some (EOS_ERROR, set_primask false k1)
       ∧ dead_semaphore semaphore (set_primask false k1))
  ∧ (∀ k1 w st k2, dead_semaphore semaphore k1 →
       Forall (λ e, ∀ k0, dead_semaphore semaphore k0 →
                          dead_semaphore semaphore (e k0)) w →
       EOS_SemaphoreAcquire w semaphore k1 ≠ Returned st k2).
Proof.
  intros Hn. split; [|split].
  - unfold EOS_SemaphoreNew. apply Z.eqb_neq in Hn. rewrite Hn.
    eexists. split; [done|]. unfold dead_semaphore. simpl.
    by rewrite lookup_insert_eq.
  - intros k1 Hd. unfold EOS_SemaphoreRelease. simpl.
    unfold dead_semaphore in Hd. rewrite Hd. simpl. done.
  - intros k1 w st k2 Hd Hw. unfold EOS_SemaphoreAcquire.
    by apply sem_acquire_loop_dead.
Qed.

(** ** The critical section on the error paths of pause and resume *)

(** C2: [EOS_Pause] and [EOS_Resume] on a [NULL] handle return [EOS_ERROR]
    with interrupts masked, whatever the mask was when they were called:
    the error path masks interrupts and never unmasks them. *)
Theorem EOS_Pause_Resume_NULL_stay_masked k :
  EOS_Pause NULL k = Some (EOS_ERROR, set_primask true k)
  ∧ EOS_Resume NULL k = Some (EOS_ERROR, set_primask true k).
Proof. split; reflexivity. Qed.

(** The same on the other error path: pausing a paused task, resuming a
    task that is not paused. *)
Lemma EOS_Pause_paused_stays_masked k task t :
  task ≠ NULL → tcbs k !! task = Some t → paused t ≠ 0 →
  EOS_Pause task k = Some (EOS_ERROR, set_primask true k).
Proof.
  intros Hn Ht Hp. unfold EOS_Pause. simpl.
  apply Z.eqb_neq in Hn, Hp. by rewrite Hn, Ht, Hp.
Qed.

Lemma EOS_Resume_unpaused_stays_masked k task t :
  task ≠ NULL → tcbs k !! task = Some t → paused t ≠ EOS_PAUSED →
  EOS_Resume task k = Some (EOS_ERROR, set_primask true k).
Proof.
  intros Hn Ht Hp. unfold EOS_Resume. simpl.
  apply Z.eqb_neq in Hn, Hp. by rewrite Hn, Ht, Hp.
Qed.

(** The paths that succeed, and the error path of
    [EOS_SemaphoreRelease], do unmask. *)
Lemma EOS_Pause_ok_unmasked k task st k' :
  EOS_Pause task k = Some (st, k') → st = EOS_OK → primask k' = false.
Proof.
  unfold EOS_Pause. simpl. intros H ->.
  destruct (task =? NULL); [done|].
  destruct (tcbs k !! task) as [t|]; [|done].
  destruct (negb (paused t =? 0)); [done|].
  destruct (task =? run_ptr k); by injection H as <-.
Qed.

Lemma EOS_Resume_ok_unmasked k task st k' :
  EOS_Resume task k = Some (st, k') → st = EOS_OK → primask k' = false.
Proof.
  unfold EOS_Resume. simpl. intros H ->.
  destruct (task =? NULL); [done|].
  destruct (tcbs k !! task) as [t|]; [|done].
  destruct (negb (paused t =? EOS_PAUSED)); [done|].
  by injection H as <-.
Qed.

Lemma EOS_TaskUnblock_primask item k k' :
  EOS_TaskUnblock item k = Some k' →
  primask k' = primask k ∨ primask k' = false.
Proof.
  unfold EOS_TaskUnblock. intros H.
  destruct (tcbs k !! run_ptr k) as [r|]; [|done].
  destruct (unblock_loop _ _ _ _ _ _) as [b|]; [|done].
  destruct (b =? NULL); [injection H as <-; eauto|].
  destruct (tcbs k !! b) as [tb|] eqn:Hb; [|done]. simpl in H.
  destruct (<[b:=set_blocked 0 tb]> (tcbs k) !! run_ptr k) as [r1|]; [|done].
  destruct (priority r1 <? priority tb); injection H as <-; simpl; eauto.
Qed.

Lemma EOS_SemaphoreRelease_unmasked k semaphore st k' :
  EOS_SemaphoreRelease semaphore k = Some (st, k') → primask k' = false.
Proof.
  unfold EOS_SemaphoreRelease. simpl. intros H.
  destruct (sems k !! semaphore) as [s|]; [|done].
  destruct (max_count s <=? sem_count s); [by injection H as <- <-|].
  destruct (EOS_TaskUnblock _ _) as [k3|]; [|done]. by injection H as <- <-.
Qed.

(** ** The wait loops of the queue and of the semaphore *)

(** Whenever [EOS_SemaphoreAcquire] is suspended, the caller is tagged
    with the semaphore: the tag is written on every iteration. *)
Lemma sem_acquire_loop_tagged semaphore w : ∀ k k',
  sem_acquire_loop w semaphore k = Suspended k' →
  ∃ r, tcbs k' !! run_ptr k' = Some r ∧ blocked r = semaphore.
Proof.
  induction w as [|e w IH]; intros k k'; simpl;
    destruct (sems k !! semaphore) as [s|]; try done;
    destruct (0 <? sem_count s); try done;
    destruct (tcbs k !! run_ptr k) as [r|]; try done.
  - intros [= <-]. simpl. rewrite lookup_insert_eq. eauto.
  - apply IH.
Qed.

(** C3: the retry loop of [EOS_QueueGet] does not write the tag again.
    When the caller, suspended on an empty queue, is woken empty-handed,
    it suspends a second time with [blocked] equal to [NULL], that is, as
    a runnable task; [EOS_SemaphoreAcquire] in the same situation suspends
    tagged with its semaphore. *)
Theorem EOS_QueueGet_retry_not_retagged k queue item e k1 :
  EOS_QueueGet [] queue item EOS_BLOCK k = Suspended k1 →
  wakes_empty_handed queue e k1 →
  (∃ k2 r, EOS_QueueGet [e] queue item EOS_BLOCK k = Suspended k2
           ∧ tcbs k2 !! run_ptr k2 = Some r ∧ blocked r = NULL)
  ∧ (∀ semaphore k2,
       EOS_SemaphoreAcquire [e] semaphore k = Suspended k2 →
       ∃ r, tcbs k2 !! run_ptr k2 = Some r ∧ blocked r = semaphore).
Proof.
  intros H1 ((q' & Hq' & Hc') & (r' & Hr' & Hb')). split.
  - revert H1. unfold EOS_QueueGet. simpl.
    destruct (queues k !! queue) as [q|]; [|done].
    destruct (q_count q =? 0).
    + destruct (tcbs k !! run_ptr k) as [r|]; [|done].
      intros [= <-]. simpl. rewrite Hq', Hc'. simpl.
      eexists _, r'. split; [done|]. simpl. split; done.
    + unfold queue_get_commit. simpl.
      destruct (queues k !! queue) as [q0|]; [|done].
      repeat (match goal with
              | |- context [match ?x with _ => _ end] => destruct x
              end; try done).
  - intros semaphore k2. unfold EOS_SemaphoreAcquire.
    apply sem_acquire_loop_tagged.
Qed.

(** The producer's side: [EOS_QueuePut] woken on a queue that is still
    full suspends again untagged. *)
Lemma EOS_QueuePut_retry_not_retagged k queue item e k1 :
  EOS_QueuePut [] queue item EOS_BLOCK k = Suspended k1 →
  wakes_still_full queue e k1 →
  ∃ k2 r, EOS_QueuePut [e] queue item EOS_BLOCK k = Suspended k2
          ∧ tcbs k2 !! run_ptr k2 = Some r ∧ blocked r = NULL.
Proof.
  intros H1 ((q' & Hq' & Hc') & (r' & Hr' & Hb')).
  revert H1. unfold EOS_QueuePut. simpl.
  destruct (queues k !! queue) as [q|]; [|done].
  destruct (q_count q =? q_size q).
  - destruct (tcbs k !! run_ptr k) as [r|]; [|done].
    intros [= <-]. simpl. rewrite Hq', Hc', Z.eqb_refl.
    eexists _, r'. split; [done|]. simpl. split; done.
  - unfold queue_put_commit. simpl.
    destruct (queues k !! queue) as [q0|]; [|done].
    repeat (match goal with
            | |- context [match ?x with _ => _ end] => destruct x
            end; try done).
Qed.

(** Whenever a call of [EOS_QueueGet] or [EOS_QueuePut] returns, it
    returns with interrupts unmasked. *)
Lemma queue_get_commit_unmasked queue item k r k' :
  queue_get_commit queue item k = Returned r k' → primask k' = false.
Proof.
  unfold queue_get_commit. intros H.
  repeat (match type of H with
          | match ?x with _ => _ end = _ => destruct x
          | (if ?b then _ else _) = _ => destruct b
          end; try done).
  by injection H as _ <-.
Qed.

Lemma queue_put_commit_unmasked queue item k r k' :
  queue_put_commit queue item k = Returned r k' → primask k' = false.
Proof.
  unfold queue_put_commit. intros H.
  repeat (match type of H with
          | match ?x with _ => _ end = _ => destruct x
          | (if ?b then _ else _) = _ => destruct b
          end; try done).
  by injection H as _ <-.
Qed.

Lemma EOS_QueueGet_unmasked w queue item block k r k' :
  EOS_QueueGet w queue item block k = Returned r k' → primask k' = false.
Proof.
  unfold EOS_QueueGet. simpl. intros H.
  destruct (queues k !! queue) as [q|]; [|done].
  destruct (q_count q =? 0); [|by eapply queue_get_commit_unmasked].
  destruct block; simpl in H; [|by injection H as _ <-].
  destruct (tcbs k !! run_ptr k) as [t|]; [|done].
  destruct w as [|e w]; [done|].
  destruct (queue_get_wait w queue _) as [[] k4|k4|]; [|done|done].
  by eapply queue_get_commit_unmasked.
Qed.

Lemma EOS_QueuePut_unmasked w queue item block k r k' :
  EOS_QueuePut w queue item block k = Returned r k' → primask k' = false.
Proof.
  unfold EOS_QueuePut. simpl. intros H.
  destruct (queues k !! queue) as [q|]; [|done].
  destruct (q_count q =? q_size q); [|by eapply queue_put_commit_unmasked].
  destruct block; simpl in H; [|by injection H as _ <-].
  destruct (tcbs k !! run_ptr k) as [t|]; [|done].
  destruct w as [|e w]; [done|].
  destruct (queue_put_wait w queue _) as [[] k4|k4|]; [|done|done].
  by eapply queue_put_commit_unmasked.
Qed.

(** ** Queues *)

(** C10: [EOS_QueueCreate] accepts a size of zero and returns a queue with
    [count = size = 0].  On such a queue [EOS_QueuePut] and [EOS_QueueGet]
    in [EOS_NO_BLOCK] mode return [EOS_BLOCKED] and change nothing but the
    interrupt mask (so neither [head], [tail], [count], the buffer nor the
    caller's item), which keeps the queue in the same condition for every
    later call. *)
Theorem EOS_QueueCreate_zero queue buf raw item_size k :
  queue ≠ NULL → buf ≠ NULL →
  (∃ k1 q, EOS_QueueCreate queue buf raw 0 item_size k = (queue, k1)
           ∧ queues k1 !! queue = Some q ∧ q_size q = 0 ∧ q_count q = 0)
  ∧ (∀ k1 q w item,
       queues k1 !! queue = Some q → q_size q = 0 → q_count q = 0 →
       EOS_QueuePut w queue item EOS_NO_BLOCK k1
         = Returned EOS_BLOCKED (set_primask false k1)
       ∧ EOS_QueueGet w queue item EOS_NO_BLOCK k1
         = Returned (EOS_BLOCKED, item) (set_primask false k1)
       ∧ queues (set_primask false k1) !! queue = Some q).
Proof.
  intros Hq Hb. split.
  - unfold EOS_QueueCreate. apply Z.eqb_neq in Hq, Hb. rewrite Hq, Hb.
    eexists _, _. split; [done|]. simpl. rewrite lookup_insert_eq. done.
  - intros k1 q w item Hk1 Hs Hc. unfold EOS_QueuePut, EOS_QueueGet. simpl.
    rewrite Hk1, Hc, Hs. simpl. done.
Qed.



Lemma EOS_TaskUnblock_ring item k k' l :
  ring (tcbs k) (run_ptr k) l → EOS_TaskUnblock item k = Some k' →
  ring (tcbs k') (run_ptr k') l.
Proof.
  intros Hr H. apply EOS_TaskUnblock_frame in H as (_ & _ & -> & [->|Hc]);
    [done|].
  destruct Hc as (b & tb & Hb & ->). by eapply ring_update.
Qed.





Lemma ring_ok_tag k r v :
  tcbs k !! run_ptr k = Some r → ring_ok k →
  ring_ok (set_tcbs (<[run_ptr k := set_blocked v r]> (tcbs k)) k).
Proof. intros Hr [l Hl]. exists l. simpl. by eapply ring_update. Qed.

Lemma ring_ok_running k : ring_ok k → is_Some (tcbs k !! run_ptr k).
Proof. intros [l Hl]. eapply ring_lookup; [done|left]. Qed.




(** A queue made by [EOS_QueueCreate] with at least one slot starts within
    the predicate. *)
Lemma EOS_QueueCreate_inv queue buf raw sz isz k :
  queue ≠ NULL → buf ≠ NULL →
  1 ≤ sz < 2 ^ 32 → 0 ≤ isz < 2 ^ 32 →
  Z.of_nat (length raw) = sz * isz →
  ∃ k1, EOS_QueueCreate queue buf raw sz isz k = (queue, k1)
        ∧ queue_ok queue sz isz k1
        ∧ tcbs k1 = tcbs k ∧ run_ptr k1 = run_ptr k.
Proof.
  intros Hq Hb Hsz Hisz Hraw. unfold EOS_QueueCreate.
  apply Z.eqb_neq in Hq, Hb. rewrite Hq, Hb.
  eexists. split; [done|]. split; [|done].
  eexists. simpl. rewrite lookup_insert_eq. split; [done|].
  unfold queue_inv, queue_shape, u32. simpl.
  rewrite !Z.mod_small by lia. lia.
Qed.

(** ** Thread creation keeps the ring *)

Lemma ring_seg h p l :
  ring h p l ↔ NoDup (p :: l) ∧ (NULL ∉ p :: l) ∧ seg h p (p :: l) p.
Proof.
  unfold ring. simpl. split.
  - intros (? & ? & t & ? & ?). eauto 10.
  - intros (? & ? & _ & t & ? & ?). eauto 10.
Qed.

Lemma find_pred_spec h stop v : ∀ (fuel : nat) cur,
  seg h cur (cur :: v) stop → stop ∉ v → (length v ≤ fuel)%nat →
  ∃ z v0, cur :: v = v0 ++ [z] ∧ find_pred fuel h stop cur = Some z.
Proof.
  induction v as [|y v IH]; intros fuel cur Hs Hstop Hfuel.
  - simpl in Hs. destruct Hs as (_ & t & Ht & Hn).
    exists cur, []. split; [done|].
    destruct fuel; simpl; by rewrite Ht, Hn, Z.eqb_refl.
  - simpl in Hs. destruct Hs as (_ & t & Ht & Hy & Hs). subst y.
    destruct fuel as [|fuel]; [simpl in Hfuel; lia|]. simpl in Hfuel.
    assert (next t ≠ stop) as Hne by (intros E; apply Hstop; rewrite E; left).
    apply Z.eqb_neq in Hne.
    destruct (IH fuel (next t)) as (z & v0 & Heq & Hf).
    + simpl. split; [done|]. exact Hs.
    + intros ?. apply Hstop. by right.
    + lia.
    + exists z, (cur :: v0). split; [simpl; by rewrite Heq|].
      simpl. by rewrite Ht, Hne.
Qed.

Lemma seg_snoc_insert h cur v0 z tz cb new stop :
  seg h cur (v0 ++ [z]) stop → NoDup (v0 ++ [z]) → cb ∉ v0 ++ [z] →
  h !! z = Some tz → next new = stop →
  seg (<[cb := new]> (<[z := set_next cb tz]> h)) cur (v0 ++ [z; cb]) stop.
Proof.
  intros Hs Hnd Hcb Hz Hn.
  apply seg_app in Hs as (m & H1 & H2). simpl in H2.
  destruct H2 as (E & _). subst m.
  apply NoDup_app in Hnd as (_ & Hdisj & _).
  assert (cb ≠ z) as Hcz by (intros ->; apply Hcb; list_in).
  apply seg_app. exists z. split.
  - eapply seg_frame; [|done]. intros x u Hx Hu. exists u. split; [|done].
    rewrite !lookup_insert_ne; [done| |].
    + intros ->. eapply Hdisj; [done|]. left.
    + intros ->. apply Hcb. list_in.
  - simpl. split; [done|]. exists (set_next cb tz). split.
    + rewrite lookup_insert_ne by done. by rewrite lookup_insert_eq.
    + simpl. split; [done|]. exists new. by rewrite lookup_insert_eq.
Qed.

(** One successful call: the new TCB is the last of the walk from the
    successor of [run_ptr], that is, it sits immediately before the
    running task; nothing else moves. *)
Lemma EOS_ThreadNew_ring k l control_block stack function prio task_stack
    stack_size use_fpu handle k' :
  ring (tcbs k) (run_ptr k) l →
  tcbs k !! control_block = None →
  EOS_ThreadNew control_block stack function prio task_stack stack_size
    use_fpu k = Some (handle, k') →
  handle ≠ NULL →
  handle = control_block
  ∧ run_ptr k' = run_ptr k
  ∧ ring (tcbs k') (run_ptr k') (l ++ [handle])
  ∧ (∃ t, tcbs k' !! handle = Some t ∧ next t = run_ptr k
          ∧ runnable t = true)
  ∧ (∀ x, tcbs k' !! x = None ↔ x ≠ handle ∧ tcbs k !! x = None)
  ∧ (∀ x t, tcbs k !! x = Some t →
       ∃ t', tcbs k' !! x = Some t'
             ∧ (t' = t ∨ (next t = run_ptr k ∧ t' = set_next handle t))).
Proof.
  intros Hr Hfresh H Hh. pose proof (ring_length _ _ _ Hr) as Hlen.
  pose proof Hr as Hr0.
  apply ring_seg in Hr as (Hnd & Hnull & Hs).
  unfold EOS_ThreadNew in H.
  destruct (stack_size <? 64); [by injection H as <- _|].
  destruct (PRIORITY_HIGH <? prio); [by injection H as <- _|].
  destruct ((task_stack =? NULL) && (stack =? NULL)); [by injection H as <- _|].
  destruct (control_block =? NULL) eqn:Hcb; [done|].
  apply Z.eqb_neq in Hcb.
  destruct (find_pred_spec (tcbs k) (run_ptr k) l (size (tcbs k)) (run_ptr k))
    as (z & v0 & Heq & Hf).
  { done. }
  { by apply NoDup_cons in Hnd as [? _]. }
  { lia. }
  rewrite Hf in H.
  assert (z ∈ run_ptr k :: l) as Hz by (rewrite Heq; list_in).
  destruct (ring_lookup _ _ _ z Hr0 Hz) as [tz Htz]. rewrite Htz in H.
  injection H as <- <-. simpl.
  assert (control_block ∉ run_ptr k :: l) as Hcl.
  { intros Hin. destruct (ring_lookup _ _ _ _ Hr0 Hin) as [? ?]. congruence. }
  assert (control_block ≠ z) as Hcz by (intros ->; done).
  split; [done|]. split; [done|]. split; [|split; [|split]].
  - apply ring_seg. rewrite app_comm_cons, Heq, <- app_assoc. simpl.
    rewrite Heq in Hnd, Hcl, Hnull, Hs.
    change (v0 ++ [z; control_block]) with (v0 ++ [z] ++ [control_block]).
    rewrite app_assoc. split; [|split].
    + apply NoDup_app. split; [done|]. split; [|apply NoDup_singleton].
      intros x Hx E%list_elem_of_singleton. subst x. done.
    + intros [?|E]%elem_of_app; [done|].
      apply list_elem_of_singleton in E. by rewrite E in Hcb.
    + rewrite <- app_assoc. by apply seg_snoc_insert.
  - eexists. rewrite lookup_insert_eq. done.
  - intros x. destruct (decide (x = control_block)) as [->|Hxc].
    + rewrite lookup_insert_eq. split; [done|]. by intros [? _].
    + rewrite lookup_insert_ne by done.
      destruct (decide (x = z)) as [->|Hxz].
      * rewrite lookup_insert_eq, Htz. split; [done|]. by intros [_ ?].
      * rewrite lookup_insert_ne by done. split; [done|]. by intros [_ ?].
  - intros x t Ht.
    assert (x ≠ control_block) as Hxc by (intros ->; congruence).
    rewrite lookup_insert_ne by done.
    destruct (decide (x = z)) as [->|Hxz].
    + rewrite lookup_insert_eq. eexists. split; [done|]. right.
      rewrite Htz in Ht. injection Ht as <-. split; [|done].
      rewrite Heq in Hs. apply seg_app in Hs as (m & _ & H2). simpl in H2.
      destruct H2 as (E & tz' & Htz' & Hn). subst m. congruence.
    + rewrite lookup_insert_ne by done. eauto.
Qed.

Lemma seg_walk_prefix h l : ∀ c q (j : nat),
  seg h c l q → (j < length l)%nat → walk h j c = l !! j.
Proof.
  induction l as [|y l IH]; intros c q j Hs Hj; simpl in Hj; [lia|].
  simpl in Hs. destruct Hs as (-> & t & Ht & Hs).
  destruct j as [|j]; [done|]. simpl. rewrite Ht.
  eapply IH; [done|lia].
Qed.

(** On a ring of [n] TCBs, [n] steps along [next] lead from every TCB
    back to itself, and no smaller positive number of steps does. *)
Lemma ring_walk h p l x :
  ring h p l → x ∈ p :: l →
  walk h (S (length l)) x = Some x
  ∧ ∀ j : nat, (0 < j < S (length l))%nat → walk h j x ≠ Some x.
Proof.
  assert (∀ p l, ring h p l →
            walk h (S (length l)) p = Some p
            ∧ ∀ j : nat, (0 < j < S (length l))%nat →
                walk h j p ≠ Some p)
    as Hp.
  { clear. intros p l (Hnd & _ & t & Ht & Hs). split.
    - simpl. rewrite Ht. by apply seg_walk.
    - intros [|j] Hj; [lia|]. simpl. rewrite Ht.
      rewrite (seg_walk_prefix _ _ _ _ _ Hs) by lia.
      intros Hl. apply list_elem_of_lookup_2 in Hl.
      by apply NoDup_cons in Hnd as [? _]. }
  intros Hr [->|Hx]%elem_of_cons; [by apply Hp|].
  destruct (ring_rotate _ _ _ _ Hr Hx) as (l1 & l2 & -> & Hr').
  apply Hp in Hr'. rewrite length_app in Hr'. rewrite length_app.
  simpl length in *.
  by replace (S (length l1 + S (length l2)))
    with (S (length l2 + S (length l1))) by lia.
Qed.

Lemma create_threads_ring calls : ∀ k l handles k',
  ring (tcbs k) (run_ptr k) l →
  NoDup (ta_control_block <$> calls) →
  (∀ a, a ∈ calls → tcbs k !! ta_control_block a = None) →
  create_threads calls k = Some (handles, k') →
  NULL ∉ handles →
  handles = ta_control_block <$> calls
  ∧ run_ptr k' = run_ptr k
  ∧ ring (tcbs k') (run_ptr k') (l ++ handles).
Proof.
  induction calls as [|a calls IH]; intros k l handles k' Hr Hnd Hfresh H Hok.
  - simpl in H. injection H as <- <-. by rewrite app_nil_r.
  - simpl in H.
    destruct (EOS_ThreadNew _ _ _ _ _ _ _ k) as [[handle k1]|] eqn:Hnew;
      [|done].
    destruct (create_threads calls k1) as [[hs k2]|] eqn:Hrest; [|done].
    injection H as <- <-.
    apply not_elem_of_cons in Hok as [Hh Hhs].
    rewrite fmap_cons in Hnd. apply NoDup_cons in Hnd as [Ha Hnd].
    destruct (EOS_ThreadNew_ring _ _ _ _ _ _ _ _ _ _ _ Hr
                (Hfresh a ltac:(left)) Hnew)
      as (-> & Hrun & Hr1 & _ & Hdom & _);
      [done|].
    destruct (IH k1 (l ++ [ta_control_block a]) hs k2)
      as (-> & Hrun2 & Hr2); [done|done| |done|done|].
    { intros b Hb. apply Hdom. split.
      - intros E. apply Ha. rewrite <- E. apply list_elem_of_fmap. eauto.
      - apply Hfresh. by right. }
    split; [done|]. split; [congruence|].
    rewrite <- app_assoc in Hr2. done.
Qed.

(** C7: starting from the idle TCB alone, after [N] successful calls of
    [EOS_ThreadNew] (each given a fresh block by [malloc]) the TCBs form a
    ring through [run_ptr], which still is the idle task; the walk from
    the successor of the idle task meets the handles in the order of their
    creation, so each new TCB was put immediately before the running one;
    the idle task and every handle occur exactly once; and from every one
    of them [N + 1] steps along [next], and no fewer, lead back to it. *)
Theorem EOS_ThreadNew_ring_wellformed idle_task idle_sp calls handles k :
  idle_task ≠ NULL →
  NoDup (idle_task :: (ta_control_block <$> calls)) →
  create_threads calls (kernel_init idle_task idle_sp) = Some (handles, k) →
  NULL ∉ handles →
  run_ptr k = idle_task
  ∧ handles = ta_control_block <$> calls
  ∧ length handles = length calls
  ∧ ring (tcbs k) idle_task handles
  ∧ NoDup (idle_task :: handles)
  ∧ ∀ x, x ∈ idle_task :: handles →
      walk (tcbs k) (S (length calls)) x = Some x
      ∧ ∀ j : nat, (0 < j < S (length calls))%nat →
          walk (tcbs k) j x ≠ Some x.
Proof.
  intros Hidle Hnd H Hok. apply NoDup_cons in Hnd as [Hi Hnd].
  destruct (create_threads_ring calls (kernel_init idle_task idle_sp) []
              handles k) as (-> & Hrun & Hr); [|done| |done|done|].
  { simpl. split; [apply NoDup_singleton|]. split.
    - intros E%list_elem_of_singleton. by apply Hidle.
    - eexists. rewrite lookup_singleton_eq. done. }
  { intros a Ha. simpl. apply lookup_singleton_ne. intros E. apply Hi.
    rewrite E. apply list_elem_of_fmap. eauto. }
  simpl in Hrun, Hr. rewrite Hrun in Hr.
  split; [done|]. split; [done|].
  split; [by rewrite length_fmap|]. split; [done|].
  split; [by destruct Hr|].
  intros x Hx. rewrite <- (length_fmap ta_control_block calls).
  by eapply ring_walk.
Qed.

Lemma segb_sound h l : ∀ p q, segb h p l q = true → seg h p l q.
Proof.
  induction l as [|x l IH]; intros p q; simpl.
  - by intros ?%bool_decide_eq_true.
  - intros [?%bool_decide_eq_true H]%andb_true_iff.
    destruct (h !! p) as [t|]; [|done]. eauto.
Qed.

Lemma ringb_sound h p l : ringb h p l = true → ring h p l.
Proof.
  unfold ringb. intros [[H1 H2]%andb_true_iff H3]%andb_true_iff.
  apply bool_decide_eq_true in H1, H2.
  destruct (h !! p) as [t|] eqn:Ht; [|done].
  split; [done|]. split; [done|]. exists t. split; [done|].
  by apply segb_sound.
Qed.

(** ** The invariant of the scheduler *)

Section KernelProofs.

Variable idle_task : Z.

Hypothesis idle_not_null : idle_task ≠ NULL.

Local Abbreviation EOS_scheduler := (EOS_scheduler idle_task).
Local Abbreviation kernel_inv := (kernel_inv idle_task).
Local Abbreviation kernel_ok := (kernel_ok idle_task).

Lemma EOS_scheduler_elects k l :
  kernel_inv k l →
  ∃ k', EOS_scheduler k = Some k'
        ∧ tcbs k' = tcbs k
        ∧ run_ptr k' ∈ run_ptr k :: l
        ∧ runnable_at (tcbs k') (run_ptr k').
Proof.
  intros (Hr & Hidle & Hirun).
  pose proof (ring_length _ _ _ Hr) as Hlen.
  pose proof Hr as (Hnd & Hnull & r & Hrun & Hs).
  apply NoDup_cons in Hnd as [Hp Hnd].
  unfold EOS_scheduler. rewrite Hrun.
  destruct (negb (blocked r =? 0) || negb (paused r =? 0)) eqn:Hunrun.
  - destruct Hirun as (i & Hi & Hir). rewrite Hi.
    assert (idle_task ≠ run_ptr k) as Hne.
    { intros Heq. rewrite Heq, Hrun in Hi. injection Hi as <-.
      unfold runnable in Hir. apply andb_true_iff in Hir as [Hi1 Hi2].
      rewrite Hi1, Hi2 in Hunrun. done. }
    apply elem_of_cons in Hidle as [?|Hidle]; [done|].
    destruct (seg_split _ _ _ _ _ Hs Hidle)
      as (l1 & l2 & ti & -> & H1 & Hti & H2).
    rewrite Hi in Hti. injection Hti as <-.
    apply NoDup_app in Hnd as (_ & _ & [_ N2]%NoDup_cons).
    destruct (scheduler_loop_spec (tcbs k) (run_ptr k) l2
                (size (tcbs k)) (next i) idle_task) as (b & -> & Hd).
    + done.
    + intros Hin. apply Hp. list_in.
    + rewrite length_app in Hlen. simpl in Hlen. lia.
    + eauto.
    + exists (set_run_ptr b k). split; [done|]. split; [done|]. simpl.
      destruct Hd as [->|[Hin Hb]].
      * split; [list_in|]. by exists i.
      * split; [list_in|done].
  - apply orb_false_iff in Hunrun as [Hb1 Hb2].
    apply negb_false_iff in Hb1, Hb2.
    destruct (scheduler_loop_spec (tcbs k) (run_ptr k) l
                (size (tcbs k)) (next r) (run_ptr k)) as (b & -> & Hd).
    + done.
    + done.
    + lia.
    + eauto.
    + exists (set_run_ptr b k). split; [done|]. split; [done|]. simpl.
      destruct Hd as [->|[Hin Hb]].
      * split; [left|]. exists r. split; [done|].
        unfold runnable. by rewrite Hb1, Hb2.
      * split; [by right|done].
Qed.

Lemma kernel_init_ok idle_sp : kernel_ok (kernel_init idle_task idle_sp).
Proof.
  exists []. split; [|split].
  - simpl. split; [apply NoDup_singleton|]. split.
    + intros E%list_elem_of_singleton. by apply idle_not_null.
    + eexists. rewrite lookup_singleton_eq. done.
  - left.
  - eexists. simpl. rewrite lookup_singleton_eq. done.
Qed.

(** Writing a TCB whose [next] is unchanged, and which is still runnable
    if it is the idle task, keeps the invariant. *)
Lemma kernel_ok_update k x t t' :
  kernel_ok k → tcbs k !! x = Some t → next t' = next t →
  (x = idle_task → runnable t' = true) →
  kernel_ok (set_tcbs (<[x := t']> (tcbs k)) k).
Proof.
  intros (l & Hr & Hin & (i & Hi & Hir)) Hx Hn Hrun.
  exists l. split; [|split]; simpl.
  - by eapply ring_update.
  - done.
  - destruct (decide (x = idle_task)) as [->|Hne].
    + exists t'. rewrite lookup_insert_eq. eauto.
    + exists i. by rewrite lookup_insert_ne.
Qed.

Lemma kernel_ok_same k k' :
  tcbs k' = tcbs k → run_ptr k' = run_ptr k → kernel_ok k → kernel_ok k'.
Proof.
  intros Ht Hp (l & Hr & Hin & Hi). exists l.
  unfold kernel_inv. by rewrite Ht, Hp.
Qed.

Lemma kernel_ok_idle k :
  kernel_ok k → ∃ i, tcbs k !! idle_task = Some i ∧ runnable i = true.
Proof. by intros (l & _ & _ & Hi). Qed.

Lemma kernel_ok_unblock k k' item :
  kernel_ok k → EOS_TaskUnblock item k = Some k' → kernel_ok k'.
Proof.
  intros Hk H. pose proof (kernel_ok_idle _ Hk) as (i & Hi & Hir).
  apply EOS_TaskUnblock_frame in H as (_ & _ & Hp & [Ht|(b & tb & Hb & Ht)]).
  - by eapply kernel_ok_same.
  - eapply (kernel_ok_same (set_tcbs (<[b := set_blocked 0 tb]> (tcbs k)) k));
      [done|done|].
    eapply kernel_ok_update; [done|done|done|].
    intros ->. rewrite Hi in Hb. injection Hb as <-.
    unfold runnable in *. simpl. by apply andb_true_iff in Hir as [_ ->].
Qed.

Lemma kernel_ok_tick k k' :
  kernel_ok k → EOS_HandleTimeout k = Some k' → kernel_ok k'.
Proof.
  intros (l & Hr & Hin & (i & Hi & Hir)) H.
  unfold EOS_HandleTimeout in H.
  pose proof (ring_length _ _ _ Hr) as Hlen.
  pose proof Hr as (Hnd & Hnull & r & Hrun & Hs). rewrite Hrun in H.
  apply NoDup_cons in Hnd as [Hp Hnd].
  destruct (timeout_loop_spec (run_ptr k) l (size (tcbs k)) (tcbs k) (next r))
    as (h' & Hloop & Hh'); [done|done|done|lia|].
  rewrite Hloop in H. injection H as <-.
  exists l. split; [|split]; simpl.
  - split; [by apply NoDup_cons|]. split; [done|].
    exists r. rewrite Hh', decide_False by done. split; [done|].
    eapply seg_frame; [|done]. intros x t Hx Ht.
    rewrite Hh', decide_True, Ht by done. simpl.
    eexists. split; [done|]. apply timeout_visit_next.
  - done.
  - exists i. split; [|done]. rewrite Hh', Hi. simpl.
    rewrite timeout_visit_skip; [by case_decide|].
    left. unfold runnable in Hir. apply andb_true_iff in Hir as [Hb _].
    apply Z.eqb_eq in Hb. rewrite Hb. done.
Qed.

Lemma kernel_ok_schedule k k' :
  kernel_ok k → EOS_scheduler k = Some k' → kernel_ok k'.
Proof.
  intros (l & Hinv) H. pose proof Hinv as (Hr & Hin & Hi).
  destruct (EOS_scheduler_elects k l Hinv)
    as (k1 & Hk1 & Ht & Hp & _).
  rewrite H in Hk1. injection Hk1 as <-.
  apply elem_of_cons in Hp as [Hp|Hp].
  - exists l. unfold kernel_inv. by rewrite Ht, Hp.
  - destruct (ring_rotate _ _ _ _ Hr Hp) as (l1 & l2 & -> & Hr').
    exists (l2 ++ run_ptr k :: l1). unfold kernel_inv. rewrite Ht.
    split; [done|]. split; [|done]. revert Hin. clear. list_in.
Qed.

Lemma EOS_ThreadNew_failed cb stk f prio ts sz fpu k k' :
  EOS_ThreadNew cb stk f prio ts sz fpu k = Some (NULL, k') → k' = k.
Proof.
  unfold EOS_ThreadNew. intros H.
  repeat (match type of H with
          | (if ?b then _ else _) = _ => destruct b eqn:?
          | match ?x with _ => _ end = _ => destruct x eqn:?
          end; try done); try by injection H as <-.
  injection H as E _. apply Z.eqb_neq in Heqb2. done.
Qed.

Lemma kernel_ok_ThreadNew cb stk f prio ts sz fpu k handle k' :
  kernel_ok k → tcbs k !! cb = None →
  EOS_ThreadNew cb stk f prio ts sz fpu k = Some (handle, k') →
  kernel_ok k'.
Proof.
  intros (l & Hr & Hin & (i & Hi & Hir)) Hfresh H.
  destruct (decide (handle = NULL)) as [->|Hh].
  { apply EOS_ThreadNew_failed in H as ->. exists l.
    unfold kernel_inv, runnable_at. eauto. }
  destruct (EOS_ThreadNew_ring _ _ _ _ _ _ _ _ _ _ _ Hr Hfresh H Hh)
    as (-> & Hp & Hr' & _ & _ & Hold).
  exists (l ++ [cb]). split; [done|]. split.
  - rewrite Hp. revert Hin. clear. list_in.
  - destruct (Hold _ _ Hi) as (i' & Hi' & [E|[_ E]]); exists i';
      (split; [done|]); subst i'; unfold runnable in *; simpl; done.
Qed.

(** Where the idle task is runnable, a ring of one TCB is the idle task
    alone, which is not blocked: the running TCB is then not tagged with
    the address of any object. *)
Lemma kernel_ok_not_lonely_waiter k l r item :
  kernel_ok k → ring (tcbs k) (run_ptr k) l →
  tcbs k !! run_ptr k = Some r → item ≠ NULL →
  l ≠ [] ∨ blocked r ≠ item.
Proof.
  intros Hk Hr Hrun Hitem. destruct l as [|y l]; [|by left]. right.
  destruct Hk as (l' & Hr' & Hin & (i & Hi & Hir)).
  assert (l' = []) as ->.
  { destruct Hr as (_ & _ & t & Ht & Hs), Hr' as (Hnd & _ & t' & Ht' & Hs').
    rewrite Ht in Ht'. injection Ht' as <-. simpl in Hs.
    destruct l' as [|y l']; [done|]. simpl in Hs'. destruct Hs' as (-> & _).
    rewrite Hs in Hnd. apply NoDup_cons in Hnd as [Hnd _].
    exfalso. apply Hnd. left. }
  apply list_elem_of_singleton in Hin. rewrite <- Hin, Hi in Hrun.
  injection Hrun as <-. unfold runnable in Hir.
  apply andb_true_iff in Hir as [Hb _]. apply Z.eqb_eq in Hb.
  rewrite Hb. by intros <-.
Qed.

End KernelProofs.

(** * The concrete states behave as described *)

(** The walk of the scheduler that starts at the idle task stops at
    [run_ptr]: the TCBs between [run_ptr] and the idle task are not
    candidates.  Here the running task [2000] has gone to sleep and is the
    successor of the idle task, so the idle task, which is runnable, is
    elected, although tasks [3000] and [4000] are runnable as well. *)
Example EOS_scheduler_elects_idle_past_runnable :
  (run_ptr <$> EOS_scheduler demo_idle demo_asleep) = Some demo_idle
  ∧ (runnable <$> tcbs demo_asleep !! demo_idle) = Some true
  ∧ (runnable <$> tcbs demo_asleep !! 3000) = Some true
  ∧ (runnable <$> tcbs demo_asleep !! 4000) = Some true.
Proof. vm_compute. done. Qed.

Example demo_kernel_ring :
  ringb (tcbs demo_kernel) (run_ptr demo_kernel) [2000; 3000; 4000] = true
  ∧ run_ptr demo_kernel = demo_idle.
Proof. vm_compute. done. Qed.

Example demo_asleep_state :
  run_ptr demo_asleep = 2000
  ∧ (blocked <$> tcbs demo_asleep !! 2000) = Some EOS_TIMED_OUT
  ∧ ringb (tcbs demo_asleep) 2000 [3000; 4000; 1000] = true.
Proof. vm_compute. done. Qed.

Example demo_idle_paused_state :
  run_script [ λ k, snd <$> EOS_Pause demo_idle k; EOS_Delay 5 ] demo_elected
  = Some demo_idle_paused
  ∧ run_ptr demo_idle_paused = 2000
  ∧ (blocked <$> tcbs demo_idle_paused !! 2000) = Some EOS_TIMED_OUT
  ∧ (paused <$> tcbs demo_idle_paused !! demo_idle) = Some EOS_PAUSED
  ∧ ringb (tcbs demo_idle_paused) 2000 [3000; 4000; 1000] = true.
Proof. vm_compute. done. Qed.

Example demo_waiting_state :
  run_ptr demo_waiting = 4000
  ∧ (blocked <$> tcbs demo_waiting !! 2000) = Some 500
  ∧ (blocked <$> tcbs demo_waiting !! 3000) = Some 500
  ∧ sems demo_waiting !! 500 = Some (mkSem 0 1)
  ∧ ringb (tcbs demo_waiting) 4000 [1000; 2000; 3000] = true.
Proof. vm_compute. done. Qed.

Example demo_queue_state :
  run_ptr demo_queue = 3000
  ∧ (q_count <$> queues demo_queue !! 600) = Some 0
  ∧ (timeOut <$> tcbs demo_queue !! 2000) = Some 1
  ∧ ringb (tcbs demo_queue) 3000 [4000; 1000; 2000] = true.
Proof. vm_compute. done. Qed.

Example demo_env_state :
  run_ptr (demo_env demo_queue_suspended) = 3000
  ∧ (blocked <$> tcbs demo_queue_suspended !! 3000) = Some 600
  ∧ (blocked <$> tcbs (demo_env demo_queue_suspended) !! 3000) = Some 0
  ∧ (q_count <$> queues (demo_env demo_queue_suspended) !! 600) = Some 0
  ∧ (q_head <$> queues (demo_env demo_queue_suspended) !! 600) = Some 1.
Proof. vm_compute. done. Qed.



(** Over-release: on a semaphore created with count 1, release fails and
    the count stays 1; acquire succeeds and the count is 0; release
    succeeds and the count is 1; a second release fails. *)
Example scenario_over_release :
  let k0 := demo_sem in
  let r1 := EOS_SemaphoreRelease 500 k0 in
  let k1 := default k0 (snd <$> r1) in
  let a := EOS_SemaphoreAcquire [] 500 k1 in
  let k2 := default k1 (returned a) in
  let r2 := EOS_SemaphoreRelease 500 k2 in
  let k3 := default k2 (snd <$> r2) in
  let r3 := EOS_SemaphoreRelease 500 k3 in
  (fst <$> r1) = Some EOS_ERROR
  ∧ (sem_count <$> sems k1 !! 500) = Some 1
  ∧ result a = Some EOS_OK
  ∧ (sem_count <$> sems k2 !! 500) = Some 0
  ∧ (fst <$> r2) = Some EOS_OK
  ∧ (sem_count <$> sems k3 !! 500) = Some 1
  ∧ (fst <$> r3) = Some EOS_ERROR.
Proof. vm_compute. done. Qed.

(** [EOS_NO_BLOCK] on a full queue: after two puts a third is refused and
    the count stays 2; a get returns the byte put first; a put then
    succeeds. *)
Example scenario_full_queue :
  let k1 := default demo_two_slots (returned (put_byte 11 demo_two_slots)) in
  let k2 := default k1 (returned (put_byte 22 k1)) in
  let p3 := put_byte 33 k2 in
  let k3 := default k2 (returned p3) in
  let g := get_byte k3 in
  let k4 := default k3 (returned g) in
  let p4 := put_byte 33 k4 in
  result p3 = Some EOS_BLOCKED
  ∧ (q_count <$> queues k3 !! 600) = Some 2
  ∧ result g = Some (EOS_OK, [11])
  ∧ result p4 = Some EOS_OK
  ∧ (q_data <$> queues (default k4 (returned p4)) !! 600) = Some [33; 22].
Proof. vm_compute. done. Qed.

(** * The theorems at concrete states *)

(** C4, as it is worded: on the ring of the idle task alone, tagged with
    the token, no TCB other than the running one waits, and yet
    [EOS_TaskUnblock] clears the [blocked] field of the running TCB. *)
Lemma EOS_TaskUnblock_lonely_counterexample :
  ring (tcbs demo_lonely) (run_ptr demo_lonely) []
  ∧ tcbs demo_lonely !! run_ptr demo_lonely = Some lonely_idle
  ∧ EOS_TaskUnblock 500 demo_lonely
    = Some (set_tcbs {[ demo_idle := set_blocked 0 lonely_idle ]} demo_lonely)
  ∧ ¬ unblocks_best_waiter demo_lonely [] 500 lonely_idle.
Proof.
  split; [apply ringb_sound; vm_compute; reflexivity|].
  split; [vm_compute; reflexivity|].
  split; [vm_compute; reflexivity|].
  intros [[_ H]|(b & tb & (l1 & l2 & tb' & Heq & _) & _)].
  - apply (f_equal (λ o, match o with
                         | Some k => blocked <$> tcbs k !! demo_idle
                         | None => None
                         end)) in H.
    vm_compute in H. discriminate.
  - by destruct l1.
Qed.

Lemma EOS_TaskUnblock_spec_witness :
  ring (tcbs demo_waiting) (run_ptr demo_waiting) [1000; 2000; 3000]
  ∧ unblocks_best_waiter demo_waiting [1000; 2000; 3000] 500
      (mkTCB 40444 0 1000 0 PRIORITY_LOW 0).
Proof.
  assert (ring (tcbs demo_waiting) (run_ptr demo_waiting) [1000; 2000; 3000])
    as Hr by (apply ringb_sound; vm_compute; reflexivity).
  split; [exact Hr|].
  apply (EOS_TaskUnblock_spec demo_waiting [1000; 2000; 3000] 500).
  - exact Hr.
  - vm_compute. reflexivity.
  - left. discriminate.
Defined.

Lemma EOS_SemaphoreRelease_spec_witness :
  ∃ st k', EOS_SemaphoreRelease 500 demo_waiting = Some (st, k')
    ∧ (st = EOS_ERROR ↔ 0 = 1)
    ∧ (0 = 1 → sems k' = sems demo_waiting ∧ tcbs k' = tcbs demo_waiting)
    ∧ (0 ≠ 1 →
         st = EOS_OK
         ∧ sems k' = <[500 := mkSem (0 + 1) 1]> (sems demo_waiting)).
Proof.
  apply (EOS_SemaphoreRelease_spec demo_waiting [1000; 2000; 3000] 500
           (mkSem 0 1)).
  - apply ringb_sound. vm_compute. reflexivity.
  - vm_compute. reflexivity.
  - simpl. lia.
  - simpl. lia.
Defined.

Lemma EOS_HandleTimeout_spec_witness :
  ∃ h', EOS_HandleTimeout demo_queue = Some (set_tcbs h' demo_queue)
    ∧ (∀ x, x ∉ [4000; 1000; 2000] → h' !! x = tcbs demo_queue !! x)
    ∧ (∀ x t, x ∈ [4000; 1000; 2000] → tcbs demo_queue !! x = Some t →
         blocked t = EOS_TIMED_OUT → paused t = 0 →
         0 < timeOut t < 2 ^ 32 →
         h' !! x = Some (mkTCB (sp t)
                           (if decide (timeOut t = 1) then 0 else EOS_TIMED_OUT)
                           (next t) (timeOut t - 1) (priority t) (paused t)))
    ∧ (∀ x t, x ∈ [4000; 1000; 2000] → tcbs demo_queue !! x = Some t →
         blocked t ≠ EOS_TIMED_OUT ∨ paused t ≠ 0 ∨ timeOut t = 0 →
         h' !! x = Some t).
Proof.
  apply (EOS_HandleTimeout_spec demo_queue [4000; 1000; 2000]).
  apply ringb_sound. vm_compute. reflexivity.
Defined.

Lemma EOS_ThreadNew_ring_wellformed_witness :
  run_ptr demo_kernel = demo_idle
  ∧ [2000; 3000; 4000] = ta_control_block <$> demo_calls
  ∧ length [2000; 3000; 4000] = length demo_calls
  ∧ ring (tcbs demo_kernel) demo_idle [2000; 3000; 4000]
  ∧ NoDup (demo_idle :: [2000; 3000; 4000])
  ∧ ∀ x, x ∈ demo_idle :: [2000; 3000; 4000] →
      walk (tcbs demo_kernel) (S (length demo_calls)) x = Some x
      ∧ ∀ j : nat, (0 < j < S (length demo_calls))%nat →
          walk (tcbs demo_kernel) j x ≠ Some x.
Proof.
  apply (EOS_ThreadNew_ring_wellformed demo_idle 500 demo_calls
           [2000; 3000; 4000] demo_kernel).
  - vm_compute. discriminate.
  - compute_done.
  - vm_compute. reflexivity.
  - compute_done.
Defined.

Lemma EOS_SemaphoreNew_zero_witness :
  (∃ k1, EOS_SemaphoreNew 500 0 demo_kernel = (500, k1)
         ∧ dead_semaphore 500 k1)
  ∧ (∀ k1, dead_semaphore 500 k1 →
       EOS_SemaphoreRelease 500 k1 = Some (EOS_ERROR, set_primask false k1)
       ∧ dead_semaphore 500 (set_primask false k1))
  ∧ (∀ k1 w st k2, dead_semaphore 500 k1 →
       Forall (λ e, ∀ k0, dead_semaphore 500 k0 →
                          dead_semaphore 500 (e k0)) w →
       EOS_SemaphoreAcquire w 500 k1 ≠ Returned st k2).
Proof.
  apply (EOS_SemaphoreNew_zero 500 demo_kernel). vm_compute. discriminate.
Defined.

Lemma EOS_QueueCreate_zero_witness :
  (∃ k1 q, EOS_QueueCreate 600 6000 [] 0 4 demo_kernel = (600, k1)
           ∧ queues k1 !! 600 = Some q ∧ q_size q = 0 ∧ q_count q = 0)
  ∧ (∀ k1 q w item,
       queues k1 !! 600 = Some q → q_size q = 0 → q_count q = 0 →
       EOS_QueuePut w 600 item EOS_NO_BLOCK k1
         = Returned EOS_BLOCKED (set_primask false k1)
       ∧ EOS_QueueGet w 600 item EOS_NO_BLOCK k1
         = Returned (EOS_BLOCKED, item) (set_primask false k1)
       ∧ queues (set_primask false k1) !! 600 = Some q).
Proof.
  apply (EOS_QueueCreate_zero 600 6000 [] 4 demo_kernel);
    vm_compute; discriminate.
Defined.

Lemma EOS_QueueGet_retry_not_retagged_witness :
  (∃ k2 r, EOS_QueueGet [demo_env] 600 [0] EOS_BLOCK demo_queue = Suspended k2
           ∧ tcbs k2 !! run_ptr k2 = Some r ∧ blocked r = NULL)
  ∧ (∀ semaphore k2,
       EOS_SemaphoreAcquire [demo_env] semaphore demo_queue = Suspended k2 →
       ∃ r, tcbs k2 !! run_ptr k2 = Some r ∧ blocked r = semaphore).
Proof.
  apply (EOS_QueueGet_retry_not_retagged demo_queue 600 [0] demo_env
           demo_queue_suspended).
  - vm_compute. reflexivity.
  - split.
    + eexists. split; [vm_compute; reflexivity|reflexivity].
    + eexists. split; [vm_compute; reflexivity|reflexivity].
Defined.


(** * The rest of the kernel: proofs *)

(** ** The election *)

Lemma elected_among_start h start ts :
  h !! start = Some ts → elected_among h start [] start.
Proof.
  intros Hs. exists ts, ts. split; [done|]. split; [done|]. left.
  split; [done|]. intros x t Hx. by apply elem_of_nil in Hx.
Qed.

(** One more TCB visited. *)
Lemma elected_among_snoc h start pre best tb x t :
  h !! best = Some tb → h !! x = Some t →
  elected_among h start pre best →
  elected_among h start (pre ++ [x])
    (if runnable t && (priority tb <=? priority t) then x else best).
Proof.
  intros Hb Hx (ts & tb' & Hs & Hb' & He).
  rewrite Hb in Hb'. injection Hb' as <-.
  destruct (runnable t) eqn:Hrun; simpl;
    [destruct (priority tb <=? priority t) eqn:Hle|].
  - apply Z.leb_le in Hle. exists ts, t. split; [done|]. split; [done|].
    right. exists pre, []. split; [done|]. split; [done|].
    destruct He as [(-> & Hlow)|(l1 & l2 & -> & Hrb & Hsb & H1 & H2)].
    + rewrite Hs in Hb. injection Hb as <-.
      split; [lia|]. split.
      * intros y u Hy Hu Hur. specialize (Hlow y u Hy Hu Hur). lia.
      * intros y u Hy. by apply elem_of_nil in Hy.
    + split; [lia|]. split.
      * intros y u [Hy|[->|Hy]%elem_of_cons]%elem_of_app Hu Hur.
        -- specialize (H1 y u Hy Hu Hur). lia.
        -- rewrite Hb in Hu. injection Hu as <-. lia.
        -- specialize (H2 y u Hy Hu Hur). lia.
      * intros y u Hy. by apply elem_of_nil in Hy.
  - apply Z.leb_gt in Hle. exists ts, tb. split; [done|]. split; [done|].
    destruct He as [(-> & Hlow)|(l1 & l2 & -> & Hrb & Hsb & H1 & H2)].
    + left. split; [done|]. rewrite Hs in Hb. injection Hb as <-.
      intros y u [Hy|Hy%list_elem_of_singleton]%elem_of_app Hu Hur.
      * eauto.
      * subst y. rewrite Hx in Hu. by injection Hu as <-.
    + right. exists l1, (l2 ++ [x]). split; [by rewrite <- app_assoc|].
      split; [done|]. split; [done|]. split; [done|].
      intros y u [Hy|Hy%list_elem_of_singleton]%elem_of_app Hu Hur.
      * eauto.
      * subst y. rewrite Hx in Hu. by injection Hu as <-.
  - exists ts, tb. split; [done|]. split; [done|].
    destruct He as [(-> & Hlow)|(l1 & l2 & -> & Hrb & Hsb & H1 & H2)].
    + left. split; [done|].
      intros y u [Hy|Hy%list_elem_of_singleton]%elem_of_app Hu Hur.
      * eauto.
      * subst y. rewrite Hx in Hu. injection Hu as <-. congruence.
    + right. exists l1, (l2 ++ [x]). split; [by rewrite <- app_assoc|].
      split; [done|]. split; [done|]. split; [done|].
      intros y u [Hy|Hy%list_elem_of_singleton]%elem_of_app Hu Hur.
      * eauto.
      * subst y. rewrite Hx in Hu. injection Hu as <-. congruence.
Qed.

Lemma elected_among_lookup h start visited b :
  elected_among h start visited b → is_Some (h !! b).
Proof. intros (ts & tb & _ & Hb & _). eauto. Qed.

Lemma scheduler_loop_elected h start stop l : ∀ (fuel : nat) pre cur best,
  seg h cur l stop → stop ∉ l → (length l ≤ fuel)%nat →
  elected_among h start pre best →
  ∃ b, scheduler_loop fuel h stop cur best = Some b
       ∧ elected_among h start (pre ++ l) b.
Proof.
  induction l as [|x l IH]; intros fuel pre cur best Hs Hstop Hfuel He.
  - simpl in Hs. subst cur. exists best. rewrite app_nil_r. split; [|done].
    destruct fuel; simpl; by rewrite Z.eqb_refl.
  - simpl in Hs. destruct Hs as (-> & t & Ht & Hs).
    destruct fuel as [|fuel]; [simpl in Hfuel; lia|].
    assert (cur ≠ stop) as Hne by (intros ->; apply Hstop; left).
    apply Z.eqb_neq in Hne.
    assert (stop ∉ l) as Hstop' by (intros ?; apply Hstop; by right).
    destruct (elected_among_lookup _ _ _ _ He) as [tb Hb].
    pose proof (elected_among_snoc _ _ _ _ _ _ _ Hb Ht He) as He'.
    simpl in Hfuel. simpl. rewrite Hne, Ht.
    change ((blocked t =? 0) && (paused t =? 0)) with (runnable t).
    replace (pre ++ cur :: l) with ((pre ++ [cur]) ++ l)
      by (by rewrite <- app_assoc).
    destruct (runnable t); simpl in He'.
    + rewrite Hb. apply IH; [done|done|lia|done].
    + apply IH; [done|done|lia|done].
Qed.

(** On a ring that holds the idle task the scheduler returns, changes
    nothing but [run_ptr], and elects among the TCBs it visits. *)
Lemma EOS_scheduler_elected idle_task k l :
  ring (tcbs k) (run_ptr k) l → idle_task ∈ run_ptr k :: l →
  ∃ b start visited, EOS_scheduler idle_task k = Some (set_run_ptr b k)
    ∧ scheduler_visits idle_task k l start visited
    ∧ elected_among (tcbs k) start visited b.
Proof.
  intros Hr Hidle.
  pose proof (ring_length _ _ _ Hr) as Hlen.
  pose proof Hr as (Hnd & Hnull & r & Hrun & Hs).
  apply NoDup_cons in Hnd as [Hp Hnd].
  unfold EOS_scheduler, scheduler_visits. rewrite Hrun.
  assert (negb (blocked r =? 0) || negb (paused r =? 0) = negb (runnable r))
    as -> by (unfold runnable; by destruct (blocked r =? 0), (paused r =? 0)).
  destruct (runnable r) eqn:Hrr; simpl.
  - destruct (scheduler_loop_elected (tcbs k) (run_ptr k) (run_ptr k) l
                (size (tcbs k)) [] (next r) (run_ptr k)) as (b & -> & Hb);
      [done|done|lia|by eapply elected_among_start|].
    exists b, (run_ptr k), l. done.
  - apply elem_of_cons in Hidle as [->|Hidle].
    + rewrite Hrun.
      destruct (scheduler_loop_elected (tcbs k) (run_ptr k) (run_ptr k) l
                  (size (tcbs k)) [] (next r) (run_ptr k)) as (b & -> & Hb);
        [done|done|lia|by eapply elected_among_start|].
      exists b, (run_ptr k), l. split; [done|]. split; [|done].
      split; [done|]. by left.
    + destruct (seg_split _ _ _ _ _ Hs Hidle)
        as (l1 & l2 & ti & -> & H1 & Hti & H2).
      rewrite Hti.
      destruct (scheduler_loop_elected (tcbs k) idle_task (run_ptr k) l2
                  (size (tcbs k)) [] (next ti) idle_task) as (b & -> & Hb).
      * done.
      * intros Hin. apply Hp. list_in.
      * rewrite length_app in Hlen. simpl in Hlen. lia.
      * by eapply elected_among_start.
      * exists b, idle_task, l2. split; [done|]. split; [|done].
        split; [done|]. right. by exists l1.
Qed.

(** X1: in a state that satisfies the kernel invariant the scheduler
    returns, changes nothing but [run_ptr], and elects a runnable TCB
    among the candidates it considers (the start candidate and the TCBs
    the loop visits): no runnable candidate has a higher priority, and
    every runnable candidate visited after the elected one has a strictly
    lower priority, so that of several candidates of the highest priority
    the last one visited is elected. *)
Theorem EOS_scheduler_highest_priority idle_task k l :
  kernel_inv idle_task k l →
  ∃ b tb start visited l1 l2,
    EOS_scheduler idle_task k = Some (set_run_ptr b k)
    ∧ scheduler_visits idle_task k l start visited
    ∧ start :: visited = l1 ++ b :: l2
    ∧ tcbs k !! b = Some tb ∧ runnable tb = true
    ∧ (∀ x t, x ∈ l1 → tcbs k !! x = Some t → runnable t = true →
         priority t ≤ priority tb)
    ∧ (∀ x t, x ∈ l2 → tcbs k !! x = Some t → runnable t = true →
         priority t < priority tb).
Proof.
  intros (Hr & Hidle & (i & Hi & Hir)).
  destruct (EOS_scheduler_elected idle_task k l Hr Hidle)
    as (b & start & visited & Hsched & Hv & He).
  destruct He as (ts & tb & Hs & Hb & He).
  assert (runnable ts = true) as Hrs.
  { unfold scheduler_visits in Hv.
    destruct (tcbs k !! run_ptr k) as [r|] eqn:Hrun; [|done].
    destruct (runnable r) eqn:Hrr.
    - destruct Hv as [-> _]. congruence.
    - destruct Hv as [-> _]. congruence. }
  destruct He as [(-> & Hlow)|(l1 & l2 & -> & Hrb & Hsb & H1 & H2)].
  - exists start, tb, start, visited, [], visited.
    rewrite Hs in Hb. injection Hb as <-.
    repeat split; try done. intros x t Hx. by apply elem_of_nil in Hx.
  - exists b, tb, start, (l1 ++ b :: l2), (start :: l1), l2.
    repeat split; try done.
    intros x t [->|Hx]%elem_of_cons Ht Hrt; [|eauto].
    rewrite Hs in Ht. by injection Ht as <-.
Qed.

(** X2: time slicing.  When the running task is runnable, the scheduler
    leaves it running exactly when every other runnable TCB of the ring
    has a strictly lower priority: a runnable task of the same or of a
    higher priority takes the processor at the next switch. *)
Theorem EOS_scheduler_keeps_running_iff idle_task k l r :
  ring (tcbs k) (run_ptr k) l → idle_task ∈ run_ptr k :: l →
  tcbs k !! run_ptr k = Some r → runnable r = true →
  ∃ k', EOS_scheduler idle_task k = Some k'
    ∧ (run_ptr k' = run_ptr k
       ↔ ∀ x t, x ∈ l → tcbs k !! x = Some t → runnable t = true →
           priority t < priority r).
Proof.
  intros Hr Hidle Hrun Hrr.
  destruct (EOS_scheduler_elected idle_task k l Hr Hidle)
    as (b & start & visited & Hsched & Hv & He).
  exists (set_run_ptr b k). split; [done|]. simpl.
  unfold scheduler_visits in Hv. rewrite Hrun, Hrr in Hv.
  destruct Hv as [-> ->].
  destruct He as (ts & tb & Hs & Hb & He).
  rewrite Hrun in Hs. injection Hs as <-.
  destruct Hr as (Hnd & _). apply NoDup_cons in Hnd as [Hp _].
  destruct He as [(-> & Hlow)|(l1 & l2 & -> & Hrb & Hsb & H1 & H2)].
  - done.
  - split.
    + intros ->. exfalso. apply Hp. list_in.
    + intros Hlow. exfalso.
      assert (priority tb < priority r); [|lia].
      eapply Hlow; [|done|done]. list_in.
Qed.

(** With one other runnable TCB of the priority of the running task, and
    every other runnable TCB below it, that TCB is elected. *)
Lemma EOS_scheduler_elects_peer idle_task k l r x tx :
  ring (tcbs k) (run_ptr k) l → idle_task ∈ run_ptr k :: l →
  tcbs k !! run_ptr k = Some r → runnable r = true →
  x ∈ l → tcbs k !! x = Some tx → runnable tx = true →
  priority tx = priority r →
  (∀ y t, y ∈ l → y ≠ x → tcbs k !! y = Some t → runnable t = true →
     priority t < priority r) →
  EOS_scheduler idle_task k = Some (set_run_ptr x k).
Proof.
  intros Hr Hidle Hrun Hrr Hx Htx Hrx Hprio Hlow.
  destruct (EOS_scheduler_elected idle_task k l Hr Hidle)
    as (b & start & visited & -> & Hv & He).
  unfold scheduler_visits in Hv. rewrite Hrun, Hrr in Hv.
  destruct Hv as [-> ->].
  destruct He as (ts & tb & Hs & Hb & He).
  rewrite Hrun in Hs. injection Hs as <-.
  destruct He as [(-> & Hall)|(l1 & l2 & -> & Hrb & Hsb & H1 & H2)].
  - specialize (Hall x tx Hx Htx Hrx). lia.
  - destruct (decide (b = x)) as [->|Hne]; [done|].
    assert (priority tb < priority r); [|lia].
    apply (Hlow b); [list_in|done|done|done].
Qed.

(** X3: two runnable tasks of the same priority, above that of every
    other runnable task, alternate: when one of them runs the scheduler
    elects the other, and the next call elects the first again. *)
Theorem EOS_scheduler_alternates idle_task k l r x tx :
  ring (tcbs k) (run_ptr k) l → idle_task ∈ run_ptr k :: l →
  tcbs k !! run_ptr k = Some r → runnable r = true →
  x ∈ l → tcbs k !! x = Some tx → runnable tx = true →
  priority tx = priority r →
  (∀ y t, y ∈ l → y ≠ x → tcbs k !! y = Some t → runnable t = true →
     priority t < priority r) →
  EOS_scheduler idle_task k = Some (set_run_ptr x k)
  ∧ EOS_scheduler idle_task (set_run_ptr x k) = Some k.
Proof.
  intros Hr Hidle Hrun Hrr Hx Htx Hrx Hprio Hlow.
  split; [by eapply EOS_scheduler_elects_peer|].
  destruct (ring_rotate _ _ _ _ Hr Hx) as (l1 & l2 & -> & Hr').
  pose proof Hr as (Hnd & _). apply NoDup_cons in Hnd as [Hp Hnd].
  replace (Some k) with (Some (set_run_ptr (run_ptr k) (set_run_ptr x k)))
    by (by destruct k).
  apply (EOS_scheduler_elects_peer idle_task (set_run_ptr x k)
           (l2 ++ run_ptr k :: l1) tx (run_ptr k) r); simpl; try done.
  - revert Hidle. clear. list_in.
  - list_in.
  - intros y t Hy Hne Ht Hrt. rewrite Hprio.
    assert (y ≠ x) as Hyx.
    { intros ->. apply NoDup_app in Hnd as (N1 & N12 & N2).
      apply NoDup_cons in N2 as [N2 _].
      apply elem_of_app in Hy as [Hy|[?|Hy]%elem_of_cons]; [done|done|].
      apply (N12 _ Hy). left. }
    apply (Hlow y t); [|done|done|done].
    revert Hy Hne. clear. list_in.
Qed.

(** X4: when the running task is not runnable, the walk starts at the
    successor of the idle task and stops at the running task: the TCBs
    that lie between the running task and the idle task in ring order
    ([l1]) are not candidates, whatever their state and priority, and the
    election is made among the idle task and the TCBs after it. *)
Theorem EOS_scheduler_skips_past_idle idle_task k l1 l2 r :
  ring (tcbs k) (run_ptr k) (l1 ++ idle_task :: l2) →
  tcbs k !! run_ptr k = Some r → runnable r = false →
  ∃ b, EOS_scheduler idle_task k = Some (set_run_ptr b k)
    ∧ b ∈ idle_task :: l2 ∧ (b ∉ l1)
    ∧ elected_among (tcbs k) idle_task l2 b.
Proof.
  intros Hr Hrun Hrr.
  destruct (EOS_scheduler_elected idle_task k (l1 ++ idle_task :: l2) Hr)
    as (b & start & visited & Hsched & Hv & He); [list_in|].
  unfold scheduler_visits in Hv. rewrite Hrun, Hrr in Hv.
  destruct Hr as (Hnd & _). apply NoDup_cons in Hnd as [Hp Hnd].
  destruct Hv as [-> [[Heq _]|[l1' Hl]]].
  { exfalso. apply Hp. rewrite <- Heq. list_in. }
  assert (l1' = l1 ∧ visited = l2) as [-> ->].
  { assert (idle_task ∉ l1).
    { apply NoDup_app in Hnd as (_ & Hd & _). intros Hin.
      apply (Hd _ Hin). left. }
    assert (idle_task ∉ l1').
    { rewrite Hl in Hnd. apply NoDup_app in Hnd as (_ & Hd & _).
      intros Hin. apply (Hd _ Hin). left. }
    apply not_elem_of_app_cons_inv_l in Hl as (? & _ & ?); done. }
  exists b. split; [done|].
  assert (b ∈ idle_task :: l2) as Hb.
  { destruct He as (ts & tb & _ & _ & [(-> & _)|(m1 & m2 & -> & _)]);
      list_in. }
  split; [done|]. split; [|done].
  intros Hin. apply NoDup_app in Hnd as (_ & Hd & _). by apply (Hd _ Hin).
Qed.

(** C1: the election that the claim and the comment of [EOS_scheduler]
    exclude.  When the running task is not runnable the walk starts at
    the idle task and stops at the running task, so a TCB [x] that lies
    between the running task and the idle task in ring order is not
    looked at: with no runnable TCB after the idle task, the idle task is
    elected, runnable or not, although [x] is runnable.  After the call
    [run_ptr] is the idle task while another TCB of the ring is
    runnable. *)
Theorem EOS_scheduler_elects_idle_despite_runnable idle_task k l1 l2 r x tx :
  ring (tcbs k) (run_ptr k) (l1 ++ idle_task :: l2) →
  tcbs k !! run_ptr k = Some r → runnable r = false →
  (∀ y t, y ∈ l2 → tcbs k !! y = Some t → runnable t = false) →
  x ∈ l1 → tcbs k !! x = Some tx → runnable tx = true →
  ∃ k', EOS_scheduler idle_task k = Some k'
    ∧ run_ptr k' = idle_task
    ∧ tcbs k' = tcbs k
    ∧ ring (tcbs k') (run_ptr k') (l2 ++ run_ptr k :: l1)
    ∧ x ∈ l2 ++ run_ptr k :: l1
    ∧ runnable_at (tcbs k') x
    ∧ ¬ (∀ y, y ∈ l2 ++ run_ptr k :: l1 → ¬ runnable_at (tcbs k') y).
Proof.
  intros Hr Hrun Hrr Hl2 Hx Htx Hrx.
  destruct (EOS_scheduler_elected idle_task k (l1 ++ idle_task :: l2) Hr)
    as (b & start & visited & Hsched & Hv & He); [list_in|].
  unfold scheduler_visits in Hv. rewrite Hrun, Hrr in Hv.
  pose proof Hr as (Hnd & _). apply NoDup_cons in Hnd as [Hp Hnd].
  destruct Hv as [-> [[Heq _]|[l1' Hl]]].
  { exfalso. apply Hp. rewrite <- Heq. list_in. }
  assert (l1' = l1 ∧ visited = l2) as [-> ->].
  { assert (idle_task ∉ l1).
    { apply NoDup_app in Hnd as (_ & Hd & _). intros Hin.
      apply (Hd _ Hin). left. }
    assert (idle_task ∉ l1').
    { rewrite Hl in Hnd. apply NoDup_app in Hnd as (_ & Hd & _).
      intros Hin. apply (Hd _ Hin). left. }
    apply not_elem_of_app_cons_inv_l in Hl as (? & _ & ?); done. }
  assert (b = idle_task) as ->.
  { destruct He as (ts & tb & _ & Hb & [(-> & _)|(m1 & m2 & -> & Hrb & _)]);
      [done|].
    rewrite (Hl2 b tb) in Hrb; [done|list_in|done]. }
  destruct (ring_rotate _ _ _ idle_task Hr) as (m1 & m2 & Hm & Hrot);
    [list_in|].
  assert (m1 = l1 ∧ m2 = l2) as [-> ->].
  { assert (idle_task ∉ l1).
    { apply NoDup_app in Hnd as (_ & Hd & _). intros Hin.
      apply (Hd _ Hin). left. }
    assert (idle_task ∉ m1).
    { rewrite Hm in Hnd. apply NoDup_app in Hnd as (_ & Hd & _).
      intros Hin. apply (Hd _ Hin). left. }
    apply not_elem_of_app_cons_inv_l in Hm as (? & _ & ?); done. }
  assert (runnable_at (tcbs k) x) as Hxr by (by exists tx).
  exists (set_run_ptr idle_task k). simpl.
  split; [done|]. split; [done|]. split; [done|]. split; [done|].
  split; [list_in|]. split; [done|].
  intros Hno. apply (Hno x); [list_in|done].
Qed.

(** ** Quanta and switches *)

Lemma quanta_nonneg evs : 0 ≤ quanta evs.
Proof. induction evs as [|[] evs IH]; simpl; lia. Qed.

(** Two TCBs that differ in [sp] at most. *)
Lemma set_sp_same t t' v : set_sp v t' = set_sp v t → set_sp (sp t) t' = t.
Proof. destruct t, t'. unfold set_sp. simpl. congruence. Qed.

(** The switch handler saves the stack pointer of the outgoing task,
    keeps the invariant and elects a runnable TCB of the ring. *)
Lemma kernel_inv_switch idle_task psp k l :
  kernel_inv idle_task k l →
  ∃ k' l' r, PendSV_Handler idle_task psp k = Some k'
    ∧ tcbs k !! run_ptr k = Some r
    ∧ tcbs k' = <[run_ptr k := set_sp psp r]> (tcbs k)
    ∧ kernel_inv idle_task k' l'
    ∧ runnable_at (tcbs k') (run_ptr k')
    ∧ (∀ x, x ∈ run_ptr k :: l → x ≠ run_ptr k' → x ∈ l')
    ∧ run_ptr k' ∈ run_ptr k :: l.
Proof.
  intros (Hr & Hin & (i & Hi & Hir)).
  pose proof Hr as (_ & _ & r & Hrun & _).
  unfold PendSV_Handler. simpl. rewrite Hrun.
  set (k2 := set_tcbs _ _).
  assert (kernel_inv idle_task k2 l) as Hinv2.
  { split; [|split]; simpl.
    - by eapply ring_update.
    - done.
    - destruct (decide (run_ptr k = idle_task)) as [E|E].
      + exists (set_sp psp r). rewrite E, lookup_insert_eq. split; [done|].
        rewrite E, Hi in Hrun. by injection Hrun as <-.
      + exists i. by rewrite lookup_insert_ne. }
  destruct (EOS_scheduler_elects idle_task k2 l Hinv2)
    as (k3 & -> & Ht & Hp & Hrun3).
  pose proof Hinv2 as (Hr2 & Hin2 & Hi2).
  exists (EOS_ExitCritical k3).
  apply elem_of_cons in Hp as [Hp|Hp].
  - exists l, r. split; [done|]. split; [done|]. split; [done|].
    split; [|split; [done|split]].
    + unfold kernel_inv. simpl. by rewrite Ht, Hp.
    + simpl. rewrite Hp. intros x [->|Hx]%elem_of_cons; done.
    + simpl. rewrite Hp. left.
  - destruct (ring_rotate _ _ _ _ Hr2 Hp) as (l1 & l2 & -> & Hr').
    exists (l2 ++ run_ptr k :: l1), r. split; [done|]. split; [done|].
    split; [done|]. split; [|split; [done|split]].
    + unfold kernel_inv. simpl. rewrite Ht. split; [done|]. split; [|done].
      revert Hin. clear. simpl. list_in.
    + clear. simpl. intros x. list_in.
    + clear. simpl. list_in.
Qed.

(** The state the switch handler leaves. *)
Lemma PendSV_Handler_state idle_task psp k k' r :
  PendSV_Handler idle_task psp k = Some k' →
  tcbs k !! run_ptr k = Some r →
  ∃ b, k' = set_primask false
              (set_run_ptr b
                 (set_tcbs (<[run_ptr k := set_sp psp r]> (tcbs k)) k)).
Proof.
  unfold PendSV_Handler. simpl. intros H Hrun. rewrite Hrun in H.
  destruct (EOS_scheduler idle_task _) as [k3|] eqn:Hs; [|done].
  injection H as <-. unfold EOS_scheduler in Hs. simpl in Hs.
  repeat (match type of Hs with
          | (if ?c then _ else _) = _ => destruct c
          | match ?x with _ => _ end = _ => destruct x eqn:?
          end; try done); injection Hs as <-; by eexists.
Qed.

(** The end of a quantum keeps the invariant and visits every TCB but the
    running one. *)
Lemma kernel_inv_quantum idle_task k l :
  kernel_inv idle_task k l →
  ∃ k', quantum_end k = Some k'
    ∧ kernel_inv idle_task k' l
    ∧ run_ptr k' = run_ptr k
    ∧ ∀ x, tcbs k' !! x
           = if decide (x ∈ l) then timeout_visit <$> tcbs k !! x
             else tcbs k !! x.
Proof.
  intros (Hr & Hin & (i & Hi & Hir)).
  unfold quantum_end, EOS_HandleTimeout. simpl.
  pose proof (ring_length _ _ _ Hr) as Hlen.
  pose proof Hr as (Hnd & Hnull & r & Hrun & Hs). rewrite Hrun.
  apply NoDup_cons in Hnd as [Hp Hnd].
  destruct (timeout_loop_spec (run_ptr k) l (size (tcbs k)) (tcbs k) (next r))
    as (h' & Hloop & Hh'); [done|done|done|lia|].
  rewrite Hloop. eexists. split; [done|]. simpl. split; [|done].
  split; [|split]; simpl.
  - split; [by apply NoDup_cons|]. split; [done|].
    exists r. rewrite Hh', decide_False by done. split; [done|].
    eapply seg_frame; [|done]. intros x t Hx Ht.
    rewrite Hh', decide_True, Ht by done. simpl.
    eexists. split; [done|]. apply timeout_visit_next.
  - done.
  - exists i. split; [|done]. rewrite Hh', Hi. simpl.
    rewrite timeout_visit_skip; [by case_decide|].
    left. unfold runnable in Hir. apply andb_true_iff in Hir as [Hb _].
    apply Z.eqb_eq in Hb. rewrite Hb. done.
Qed.

(** Switches alone write nothing but saved stack pointers. *)
Lemma run_events_switches idle_task : ∀ evs k l,
  kernel_inv idle_task k l → quanta evs = 0 →
  ∃ k', run_events idle_task evs k = Some k'
    ∧ ∀ x t, tcbs k !! x = Some t →
        ∃ t', tcbs k' !! x = Some t' ∧ set_sp (sp t) t' = t.
Proof.
  induction evs as [|[|psp] evs IH]; intros k l Hinv Hq; simpl in *.
  - exists k. split; [done|]. intros x t Ht. exists t. by destruct t.
  - pose proof (quanta_nonneg evs). lia.
  - destruct (kernel_inv_switch _ psp _ _ Hinv)
      as (k1 & l1 & r & -> & Hrun & Ht1 & Hinv1 & _).
    destruct (IH k1 l1 Hinv1 Hq) as (k' & -> & Hsame).
    exists k'. split; [done|]. intros x t Ht.
    destruct (decide (x = run_ptr k)) as [->|Hne].
    + rewrite Hrun in Ht. injection Ht as <-.
      destruct (Hsame (run_ptr k) (set_sp psp r)) as (t' & Ht' & E).
      { by rewrite Ht1, lookup_insert_eq. }
      exists t'. split; [done|]. apply (set_sp_same _ _ psp).
      simpl in E. rewrite E. by destruct r.
    + apply Hsame. by rewrite Ht1, lookup_insert_ne.
Qed.

(** A sleeper that is not running is visited once per quantum and is not
    elected. *)
Lemma run_events_sleeper idle_task x : ∀ evs k l t,
  kernel_inv idle_task k l → x ∈ l → tcbs k !! x = Some t →
  blocked t = EOS_TIMED_OUT → paused t = 0 → 0 < timeOut t < 2 ^ 32 →
  quanta evs ≤ timeOut t →
  ∃ k' t', run_events idle_task evs k = Some k'
    ∧ tcbs k' !! x = Some t'
    ∧ set_sp (sp t) t'
      = mkTCB (sp t)
          (if decide (quanta evs = timeOut t) then 0 else EOS_TIMED_OUT)
          (next t) (timeOut t - quanta evs) (priority t) (paused t)
    ∧ (quanta evs < timeOut t → sp t' = sp t ∧ run_ptr k' ≠ x).
Proof.
  induction evs as [|[|psp] evs IH]; intros k l t Hinv Hx Ht Hb Hp Hto Hq;
    simpl in *.
  - exists k, t. split; [done|]. split; [done|].
    rewrite decide_False by lia. rewrite Z.sub_0_r.
    split; [destruct t; unfold set_sp; simpl in *; congruence|].
    intros _. split; [done|]. intros Heq. destruct Hinv as ((Hnd & _) & _).
    apply NoDup_cons in Hnd as [Hnp _]. by rewrite Heq in Hnp.
  - pose proof (quanta_nonneg evs) as Hq0.
    destruct (kernel_inv_quantum _ _ _ Hinv) as (k1 & -> & Hinv1 & Hp1 & Hh').
    assert (tcbs k1 !! x = Some (timeout_visit t)) as Hx'
      by (by rewrite Hh', decide_True, Ht).
    rewrite (timeout_visit_decrement t Hb Hp Hto) in Hx'.
    destruct (decide (timeOut t = 1)) as [H1|H1].
    + destruct (run_events_switches idle_task evs _ _ Hinv1)
        as (k' & -> & Hsame); [lia|].
      destruct (Hsame _ _ Hx') as (t' & Ht' & E). simpl in E.
      exists k', t'. split; [done|]. split; [done|].
      rewrite decide_True by lia. split; [|lia].
      rewrite E. do 2 f_equal. lia.
    + destruct (IH _ _ _ Hinv1 Hx Hx') as (k' & t' & -> & Ht' & E & Hrun);
        simpl; [done|done|lia|lia|].
      simpl in E, Hrun. exists k', t'. split; [done|]. split; [done|].
      split; [|intros ?; apply Hrun; lia].
      rewrite E. f_equal; [|lia].
      destruct (decide (quanta evs = timeOut t - 1)),
               (decide (1 + quanta evs = timeOut t)); (done || lia).
  - destruct (kernel_inv_switch _ psp _ _ Hinv)
      as (k1 & l1 & r & -> & Hrun & Ht1 & Hinv1 & (tb & Htb & Hrb) & Hmem & _).
    assert (x ≠ run_ptr k) as Hxr.
    { intros ->. destruct Hinv as ((Hnd & _) & _).
      by apply NoDup_cons in Hnd as [? _]. }
    assert (tcbs k1 !! x = Some t) as Ht'
      by (by rewrite Ht1, lookup_insert_ne).
    assert (x ∈ l1) as Hx1.
    { apply Hmem; [by right|]. intros ->. rewrite Ht' in Htb.
      injection Htb as <-. unfold runnable in Hrb. rewrite Hb in Hrb. done. }
    apply (IH _ l1); done.
Qed.

(** A paused TCB that is not running is neither written nor elected. *)
Lemma run_events_paused idle_task x : ∀ evs k l t,
  kernel_inv idle_task k l → x ∈ l → tcbs k !! x = Some t → paused t ≠ 0 →
  ∃ k', run_events idle_task evs k = Some k'
    ∧ tcbs k' !! x = Some t ∧ run_ptr k' ≠ x.
Proof.
  induction evs as [|[|psp] evs IH]; intros k l t Hinv Hx Ht Hp; simpl.
  - exists k. split; [done|]. split; [done|].
    intros Heq. destruct Hinv as ((Hnd & _) & _).
    apply NoDup_cons in Hnd as [Hnp _]. by rewrite Heq in Hnp.
  - destruct (kernel_inv_quantum _ _ _ Hinv) as (k1 & -> & Hinv1 & Hp1 & Hh').
    assert (tcbs k1 !! x = Some t) as Hx'.
    { rewrite Hh', decide_True, Ht by done. simpl.
      rewrite timeout_visit_skip; [done|]. right. by left. }
    by apply (IH _ l).
  - destruct (kernel_inv_switch _ psp _ _ Hinv)
      as (k1 & l1 & r & -> & Hrun & Ht1 & Hinv1 & (tb & Htb & Hrb) & Hmem & _).
    assert (x ≠ run_ptr k) as Hxr.
    { intros ->. destruct Hinv as ((Hnd & _) & _).
      by apply NoDup_cons in Hnd as [? _]. }
    assert (tcbs k1 !! x = Some t) as Ht'
      by (by rewrite Ht1, lookup_insert_ne).
    assert (x ∈ l1) as Hx1.
    { apply Hmem; [by right|]. intros ->. rewrite Ht' in Htb.
      injection Htb as <-. unfold runnable in Hrb.
      apply andb_true_iff in Hrb as [_ Hrb]. apply Z.eqb_eq in Hrb. done. }
    by apply (IH _ l1).
Qed.

(** X5: in a state that satisfies the kernel invariant the switch handler
    returns with interrupts unmasked; it writes the saved stack pointer
    of the outgoing task and [run_ptr] and nothing else; the task it
    elects is a runnable TCB of the ring, and the invariant holds
    again. *)
Theorem PendSV_Handler_switches idle_task psp k l :
  kernel_inv idle_task k l →
  ∃ b r l',
    tcbs k !! run_ptr k = Some r
    ∧ PendSV_Handler idle_task psp k
      = Some (set_primask false
                (set_run_ptr b
                   (set_tcbs (<[run_ptr k := set_sp psp r]> (tcbs k)) k)))
    ∧ b ∈ run_ptr k :: l
    ∧ runnable_at (<[run_ptr k := set_sp psp r]> (tcbs k)) b
    ∧ kernel_inv idle_task
        (set_run_ptr b (set_tcbs (<[run_ptr k := set_sp psp r]> (tcbs k)) k))
        l'.
Proof.
  intros Hinv.
  destruct (kernel_inv_switch idle_task psp k l Hinv)
    as (k' & l' & r & Hk' & Hrun & Ht & Hinv' & Hrun' & _ & Hin).
  destruct (PendSV_Handler_state _ _ _ _ _ Hk' Hrun) as [b ->].
  exists b, r, l'. done.
Qed.

(** X6: a task other than the idle one that calls [EOS_Delay timeout] and
    is switched out sleeps for exactly [max timeout 1] quanta, whatever
    the interleaving of the ticks that end a quantum and of the
    switches that follow: while fewer quanta have ended it is still
    timed out, its timeout is what is left, its [sp] is the one saved
    when it was switched out, and it is not elected; when the last of
    them ends its [blocked] field is cleared and its timeout is zero.
    Its [next], [priority] and [paused] fields never change. *)
Theorem EOS_Delay_sleeps_whole_quanta idle_task k l r timeout psp evs :
  kernel_inv idle_task k l → run_ptr k ≠ idle_task →
  tcbs k !! run_ptr k = Some r → paused r = 0 →
  0 ≤ timeout < 2 ^ 32 →
  quanta evs ≤ Z.max timeout 1 →
  ∃ k1 k' t',
    EOS_Delay timeout k = Some k1
    ∧ run_events idle_task (Switch psp :: evs) k1 = Some k'
    ∧ tcbs k' !! run_ptr k = Some t'
    ∧ blocked t' = (if decide (quanta evs = Z.max timeout 1)
                    then 0 else EOS_TIMED_OUT)
    ∧ timeOut t' = Z.max timeout 1 - quanta evs
    ∧ next t' = next r ∧ priority t' = priority r ∧ paused t' = 0
    ∧ (quanta evs < Z.max timeout 1 →
       sp t' = psp ∧ run_ptr k' ≠ run_ptr k).
Proof.
  intros Hinv Hidle Hrun Hp Hto Hq.
  unfold EOS_Delay. simpl. rewrite Hrun.
  set (T := if timeout =? 0 then 1 else timeout).
  assert (T = Z.max timeout 1) as HT.
  { unfold T. destruct (timeout =? 0) eqn:Hz;
      [apply Z.eqb_eq in Hz|apply Z.eqb_neq in Hz]; lia. }
  set (r' := set_timeOut T (set_blocked EOS_TIMED_OUT r)).
  set (k1 := EOS_Suspend (EOS_ExitCritical
               (set_tcbs (<[run_ptr k := r']> (tcbs k)) (EOS_EnterCritical k)))).
  assert (kernel_inv idle_task k1 l) as Hinv1.
  { destruct Hinv as (Hr & Hin & (i & Hi & Hir)). split; [|split]; simpl.
    - by eapply ring_update.
    - done.
    - exists i. by rewrite lookup_insert_ne. }
  assert (tcbs k1 !! run_ptr k = Some r') as Hr'
    by (simpl; by rewrite lookup_insert_eq).
  exists k1. simpl.
  destruct (kernel_inv_switch _ psp _ _ Hinv1)
    as (k2 & l2 & r1 & -> & Hrun1 & Ht2 & Hinv2 & (tb & Htb & Hrb) & Hmem & _).
  change (run_ptr k1) with (run_ptr k) in *.
  rewrite Hr' in Hrun1. injection Hrun1 as <-.
  assert (tcbs k2 !! run_ptr k = Some (set_sp psp r')) as Hs
    by (by rewrite Ht2, lookup_insert_eq).
  assert (run_ptr k ∈ l2) as Hx2.
  { apply Hmem; [left|]. intros Heq.
    rewrite Heq, Htb in Hs. injection Hs as ->. done. }
  destruct (run_events_sleeper idle_task (run_ptr k) evs k2 l2 _ Hinv2 Hx2 Hs)
    as (k' & t' & -> & Ht' & E & Hne); simpl; [done|done|lia|lia|].
  simpl in E, Hne. exists k', t'. split; [done|]. split; [done|].
  split; [done|]. rewrite <- HT.
  destruct t'. unfold set_sp in E. simpl in *. injection E as -> -> -> -> ->.
  split; [done|]. split; [done|]. split; [done|]. split; [done|].
  split; [done|]. exact Hne.
Qed.

(** X7: pausing a task that is not running (and is not the idle task)
    succeeds, and from then on no sequence of quantum ends and switches
    writes its TCB or elects it. *)
Theorem EOS_Pause_freezes_task idle_task k l task t :
  kernel_inv idle_task k l → task ∈ l → task ≠ idle_task →
  tcbs k !! task = Some t → paused t = 0 →
  ∃ k1, EOS_Pause task k = Some (EOS_OK, k1)
    ∧ ∀ evs, ∃ k', run_events idle_task evs k1 = Some k'
        ∧ tcbs k' !! task = Some (set_paused EOS_PAUSED t)
        ∧ run_ptr k' ≠ task.
Proof.
  intros Hinv Hin Hidle Ht Hp.
  pose proof Hinv as ((Hnd & Hnull & _) & _).
  assert (task ≠ NULL) as Hnn by (intros ->; apply Hnull; by right).
  assert (task ≠ run_ptr k) as Hnr.
  { intros ->. by apply NoDup_cons in Hnd as [? _]. }
  unfold EOS_Pause. apply Z.eqb_neq in Hnn. rewrite Hnn. simpl.
  rewrite Ht, Hp. simpl. apply Z.eqb_neq in Hnr. rewrite Hnr.
  eexists. split; [done|]. intros evs.
  apply (run_events_paused idle_task task evs _ l).
  - destruct Hinv as (Hr & Hi & (i & Hi' & Hir)). split; [|split]; simpl.
    + by eapply ring_update.
    + done.
    + exists i. by rewrite lookup_insert_ne.
  - done.
  - simpl. by rewrite lookup_insert_eq.
  - done.
Qed.

(** ** The tick handler *)

(** On a ring [EOS_HandleTimeout] returns and keeps the ring. *)
Lemma EOS_HandleTimeout_ring k l :
  ring (tcbs k) (run_ptr k) l →
  ∃ h', EOS_HandleTimeout k = Some (set_tcbs h' k) ∧ ring h' (run_ptr k) l.
Proof.
  intros Hr. unfold EOS_HandleTimeout.
  pose proof (ring_length _ _ _ Hr) as Hlen.
  pose proof Hr as (Hnd & Hnull & r & Hrun & Hs). rewrite Hrun.
  apply NoDup_cons in Hnd as [Hp Hnd].
  destruct (timeout_loop_spec (run_ptr k) l (size (tcbs k)) (tcbs k) (next r))
    as (h' & Hloop & Hh'); [done|done|done|lia|].
  rewrite Hloop. exists h'. split; [done|].
  split; [by apply NoDup_cons|]. split; [done|].
  exists r. rewrite Hh', decide_False by done. split; [done|].
  eapply seg_frame; [|done]. intros x t Hx Ht.
  rewrite Hh', decide_True, Ht by done. simpl.
  eexists. split; [done|]. apply timeout_visit_next.
Qed.

(** [EOS_HandleTimeout] reads and writes the TCBs only. *)
Lemma EOS_HandleTimeout_frame k h' k2 :
  EOS_HandleTimeout k = Some (set_tcbs h' k) →
  tcbs k2 = tcbs k → run_ptr k2 = run_ptr k →
  EOS_HandleTimeout k2 = Some (set_tcbs h' k2).
Proof.
  unfold EOS_HandleTimeout. intros H -> ->.
  destruct (tcbs k !! run_ptr k); [|done].
  destruct (timeout_loop _ _ _ _); [|done].
  injection H as H. by rewrite H.
Qed.

Lemma timeouts_frame : ∀ (n : nat) k l k2,
  ring (tcbs k) (run_ptr k) l →
  tcbs k2 = tcbs k → run_ptr k2 = run_ptr k →
  ∃ k' k2', timeouts n k = Some k' ∧ timeouts n k2 = Some k2'
    ∧ tcbs k2' = tcbs k' ∧ run_ptr k' = run_ptr k
    ∧ run_ptr k2' = run_ptr k ∧ pendsv k2' = pendsv k2
    ∧ primask k2' = primask k2.
Proof.
  induction n as [|n IH]; intros k l k2 Hr Ht Hp; simpl.
  - exists k, k2. done.
  - destruct (EOS_HandleTimeout_ring k l Hr) as (h' & Hk & Hr').
    rewrite Hk, (EOS_HandleTimeout_frame k h' k2 Hk Ht Hp).
    destruct (IH (set_tcbs h' k) l (set_tcbs h' k2))
      as (k' & k2' & -> & -> & ?); [done|done|done|].
    exists k', k2'. done.
Qed.

(** A tick that completes a period is the end of a quantum. *)
Lemma SysTick_Handler_quantum s :
  scheduler_enable s = 1 → task_period s ≤ u32 (eos_tickCounter s + 1) →
  sys_kernel <$> SysTick_Handler s = quantum_end (sys_kernel s).
Proof.
  intros Hen Hle. unfold SysTick_Handler, quantum_end.
  rewrite Hen, (proj2 (Z.leb_le _ _) Hle). simpl.
  by destruct (EOS_HandleTimeout _).
Qed.

(** X8: with the scheduler enabled, a quantum ends every
    [max task_period 1] ticks (a period of zero behaves as a period of
    one): after [n] ticks the TCBs are what as many calls of
    [EOS_HandleTimeout] as whole periods have elapsed make of them, the
    counter holds the ticks of the period in progress, the running task
    is the same, and a switch is pending as soon as one period has
    elapsed. *)
Theorem SysTick_Handler_quantum_every_period : ∀ (n : nat) s l,
  ring (tcbs (sys_kernel s)) (run_ptr (sys_kernel s)) l →
  scheduler_enable s = 1 →
  0 ≤ task_period s < 2 ^ 32 →
  0 ≤ eos_tickCounter s < Z.max (task_period s) 1 →
  ∃ s' k',
    ticks n s = Some s'
    ∧ timeouts (Z.to_nat ((eos_tickCounter s + Z.of_nat n)
                          / Z.max (task_period s) 1)) (sys_kernel s)
      = Some k'
    ∧ tcbs (sys_kernel s') = tcbs k'
    ∧ run_ptr (sys_kernel s') = run_ptr (sys_kernel s)
    ∧ eos_tickCounter s'
      = (eos_tickCounter s + Z.of_nat n) mod Z.max (task_period s) 1
    ∧ (Z.max (task_period s) 1 ≤ eos_tickCounter s + Z.of_nat n
       ∨ pendsv (sys_kernel s) = true →
       pendsv (sys_kernel s') = true)
    ∧ task_period s' = task_period s
    ∧ scheduler_enable s' = 1.
Proof.
  induction n as [|n IH]; intros s l Hr Hen Hper Hc.
  - exists s, (sys_kernel s). simpl. rewrite Z.add_0_r.
    rewrite Z.div_small, Z.mod_small by lia. simpl.
    repeat split; try done. intros [?|?]; [lia|done].
  - set (p := Z.max (task_period s) 1) in *.
    assert (u32 (eos_tickCounter s + 1) = eos_tickCounter s + 1) as Hu
      by (unfold u32; apply Z.mod_small; lia).
    cbn [ticks]. unfold SysTick_Handler. rewrite Hu, Hen. simpl.
    destruct (task_period s <=? eos_tickCounter s + 1) eqn:Hle; simpl.
    + apply Z.leb_le in Hle.
      assert (eos_tickCounter s + 1 = p) as Hp by lia.
      destruct (EOS_HandleTimeout_ring (sys_kernel s) l Hr) as (h' & Hk & Hr').
      rewrite (EOS_HandleTimeout_frame (sys_kernel s) h'
                 (EOS_EnterCritical (sys_kernel s)) Hk) by done.
      set (s1 := mkSystem _ _ _ 0).
      destruct (IH s1 l) as (s' & k1' & Hs' & Hk1' & Ht' & Hp' & Hc' & Hpend
                             & Hper' & Hen'); [done|done|done|simpl; lia|].
      simpl in Hk1', Hc', Hp', Hpend, Hper'. fold p in Hk1', Hc', Hpend.
      rewrite ?Z.add_0_l in Hk1', Hc', Hpend.
      replace ((eos_tickCounter s + Z.of_nat (S n)) / p)
        with (1 + Z.of_nat n / p)
        by (replace (eos_tickCounter s + Z.of_nat (S n))
              with (1 * p + Z.of_nat n) by lia;
            rewrite Z.div_add_l by lia; lia).
      replace (Z.to_nat (1 + Z.of_nat n / p))
        with (S (Z.to_nat (Z.of_nat n / p)))
        by (pose proof (Z.div_pos (Z.of_nat n) p); lia).
      cbn [timeouts]. rewrite Hk.
      destruct (timeouts_frame (Z.to_nat (Z.of_nat n / p))
                  (set_tcbs h' (sys_kernel s)) l (sys_kernel s1))
        as (ka & kb & Hka & Hkb & Htab & Hpa & _); [done|done|done|].
      unfold s1 in Hkb. simpl in Hkb. rewrite Hk1' in Hkb. injection Hkb as <-.
      exists s', ka. split; [done|]. split; [done|].
      split; [congruence|]. split; [done|]. split.
      * rewrite Hc'. replace (eos_tickCounter s + Z.of_nat (S n))
          with (Z.of_nat n + 1 * p) by lia.
        by rewrite Z.mod_add by lia.
      * split; [|done]. intros _. apply Hpend. by right.
    + apply Z.leb_gt in Hle.
      set (s1 := mkSystem _ _ _ _).
      destruct (IH s1 l) as (s' & k1' & Hs' & Hk1' & Ht' & Hp' & Hc' & Hpend
                             & Hper' & Hen'); [done|done|done|simpl; lia|].
      simpl in Hk1', Hc', Hp', Hpend, Hper'. fold p in Hk1', Hc', Hpend.
      replace (eos_tickCounter s + Z.of_nat (S n))
        with (eos_tickCounter s + 1 + Z.of_nat n) by lia.
      destruct (timeouts_frame
                  (Z.to_nat ((eos_tickCounter s + 1 + Z.of_nat n) / p))
                  (sys_kernel s) l (sys_kernel s1))
        as (ka & kb & Hka & Hkb & Htab & Hpa & _); [done|done|done|].
      unfold s1 in Hkb. simpl in Hkb. rewrite Hk1' in Hkb. injection Hkb as <-.
      exists s', ka. split; [done|]. split; [done|].
      split; [congruence|]. split; [done|]. split; [done|].
      split; [|done]. intros [?|?]; apply Hpend; [left; lia|by right].
Qed.

(** X9: as long as [scheduler_enable] is not 1 the tick handler neither
    writes a TCB nor requests a switch; it only counts, modulo [2 ^ 32]. *)
Theorem SysTick_Handler_idle_until_enabled : ∀ (n : nat) s,
  scheduler_enable s ≠ 1 → 0 ≤ eos_tickCounter s < 2 ^ 32 →
  ∃ s', ticks n s = Some s'
    ∧ tcbs (sys_kernel s') = tcbs (sys_kernel s)
    ∧ run_ptr (sys_kernel s') = run_ptr (sys_kernel s)
    ∧ pendsv (sys_kernel s') = pendsv (sys_kernel s)
    ∧ eos_tickCounter s' = (eos_tickCounter s + Z.of_nat n) mod 2 ^ 32.
Proof.
  induction n as [|n IH]; intros s Hen Hc.
  - exists s. rewrite Z.add_0_r, Z.mod_small by done. done.
  - cbn [ticks]. unfold SysTick_Handler.
    apply Z.eqb_neq in Hen as Hen'. rewrite Hen', andb_false_r.
    set (s1 := mkSystem _ _ _ _).
    destruct (IH s1) as (s' & -> & Ht & Hp & Hpend & Hcnt).
    + done.
    + simpl. unfold u32. apply Z.mod_pos_bound. lia.
    + exists s'. split; [done|]. split; [done|]. split; [done|].
      split; [done|]. rewrite Hcnt. simpl. unfold u32.
      rewrite Zplus_mod_idemp_l. f_equal. lia.
Qed.

(** ** Pause and resume *)

Lemma EOS_Pause_ok k task t :
  task ≠ NULL → tcbs k !! task = Some t → paused t = 0 →
  EOS_Pause task k
  = Some (EOS_OK,
          set_primask false
            (set_tcbs (<[task := set_paused EOS_PAUSED t]> (tcbs k))
               (if decide (task = run_ptr k) then set_pendsv true k else k))).
Proof.
  intros Hnn%Z.eqb_neq Ht Hp. unfold EOS_Pause. rewrite Hnn. simpl.
  rewrite Ht, Hp. simpl. case_decide as Hrun.
  - rewrite Hrun, Z.eqb_refl. done.
  - apply Z.eqb_neq in Hrun as ->. done.
Qed.

Lemma EOS_Resume_ok k task t :
  task ≠ NULL → tcbs k !! task = Some t → paused t = EOS_PAUSED →
  EOS_Resume task k
  = Some (EOS_OK,
          set_primask false (set_tcbs (<[task := set_paused 0 t]> (tcbs k)) k)).
Proof.
  intros Hnn%Z.eqb_neq Ht Hp. unfold EOS_Resume. rewrite Hnn. simpl.
  by rewrite Ht, Hp.
Qed.

(** X10: pausing a task that is not paused and resuming it restores the
    kernel state, but for the interrupt mask, which is cleared, and for
    the switch that pausing the running task requests.  In between a
    second [EOS_Pause] is refused, and after the round trip a second
    [EOS_Resume] is refused; both refusals leave interrupts masked. *)
Theorem EOS_Pause_Resume_round_trip k task t :
  task ≠ NULL → tcbs k !! task = Some t → paused t = 0 →
  ∃ k1 k2,
    EOS_Pause task k = Some (EOS_OK, k1)
    ∧ EOS_Pause task k1 = Some (EOS_ERROR, set_primask true k1)
    ∧ EOS_Resume task k1 = Some (EOS_OK, k2)
    ∧ k2 = set_primask false
             (if decide (task = run_ptr k) then set_pendsv true k else k)
    ∧ EOS_Resume task k2 = Some (EOS_ERROR, set_primask true k2).
Proof.
  intros Hnn Ht Hp.
  assert (set_paused 0 (set_paused EOS_PAUSED t) = t) as Hback
    by (destruct t; simpl in *; by subst).
  set (k0 := if decide (task = run_ptr k) then set_pendsv true k else k).
  assert (tcbs k0 = tcbs k) as Hk0 by (unfold k0; by case_decide).
  set (k1 := set_primask false
               (set_tcbs (<[task := set_paused EOS_PAUSED t]> (tcbs k)) k0)).
  assert (tcbs k1 !! task = Some (set_paused EOS_PAUSED t)) as Ht1
    by (simpl; by rewrite lookup_insert_eq).
  exists k1, (set_primask false k0).
  split; [by apply EOS_Pause_ok|].
  split; [by eapply EOS_Pause_paused_stays_masked|].
  split.
  - rewrite (EOS_Resume_ok k1 task _ Hnn Ht1) by done.
    simpl. rewrite insert_insert_eq, Hback, insert_id by done.
    rewrite <- Hk0. by destruct k0.
  - split; [done|].
    eapply EOS_Resume_unpaused_stays_masked; [done| |].
    + simpl. by rewrite Hk0.
    + by rewrite Hp.
Qed.

(** ** Semaphores *)

Lemma sem_acquire_loop_bounds semaphore w : ∀ k,
  sem_env_ok semaphore w → ring_ok k → sem_ok semaphore k →
  match sem_acquire_loop w semaphore k with
  | Returned st k' => st = EOS_OK ∧ primask k' = false
                      ∧ ring_ok k' ∧ sem_ok semaphore k'
  | Suspended k' =>
    ring_ok k' ∧ sem_ok semaphore k'
    ∧ (∃ s, sems k' !! semaphore = Some s ∧ sem_count s = 0)
    ∧ ∃ r, tcbs k' !! run_ptr k' = Some r ∧ blocked r = semaphore
  | Undefined => False
  end.
Proof.
  induction w as [|e w IH]; intros k Hw Hr (s & Hs & (Hc & Hm)).
  - simpl. rewrite Hs.
    destruct (0 <? sem_count s) eqn:Hpos.
    + apply Z.ltb_lt in Hpos. split; [done|]. split; [done|].
      split; [done|]. eexists. simpl. rewrite lookup_insert_eq.
      split; [done|]. unfold sem_inv, u32. simpl.
      rewrite Z.mod_small by lia. lia.
    + apply Z.ltb_ge in Hpos.
      destruct (ring_ok_running k Hr) as [r Hrun]. rewrite Hrun. simpl.
      split; [by apply ring_ok_tag|]. split; [by exists s|].
      split; [exists s; split; [done|lia]|].
      eexists. by rewrite lookup_insert_eq.
  - simpl. rewrite Hs. apply Forall_cons in Hw as [He Hw].
    destruct (0 <? sem_count s) eqn:Hpos.
    + apply Z.ltb_lt in Hpos. split; [done|]. split; [done|].
      split; [done|]. eexists. simpl. rewrite lookup_insert_eq.
      split; [done|]. unfold sem_inv, u32. simpl.
      rewrite Z.mod_small by lia. lia.
    + destruct (ring_ok_running k Hr) as [r Hrun]. rewrite Hrun.
      set (k2 := EOS_Suspend _).
      destruct (He k2) as [Hr2 Hs2].
      { destruct (ring_ok_tag k r semaphore Hrun Hr) as [l Hl]. by exists l. }
      { by exists s. }
      apply IH; [done| |].
      * destruct Hr2 as [l Hl]. by exists l.
      * destruct Hs2 as (s2 & ? & ?). by exists s2.
Qed.

(** X11: the count of a semaphore stays within [0, max_count].
    [EOS_SemaphoreRelease] returns and keeps the bound and the ring;
    [EOS_SemaphoreAcquire], in an environment that keeps them, either
    returns [EOS_OK] with interrupts unmasked, or is suspended with the
    count at zero and the caller tagged with the semaphore; it never
    returns an error and never leaves the bound. *)
Theorem EOS_Semaphore_count_bounds k w semaphore :
  ring_ok k → sem_ok semaphore k → sem_env_ok semaphore w →
  (∃ st k', EOS_SemaphoreRelease semaphore k = Some (st, k')
            ∧ ring_ok k' ∧ sem_ok semaphore k')
  ∧ match EOS_SemaphoreAcquire w semaphore k with
    | Returned st k' => st = EOS_OK ∧ primask k' = false
                        ∧ ring_ok k' ∧ sem_ok semaphore k'
    | Suspended k' =>
      ring_ok k' ∧ sem_ok semaphore k'
      ∧ (∃ s, sems k' !! semaphore = Some s ∧ sem_count s = 0)
      ∧ ∃ r, tcbs k' !! run_ptr k' = Some r ∧ blocked r = semaphore
    | Undefined => False
    end.
Proof.
  intros Hr Hok Hw. split.
  - destruct Hok as (s & Hs & (Hc & Hm)). destruct Hr as [l Hr].
    unfold EOS_SemaphoreRelease. simpl. rewrite Hs.
    destruct (max_count s <=? sem_count s) eqn:Hfull.
    + eexists _, _. split; [done|]. split; [by exists l|]. by exists s.
    + apply Z.leb_gt in Hfull.
      set (k2 := set_sems _ _).
      destruct (EOS_TaskUnblock_total semaphore k2 l Hr) as [k3 Hk3].
      rewrite Hk3. eexists _, _. split; [done|].
      pose proof (EOS_TaskUnblock_ring semaphore k2 k3 l Hr Hk3) as Hr3.
      apply EOS_TaskUnblock_frame in Hk3 as (Hsems & _).
      split; [by exists l|]. eexists. simpl. rewrite Hsems. simpl.
      rewrite lookup_insert_eq. split; [done|].
      unfold sem_inv, u32. simpl. rewrite Z.mod_small by lia. lia.
  - unfold EOS_SemaphoreAcquire.
    apply sem_acquire_loop_bounds; [done| |done].
    destruct Hr as [l Hr]. by exists l.
Qed.

(** X12: on a semaphore whose count is positive [EOS_SemaphoreAcquire]
    returns at once, whatever the environment, takes one token and
    writes no TCB; the [EOS_SemaphoreRelease] that follows succeeds and
    restores the semaphores. *)
Theorem EOS_SemaphoreAcquire_Release_round_trip k l w semaphore s :
  ring (tcbs k) (run_ptr k) l → sems k !! semaphore = Some s →
  0 < sem_count s ≤ max_count s → max_count s < 2 ^ 32 →
  ∃ k1 k2,
    EOS_SemaphoreAcquire w semaphore k = Returned EOS_OK k1
    ∧ sems k1 = <[semaphore := mkSem (sem_count s - 1) (max_count s)]> (sems k)
    ∧ tcbs k1 = tcbs k
    ∧ EOS_SemaphoreRelease semaphore k1 = Some (EOS_OK, k2)
    ∧ sems k2 = sems k.
Proof.
  intros Hr Hs Hc Hm.
  unfold EOS_SemaphoreAcquire.
  assert (sem_acquire_loop w semaphore (EOS_EnterCritical k)
          = Returned EOS_OK
              (EOS_ExitCritical
                 (set_sems (<[semaphore := mkSem (sem_count s - 1) (max_count s)]>
                              (sems k)) (EOS_EnterCritical k)))) as ->.
  { destruct w; simpl; rewrite Hs;
      (destruct (0 <? sem_count s) eqn:Hpos; [|apply Z.ltb_ge in Hpos; lia]);
      unfold set_sem_count, u32; by rewrite Z.mod_small by lia. }
  set (k1 := EOS_ExitCritical _).
  assert (sems k1 !! semaphore
          = Some (mkSem (sem_count s - 1) (max_count s))) as Hs1
    by (simpl; by rewrite lookup_insert_eq).
  enough (∃ k2, EOS_SemaphoreRelease semaphore k1 = Some (EOS_OK, k2)
                ∧ sems k2 = sems k) as (k2 & ? & ?) by (by exists k1, k2).
  unfold EOS_SemaphoreRelease.
  change (sems (EOS_EnterCritical k1)) with (sems k1). rewrite Hs1.
  cbn [sem_count max_count].
  destruct (max_count s <=? sem_count s - 1) eqn:Hfull;
    [apply Z.leb_le in Hfull; lia|].
  set (k2 := set_sems _ _).
  destruct (EOS_TaskUnblock_total semaphore k2 l Hr) as [k3 Hk3].
  rewrite Hk3. exists (EOS_ExitCritical k3). split; [done|].
  apply EOS_TaskUnblock_frame in Hk3 as (Hsems & _).
  simpl. rewrite Hsems. simpl. rewrite insert_insert_eq.
  unfold set_sem_count, u32. simpl.
  replace ((sem_count s - 1 + 1) mod 2 ^ 32) with (sem_count s)
    by (rewrite Z.mod_small; lia).
  apply insert_id. rewrite Hs. by destruct s.
Qed.

Lemma acquire_n_spec semaphore : ∀ (n : nat) k c m,
  sems k !! semaphore = Some (mkSem c m) →
  Z.of_nat n ≤ c < 2 ^ 32 →
  ∃ k', acquire_n n semaphore k = Some k'
    ∧ sems k' !! semaphore = Some (mkSem (c - Z.of_nat n) m)
    ∧ tcbs k' = tcbs k ∧ run_ptr k' = run_ptr k.
Proof.
  induction n as [|n IH]; intros k c m Hs Hc.
  - exists k. simpl. rewrite Z.sub_0_r. done.
  - simpl. unfold EOS_SemaphoreAcquire. simpl. rewrite Hs. simpl.
    destruct (0 <? c) eqn:Hpos; [|apply Z.ltb_ge in Hpos; lia].
    set (k1 := EOS_ExitCritical _).
    destruct (IH k1 (c - 1) m) as (k' & -> & Hs' & Ht & Hp).
    + unfold k1, set_sem_count, u32. simpl. rewrite lookup_insert_eq.
      by rewrite Z.mod_small by lia.
    + lia.
    + exists k'. split; [done|]. split; [|done].
      rewrite Hs'. do 2 f_equal. lia.
Qed.

(** X13: a semaphore created with [count] tokens lets exactly [count]
    calls of [EOS_SemaphoreAcquire] through without waiting, each taking
    one token and writing no TCB; the next call is suspended with the
    caller tagged with the semaphore and the count still zero. *)
Theorem EOS_Semaphore_counts_tokens semaphore count k r (n : nat) :
  semaphore ≠ NULL → tcbs k !! run_ptr k = Some r →
  0 ≤ count < 2 ^ 8 → Z.of_nat n ≤ count →
  ∃ k', acquire_n n semaphore (snd (EOS_SemaphoreNew semaphore count k))
        = Some k'
    ∧ sems k' !! semaphore = Some (mkSem (count - Z.of_nat n) count)
    ∧ tcbs k' = tcbs k ∧ run_ptr k' = run_ptr k
    ∧ (Z.of_nat n = count →
       ∃ k'', EOS_SemaphoreAcquire [] semaphore k' = Suspended k''
         ∧ tcbs k'' !! run_ptr k = Some (set_blocked semaphore r)
         ∧ sems k'' = sems k').
Proof.
  intros Hnn%Z.eqb_neq Hrun Hc Hn.
  unfold EOS_SemaphoreNew. rewrite Hnn. simpl.
  assert (u8 count = count) as -> by (unfold u8; apply Z.mod_small; lia).
  set (k0 := set_sems _ k).
  destruct (acquire_n_spec semaphore n k0 count count)
    as (k' & Hk' & Hs' & Ht & Hp).
  { unfold k0. simpl. by rewrite lookup_insert_eq. }
  { lia. }
  exists k'. split; [done|]. split; [done|]. split; [done|]. split; [done|].
  intros Hzero. unfold EOS_SemaphoreAcquire. simpl. rewrite Hs'. simpl.
  destruct (0 <? count - Z.of_nat n) eqn:Hpos; [apply Z.ltb_lt in Hpos; lia|].
  rewrite Hp, Ht. simpl. rewrite Hrun. eexists. split; [done|]. simpl.
  by rewrite lookup_insert_eq.
Qed.

(** ** Thread creation *)

(** X14: the outcome of [EOS_ThreadNew] on a ring, for a stack size
    whose size in bytes fits in 32 bits (beyond that the size passed to
    [malloc] wraps around) and a stack, passed in or allocated, of that
    many words.  When the stack size is below 64 words, the priority is
    above [PRIORITY_HIGH], or no stack is passed and none can be
    allocated, the call returns [NULL] and leaves the kernel state
    unchanged.  Otherwise, when the control block cannot be allocated,
    the call has no defined behaviour: it passes a pointer into the stack
    to [free].  Otherwise it returns the fresh TCB, which is runnable, has
    the priority asked for and points at the running task; [run_ptr], the
    semaphores and the queues are unchanged. *)
Theorem EOS_ThreadNew_error_iff k l control_block stack function prio
    task_stack stack_size use_fpu :
  ring (tcbs k) (run_ptr k) l →
  0 ≤ stack_size < 2 ^ 30 →
  let o := EOS_ThreadNew control_block stack function prio task_stack
             stack_size use_fpu k in
  if decide (stack_size < 64 ∨ PRIORITY_HIGH < prio
             ∨ (task_stack = NULL ∧ stack = NULL))
  then o = Some (NULL, k)
  else if decide (control_block = NULL) then o = None
  else ∃ k' t,
    o = Some (control_block, k')
    ∧ run_ptr k' = run_ptr k
    ∧ sems k' = sems k ∧ queues k' = queues k
    ∧ tcbs k' !! control_block = Some t
    ∧ blocked t = 0 ∧ paused t = 0 ∧ timeOut t = 0
    ∧ priority t = u8 prio ∧ next t = run_ptr k.
Proof.
  intros Hr _. simpl. unfold EOS_ThreadNew.
  destruct (stack_size <? 64) eqn:H1.
  { apply Z.ltb_lt in H1. rewrite decide_True; [done|by left]. }
  apply Z.ltb_ge in H1.
  destruct (PRIORITY_HIGH <? prio) eqn:H2.
  { apply Z.ltb_lt in H2. rewrite decide_True; [done|right; by left]. }
  apply Z.ltb_ge in H2.
  destruct ((task_stack =? NULL) && (stack =? NULL)) eqn:H3.
  { apply andb_true_iff in H3 as [?%Z.eqb_eq ?%Z.eqb_eq].
    rewrite decide_True; [done|by repeat right]. }
  rewrite decide_False.
  2: { intros [?|[?|[-> ->]]]; [lia|lia|done]. }
  destruct (decide (control_block = NULL)) as [H4|H4].
  { by rewrite (proj2 (Z.eqb_eq _ _) H4). }
  rewrite (proj2 (Z.eqb_neq _ _) H4).
  pose proof (ring_length _ _ _ Hr) as Hlen.
  pose proof Hr as (Hnd & Hnull & r & Hrun & Hs).
  apply NoDup_cons in Hnd as [Hp Hnd].
  destruct (find_pred_spec (tcbs k) (run_ptr k) l (size (tcbs k)) (run_ptr k))
    as (z & v0 & Hv & ->); [simpl; eauto|done|lia|].
  assert (z ∈ run_ptr k :: l) as Hz by (rewrite Hv; list_in).
  destruct (ring_lookup _ _ _ _ Hr Hz) as [tz Htz]. rewrite Htz.
  eexists _, _. split; [done|]. simpl. rewrite lookup_insert_eq. done.
Qed.

(** ** The items of a queue *)

Lemma read_bytes_eq off n mem :
  0 ≤ off → 0 ≤ n → off + n ≤ Z.of_nat (length mem) →
  read_bytes off n mem = Some (take (Z.to_nat n) (drop (Z.to_nat off) mem)).
Proof.
  intros H1 H2 H3. unfold read_bytes.
  by rewrite (proj2 (Z.leb_le _ _) H1), (proj2 (Z.leb_le _ _) H2),
    (proj2 (Z.leb_le _ _) H3).
Qed.

Lemma write_bytes_eq off src mem :
  0 ≤ off → off + Z.of_nat (length src) ≤ Z.of_nat (length mem) →
  write_bytes off src mem
  = Some (take (Z.to_nat off) mem ++ src
          ++ drop (Z.to_nat off + length src) mem).
Proof.
  intros H1 H2. unfold write_bytes.
  by rewrite (proj2 (Z.leb_le _ _) H1), (proj2 (Z.leb_le _ _) H2).
Qed.

(** Writing slot [T] of a buffer of slots of [I] bytes changes that slot
    and no other. *)
Lemma slot_written (I T j : nat) (data src : list Z) :
  length src = I → (T * I + I ≤ length data)%nat →
  take I (drop (j * I) (take (T * I) data ++ src ++ drop (T * I + I) data))
  = if decide (j = T) then src else take I (drop (j * I) data).
Proof.
  intros Hsrc Hlen. case_decide as Hj.
  - subst j. rewrite drop_app_length' by (rewrite length_take; lia).
    by rewrite take_app_length'.
  - apply list_eq. intros i. rewrite !lookup_take, !lookup_drop.
    case_decide; [|done].
    destruct (decide (j < T)%nat).
    + assert (j * I + i < T * I)%nat by nia.
      rewrite lookup_app_l by (rewrite length_take; lia).
      by rewrite lookup_take_lt by lia.
    + assert (T * I + I ≤ j * I + i)%nat by nia.
      rewrite lookup_app_r by (rewrite length_take; lia).
      rewrite lookup_app_r by (rewrite length_take; lia).
      rewrite lookup_drop. f_equal. rewrite length_take. lia.
Qed.

Lemma mod_offsets_distinct h i c sz :
  0 ≤ i < c → c < sz → (h + i) mod sz ≠ (h + c) mod sz.
Proof.
  intros Hi Hc E.
  assert ((c - i) mod sz = 0) as H0.
  { replace (c - i) with ((h + c) - (h + i)) by lia.
    rewrite Zminus_mod, E, Z.sub_diag. apply Z.mod_0_l. lia. }
  rewrite Z.mod_small in H0 by lia. lia.
Qed.

Lemma queue_put_commit_items k queue sz isz q item :
  0 ≤ isz → sz * isz < 2 ^ 32 → sz < 2 ^ 32 →
  ring_ok k → queues k !! queue = Some q →
  queue_inv q → queue_shape sz isz q → queue_coherent q →
  q_count q ≠ q_size q → isz ≤ Z.of_nat (length item) →
  ∃ k' q', queue_put_commit queue item k = Returned EOS_OK k'
    ∧ ring_ok k' ∧ queues k' !! queue = Some q'
    ∧ queue_inv q' ∧ queue_shape sz isz q' ∧ queue_coherent q'
    ∧ queue_items q' = queue_items q ++ [take (Z.to_nat isz) item].
Proof.
  intros Hisz Hbuf Hsz [l Hr] Hq (Hc & Hh & Ht) (Hs1 & Hs2 & Hs3) Hco
    Hfull Hitem.
  unfold queue_put_commit. rewrite Hq, Hs2.
  rewrite read_bytes_eq by lia.
  change (drop (Z.to_nat 0) item) with item.
  set (src := take (Z.to_nat isz) item).
  assert (length src = Z.to_nat isz) as Hsrc
    by (unfold src; rewrite length_take; lia).
  assert (u32 (q_tail q * isz) = q_tail q * isz) as ->.
  { unfold u32. apply Z.mod_small. nia. }
  assert (0 ≤ q_tail q * isz ∧ q_tail q * isz + isz ≤ sz * isz) as Hoff by nia.
  rewrite write_bytes_eq by lia.
  destruct (q_size q =? 0) eqn:Hz; [apply Z.eqb_eq in Hz; lia|].
  set (k1 := set_queues _ _).
  destruct (EOS_TaskUnblock_total queue k1 l) as [k2 Hk2]; [exact Hr|].
  rewrite Hk2.
  pose proof (EOS_TaskUnblock_ring queue k1 k2 l Hr Hk2) as Hr2.
  apply EOS_TaskUnblock_frame in Hk2 as (_ & Hqs & _).
  eexists _, _. split; [done|]. split; [by exists l|]. simpl.
  rewrite Hqs. unfold k1. simpl. rewrite lookup_insert_eq.
  split; [done|].
  assert (u32 (q_tail q + 1) = q_tail q + 1) as ->
    by (unfold u32; apply Z.mod_small; lia).
  assert (u32 (q_count q + 1) = q_count q + 1) as ->
    by (unfold u32; apply Z.mod_small; lia).
  pose proof (Z.mod_pos_bound (q_tail q + 1) (q_size q)).
  split; [unfold queue_inv; simpl; lia|].
  split.
  { unfold queue_shape. simpl. split; [done|]. split; [done|].
    rewrite !length_app, length_take, length_drop. nia. }
  split.
  { unfold queue_coherent in *. simpl. rewrite Hco, Zplus_mod_idemp_l.
    f_equal. lia. }
  unfold queue_items. simpl.
  replace (Z.to_nat (q_count q + 1)) with (S (Z.to_nat (q_count q))) by lia.
  rewrite seq_S, fmap_app. simpl. f_equal.
  - apply list_fmap_ext. intros i x Hx.
    apply lookup_seq in Hx as [-> Hi]. simpl.
    unfold queue_slot. simpl. rewrite Hs2.
    set (j := (q_head q + Z.of_nat i) mod q_size q).
    assert (0 ≤ j < q_size q) as Hj by (apply Z.mod_pos_bound; lia).
    assert (j ≠ q_tail q) as Hjt.
    { rewrite Hco. apply mod_offsets_distinct; lia. }
    rewrite !Z2Nat.inj_mul by lia. rewrite Hsrc.
    rewrite slot_written; [|done|nia].
    rewrite decide_False by lia. done.
  - f_equal. unfold queue_slot. simpl. rewrite Z2Nat.id by lia.
    rewrite <- Hco. rewrite !Z2Nat.inj_mul by lia. rewrite Hsrc.
    rewrite slot_written; [|done|nia].
    by rewrite decide_True.
Qed.

Lemma queue_get_commit_items k queue sz isz q item x items :
  0 ≤ isz → sz * isz < 2 ^ 32 → sz < 2 ^ 32 →
  ring_ok k → queues k !! queue = Some q →
  queue_inv q → queue_shape sz isz q → queue_coherent q →
  queue_items q = x :: items → isz ≤ Z.of_nat (length item) →
  ∃ k' q', queue_get_commit queue item k
           = Returned (EOS_OK, x ++ drop (Z.to_nat isz) item) k'
    ∧ ring_ok k' ∧ queues k' !! queue = Some q'
    ∧ queue_inv q' ∧ queue_shape sz isz q' ∧ queue_coherent q'
    ∧ queue_items q' = items.
Proof.
  intros Hisz Hbuf Hsz [l Hr] Hq (Hc & Hh & Ht) (Hs1 & Hs2 & Hs3) Hco
    Hitems Hitem.
  assert (q_count q ≠ 0) as Hempty.
  { intros E. unfold queue_items in Hitems. by rewrite E in Hitems. }
  unfold queue_items in Hitems.
  replace (Z.to_nat (q_count q)) with (S (Z.to_nat (q_count q - 1)))
    in Hitems by lia.
  rewrite <- cons_seq, fmap_cons in Hitems. injection Hitems as Hx Hrest.
  rewrite Z.add_0_r, Z.mod_small in Hx by lia.
  unfold queue_get_commit. rewrite Hq, Hs2.
  assert (u32 (q_head q * isz) = q_head q * isz) as ->.
  { unfold u32. apply Z.mod_small. nia. }
  assert (0 ≤ q_head q * isz ∧ q_head q * isz + isz ≤ sz * isz) as Hoff by nia.
  rewrite read_bytes_eq by lia.
  assert (take (Z.to_nat isz) (drop (Z.to_nat (q_head q * isz)) (q_data q)) = x)
    as -> by (rewrite <- Hx; unfold queue_slot; by rewrite Hs2).
  assert (length x = Z.to_nat isz) as Hlx.
  { rewrite <- Hx. unfold queue_slot. rewrite Hs2, length_take, length_drop.
    assert (q_head q * isz + isz ≤ sz * isz) by nia. lia. }
  rewrite write_bytes_eq by lia. simpl take. rewrite Hlx. simpl.
  destruct (q_size q =? 0) eqn:Hz; [apply Z.eqb_eq in Hz; lia|].
  set (k1 := set_queues _ _).
  destruct (EOS_TaskUnblock_total queue k1 l) as [k2 Hk2]; [exact Hr|].
  rewrite Hk2.
  pose proof (EOS_TaskUnblock_ring queue k1 k2 l Hr Hk2) as Hr2.
  apply EOS_TaskUnblock_frame in Hk2 as (_ & Hqs & _).
  eexists _, _. split; [done|]. split; [by exists l|]. simpl.
  rewrite Hqs. unfold k1. simpl. rewrite lookup_insert_eq.
  split; [done|].
  assert (u32 (q_head q + 1) = q_head q + 1) as ->
    by (unfold u32; apply Z.mod_small; lia).
  assert (u32 (q_count q - 1) = q_count q - 1) as ->
    by (unfold u32; apply Z.mod_small; lia).
  pose proof (Z.mod_pos_bound (q_head q + 1) (q_size q)).
  split; [unfold queue_inv; simpl; lia|].
  split; [unfold queue_shape; simpl; lia|].
  split.
  { unfold queue_coherent in *. simpl. rewrite Hco, Zplus_mod_idemp_l.
    f_equal. lia. }
  rewrite <- Hrest. unfold queue_items. simpl.
  rewrite <- fmap_S_seq, <- list_fmap_compose.
  apply list_fmap_ext. intros i y _. simpl. unfold queue_slot. simpl.
  rewrite Zplus_mod_idemp_l, Hs2.
  replace (q_head q + 1 + Z.of_nat y) with (q_head q + Z.of_nat (S y)) by lia.
  done.
Qed.

(** X15: on a queue that is not full [EOS_QueuePut] returns [EOS_OK] in
    either mode without waiting and appends the first [item_size] bytes
    of the item to the items held; the items already held are
    unchanged. *)
Theorem EOS_QueuePut_appends k w queue sz isz items item block :
  1 ≤ sz < 2 ^ 32 → 0 ≤ isz → sz * isz < 2 ^ 32 →
  ring_ok k → queue_holds queue sz isz items k →
  Z.of_nat (length items) < sz → isz ≤ Z.of_nat (length item) →
  ∃ k', EOS_QueuePut w queue item block k = Returned EOS_OK k'
    ∧ ring_ok k'
    ∧ queue_holds queue sz isz (items ++ [take (Z.to_nat isz) item]) k'.
Proof.
  intros Hsz Hisz Hbuf Hr (q & Hq & Hinv & Hsh & Hco & Hitems) Hlen Hitem.
  assert (Z.of_nat (length items) = q_count q) as Hcount.
  { rewrite <- Hitems. unfold queue_items. rewrite length_fmap, length_seq.
    destruct Hinv as (? & _). lia. }
  unfold EOS_QueuePut. simpl. rewrite Hq.
  destruct (q_count q =? q_size q) eqn:Hfull.
  { apply Z.eqb_eq in Hfull. destruct Hsh as (? & _). lia. }
  apply Z.eqb_neq in Hfull.
  destruct (queue_put_commit_items (EOS_EnterCritical k) queue sz isz q item)
    as (k' & q' & -> & Hr' & Hq' & Hinv' & Hsh' & Hco' & Hitems');
    try done; [lia|].
  exists k'. split; [done|]. split; [done|]. exists q'.
  rewrite Hitems' , Hitems. done.
Qed.

(** X16: on a queue that is not empty [EOS_QueueGet] returns [EOS_OK] in
    either mode without waiting, copies the oldest item over the first
    [item_size] bytes of the destination, and leaves the other items in
    their order. *)
Theorem EOS_QueueGet_pops k w queue sz isz x items item block :
  1 ≤ sz < 2 ^ 32 → 0 ≤ isz → sz * isz < 2 ^ 32 →
  ring_ok k → queue_holds queue sz isz (x :: items) k →
  isz ≤ Z.of_nat (length item) →
  ∃ k', EOS_QueueGet w queue item block k
        = Returned (EOS_OK, x ++ drop (Z.to_nat isz) item) k'
    ∧ ring_ok k'
    ∧ queue_holds queue sz isz items k'.
Proof.
  intros Hsz Hisz Hbuf Hr (q & Hq & Hinv & Hsh & Hco & Hitems) Hitem.
  assert (q_count q ≠ 0) as Hempty.
  { intros E. unfold queue_items in Hitems. by rewrite E in Hitems. }
  unfold EOS_QueueGet. simpl. rewrite Hq.
  apply Z.eqb_neq in Hempty as ->.
  destruct (queue_get_commit_items (EOS_EnterCritical k) queue sz isz q item
              x items)
    as (k' & q' & -> & Hr' & Hq' & Hinv' & Hsh' & Hco' & Hitems');
    try done; [lia|].
  exists k'. split; [done|]. split; [done|]. by exists q'.
Qed.

(** X17: in [EOS_NO_BLOCK] mode a put on a full queue and a get on an
    empty queue return [EOS_BLOCKED] at once, whatever the environment;
    they change nothing but the interrupt mask, which ends cleared: the
    items held and the destination buffer are as before. *)
Theorem EOS_Queue_refuses_without_blocking k w queue sz isz items item :
  queue_holds queue sz isz items k →
  (Z.of_nat (length items) = sz →
   EOS_QueuePut w queue item EOS_NO_BLOCK k
   = Returned EOS_BLOCKED (set_primask false k))
  ∧ (items = [] →
     EOS_QueueGet w queue item EOS_NO_BLOCK k
     = Returned (EOS_BLOCKED, item) (set_primask false k))
  ∧ queue_holds queue sz isz items (set_primask false k).
Proof.
  intros (q & Hq & Hinv & Hsh & Hco & Hitems).
  assert (Z.of_nat (length items) = q_count q) as Hcount.
  { rewrite <- Hitems. unfold queue_items. rewrite length_fmap, length_seq.
    destruct Hinv as (? & _). lia. }
  split; [|split].
  - intros Hfull. unfold EOS_QueuePut. simpl. rewrite Hq.
    destruct Hsh as (Hs & _).
    assert ((q_count q =? q_size q) = true) as -> by (apply Z.eqb_eq; lia).
    done.
  - intros ->. unfold EOS_QueueGet. simpl. rewrite Hq.
    assert ((q_count q =? 0) = true) as -> by (apply Z.eqb_eq; simpl in *; lia).
    done.
  - by exists q.
Qed.

(** X18: a consumer that blocks on an empty queue is tagged with the queue
    and switched out with interrupts unmasked; when it is resumed and the
    queue holds items, it returns [EOS_OK] with the oldest of them and
    leaves the others. *)
Theorem EOS_QueueGet_blocked_receives k w e queue sz isz x items item k3 :
  1 ≤ sz < 2 ^ 32 → 0 ≤ isz → sz * isz < 2 ^ 32 →
  isz ≤ Z.of_nat (length item) →
  queue_holds queue sz isz [] k →
  EOS_QueueGet [] queue item EOS_BLOCK k = Suspended k3 →
  ring_ok (e k3) → queue_holds queue sz isz (x :: items) (e k3) →
  ∃ r k',
    tcbs k3 !! run_ptr k = Some r ∧ blocked r = queue
    ∧ pendsv k3 = true ∧ primask k3 = false
    ∧ EOS_QueueGet (e :: w) queue item EOS_BLOCK k
      = Returned (EOS_OK, x ++ drop (Z.to_nat isz) item) k'
    ∧ ring_ok k' ∧ queue_holds queue sz isz items k'.
Proof.
  intros Hsz Hisz Hbuf Hitem (q & Hq & Hinv & Hsh & Hco & Hitems) Hsusp
    [l Hr] (q1 & Hq1 & Hinv1 & Hsh1 & Hco1 & Hitems1).
  assert (q_count q = 0) as Hcount.
  { unfold queue_items in Hitems. destruct Hinv as (? & _).
    destruct (Z.to_nat (q_count q)) eqn:E; [lia|done]. }
  assert (q_count q1 ≠ 0) as Hcount1.
  { intros E. unfold queue_items in Hitems1. by rewrite E in Hitems1. }
  unfold EOS_QueueGet in *. simpl in *. rewrite Hq, Hcount in *. simpl in *.
  destruct (tcbs k !! run_ptr k) as [r|] eqn:Hrun; [|done].
  injection Hsusp as <-. simpl.
  set (k3 := EOS_Suspend _) in *.
  assert (queue_get_wait w queue (EOS_EnterCritical (e k3))
          = Returned tt (EOS_EnterCritical (e k3))) as ->.
  { destruct w; simpl; rewrite Hq1;
      by apply Z.eqb_neq in Hcount1 as ->. }
  destruct (queue_get_commit_items (EOS_EnterCritical (e k3)) queue sz isz q1
              item x items)
    as (k' & q' & -> & Hr' & Hq' & Hinv' & Hsh' & Hco' & Hitems');
    try done; [lia|by exists l|].
  exists (set_blocked queue r), k'. rewrite lookup_insert_eq.
  repeat split; try done. by exists q'.
Qed.

(** X19: a producer that blocks on a full queue is tagged with the queue
    and switched out with interrupts unmasked; when it is resumed and the
    queue has room, it returns [EOS_OK] and its item is the newest of the
    queue. *)
Theorem EOS_QueuePut_blocked_delivers k w e queue sz isz items items' item k3 :
  1 ≤ sz < 2 ^ 32 → 0 ≤ isz → sz * isz < 2 ^ 32 →
  isz ≤ Z.of_nat (length item) →
  queue_holds queue sz isz items k → Z.of_nat (length items) = sz →
  EOS_QueuePut [] queue item EOS_BLOCK k = Suspended k3 →
  ring_ok (e k3) → queue_holds queue sz isz items' (e k3) →
  Z.of_nat (length items') < sz →
  ∃ r k',
    tcbs k3 !! run_ptr k = Some r ∧ blocked r = queue
    ∧ pendsv k3 = true ∧ primask k3 = false
    ∧ EOS_QueuePut (e :: w) queue item EOS_BLOCK k = Returned EOS_OK k'
    ∧ ring_ok k'
    ∧ queue_holds queue sz isz (items' ++ [take (Z.to_nat isz) item]) k'.
Proof.
  intros Hsz Hisz Hbuf Hitem (q & Hq & Hinv & Hsh & Hco & Hitems) Hfull Hsusp
    [l Hr] (q1 & Hq1 & Hinv1 & Hsh1 & Hco1 & Hitems1) Hroom.
  assert (q_count q = q_size q) as Hcount.
  { destruct Hsh as (-> & _). rewrite <- Hfull, <- Hitems.
    unfold queue_items. rewrite length_fmap, length_seq.
    destruct Hinv as (? & _). lia. }
  assert (q_count q1 ≠ q_size q1) as Hcount1.
  { destruct Hsh1 as (-> & _). rewrite <- Hitems1 in Hroom.
    unfold queue_items in Hroom. rewrite length_fmap, length_seq in Hroom.
    destruct Hinv1 as (? & _). lia. }
  unfold EOS_QueuePut in *. simpl in *. rewrite Hq, Hcount in *.
  rewrite Z.eqb_refl in *. simpl in *.
  destruct (tcbs k !! run_ptr k) as [r|] eqn:Hrun; [|done].
  injection Hsusp as <-. simpl.
  set (k3 := EOS_Suspend _) in *.
  assert (queue_put_wait w queue (EOS_EnterCritical (e k3))
          = Returned tt (EOS_EnterCritical (e k3))) as ->.
  { destruct w; simpl; rewrite Hq1;
      by apply Z.eqb_neq in Hcount1 as ->. }
  destruct (queue_put_commit_items (EOS_EnterCritical (e k3)) queue sz isz q1
              item)
    as (k' & q' & -> & Hr' & Hq' & Hinv' & Hsh' & Hco' & Hitems');
    try done; [lia|by exists l|].
  exists (set_blocked queue r), k'. rewrite lookup_insert_eq.
  repeat split; try done. exists q'. by rewrite Hitems', Hitems1.
Qed.

Lemma put_all_items queue sz isz : ∀ items cs k,
  1 ≤ sz < 2 ^ 32 → 0 ≤ isz → sz * isz < 2 ^ 32 →
  ring_ok k → queue_holds queue sz isz cs k →
  Forall (λ it, Z.of_nat (length it) = isz) items →
  Z.of_nat (length cs) + Z.of_nat (length items) ≤ sz →
  ∃ k', put_all queue items k = Some k' ∧ ring_ok k'
        ∧ queue_holds queue sz isz (cs ++ items) k'.
Proof.
  induction items as [|it items IH]; intros cs k Hsz Hisz Hbuf Hr Hh Hall Hlen.
  - exists k. by rewrite app_nil_r.
  - apply Forall_cons in Hall as [Hit Hall]. simpl in Hlen.
    destruct Hh as (q & Hq & Hinv & Hsh & Hco & Hitems).
    assert (Z.of_nat (length cs) = q_count q) as Hcount.
    { rewrite <- Hitems. unfold queue_items. rewrite length_fmap, length_seq.
      destruct Hinv as (? & _). lia. }
    simpl. unfold EOS_QueuePut. simpl. rewrite Hq.
    destruct (q_count q =? q_size q) eqn:Hfull.
    { apply Z.eqb_eq in Hfull. destruct Hsh as (? & _). lia. }
    apply Z.eqb_neq in Hfull.
    destruct (queue_put_commit_items (EOS_EnterCritical k) queue sz isz q it)
      as (k1 & q1 & -> & Hr1 & Hq1 & Hinv1 & Hsh1 & Hco1 & Hitems1);
      try done; [lia..|].
    rewrite take_ge in Hitems1 by lia.
    destruct (IH (cs ++ [it]) k1) as (k' & -> & Hr' & Hh'); try done.
    + exists q1. by rewrite Hitems1, Hitems.
    + rewrite length_app. simpl. lia.
    + exists k'. by rewrite <- app_assoc in Hh'.
Qed.

Lemma get_all_items queue sz isz : ∀ items rest item k,
  1 ≤ sz < 2 ^ 32 → 0 ≤ isz → sz * isz < 2 ^ 32 →
  ring_ok k → queue_holds queue sz isz (items ++ rest) k →
  Forall (λ it, Z.of_nat (length it) = isz) items →
  Z.of_nat (length item) = isz →
  ∃ k', get_all queue (length items) item k = Some (items, k') ∧ ring_ok k'
        ∧ queue_holds queue sz isz rest k'.
Proof.
  induction items as [|it items IH];
    intros rest item k Hsz Hisz Hbuf Hr Hh Hall Hitem.
  - by exists k.
  - apply Forall_cons in Hall as [Hit Hall].
    destruct Hh as (q & Hq & Hinv & Hsh & Hco & Hitems).
    assert (q_count q ≠ 0) as Hempty.
    { intros E. unfold queue_items in Hitems. by rewrite E in Hitems. }
    simpl. unfold EOS_QueueGet. simpl. rewrite Hq.
    apply Z.eqb_neq in Hempty as ->.
    destruct (queue_get_commit_items (EOS_EnterCritical k) queue sz isz q item
                it (items ++ rest))
      as (k1 & q1 & -> & Hr1 & Hq1 & Hinv1 & Hsh1 & Hco1 & Hitems1);
      try done; [lia..|].
    rewrite drop_ge, app_nil_r by lia.
    destruct (IH rest it k1) as (k' & -> & Hr' & Hh'); try done.
    + by exists q1.
    + by exists k'.
Qed.

(** X20: first in, first out.  On a queue fresh from [EOS_QueueCreate],
    whatever the buffer contains, putting at most [size] items of
    [item_size] bytes and getting as many returns the items put, in the
    order in which they were put, and leaves the queue empty. *)
Theorem EOS_Queue_fifo k queue buf raw sz isz items item :
  queue ≠ NULL → buf ≠ NULL →
  1 ≤ sz < 2 ^ 32 → 0 ≤ isz < 2 ^ 32 → sz * isz < 2 ^ 32 →
  Z.of_nat (length raw) = sz * isz → ring_ok k →
  Forall (λ it, Z.of_nat (length it) = isz) items →
  Z.of_nat (length items) ≤ sz → Z.of_nat (length item) = isz →
  ∃ k1 k2,
    put_all queue items (snd (EOS_QueueCreate queue buf raw sz isz k))
    = Some k1
    ∧ get_all queue (length items) item k1 = Some (items, k2)
    ∧ queue_holds queue sz isz [] k2.
Proof.
  intros Hq%Z.eqb_neq Hb%Z.eqb_neq Hsz Hisz Hbuf Hraw Hr Hall Hlen Hitem.
  unfold EOS_QueueCreate. rewrite Hq, Hb. simpl.
  assert (u32 sz = sz) as -> by (unfold u32; apply Z.mod_small; lia).
  assert (u32 isz = isz) as -> by (unfold u32; apply Z.mod_small; lia).
  set (q := mkQueue buf raw 0 0 sz isz 0).
  set (k0 := set_queues _ k).
  assert (ring_ok k0) as Hr0 by (destruct Hr as [l Hl]; by exists l).
  assert (queue_holds queue sz isz [] k0) as Hh0.
  { exists q. unfold k0. simpl. rewrite lookup_insert_eq.
    split; [done|]. split; [unfold queue_inv; simpl; lia|].
    split; [done|]. split; [|done].
    unfold queue_coherent. simpl. by rewrite Z.mod_0_l by lia. }
  destruct (put_all_items queue sz isz items [] k0) as (k1 & Hk1 & Hr1 & Hh1);
    [done|lia|done|done|done|done|simpl; lia|].
  simpl in Hh1. rewrite <- (app_nil_r items) in Hh1.
  destruct (get_all_items queue sz isz items [] item k1)
    as (k2 & Hk2 & Hr2 & Hh2); [done|lia|done|done|done|done|done|].
  by exists k1, k2.
Qed.

(** ** Task stacks *)

Lemma store_word_mid pre mid post (j : nat) i v :
  i = Z.of_nat (length pre + j) → (j < length mid)%nat →
  store_word i v (pre ++ mid ++ post)
  = Some (pre ++ <[j := s32 v]> mid ++ post).
Proof.
  intros -> Hj. unfold store_word.
  rewrite (proj2 (Z.leb_le _ _)) by lia.
  rewrite (proj2 (Z.ltb_lt _ _)) by (rewrite !length_app; lia).
  simpl. rewrite Nat2Z.id, insert_app_r, insert_app_l by done. done.
Qed.

(** A stack of which [n] words precede the [frame] words to be seeded. *)
Lemma stack_split (task_stack : list Z) (stack_size : Z) (frame : nat) :
  Z.of_nat frame ≤ stack_size ≤ Z.of_nat (length task_stack) →
  ∃ pre mid post,
    task_stack = pre ++ mid ++ post
    ∧ pre = take (Z.to_nat (stack_size - Z.of_nat frame)) task_stack
    ∧ post = drop (Z.to_nat stack_size) task_stack
    ∧ length pre = Z.to_nat (stack_size - Z.of_nat frame)
    ∧ length mid = frame.
Proof.
  intros H.
  exists (take (Z.to_nat (stack_size - Z.of_nat frame)) task_stack),
    (take frame (drop (Z.to_nat (stack_size - Z.of_nat frame)) task_stack)),
    (drop (Z.to_nat stack_size) task_stack).
  split; [|split; [done|split; [done|]]].
  - replace (Z.to_nat stack_size)
      with (Z.to_nat (stack_size - Z.of_nat frame) + frame)%nat by lia.
    rewrite <- drop_drop. by rewrite !take_drop.
  - rewrite !length_take, length_drop. lia.
Qed.

Ltac store_step frame :=
  match goal with
  | |- context [store_word (u32 (?sz - ?c)) ?v (?pre ++ ?mid ++ ?post)] =>
    let j := eval compute in (Z.to_nat (frame - c)) in
    rewrite (store_word_mid pre mid post j (u32 (sz - c)) v)
      by first [ simpl; lia
               | unfold u32; rewrite Z.mod_small by lia; lia ];
    cbn [mbind option_bind list_insert insert]
  end.

Lemma store_loop_step fuel stack_size i bound v m :
  i < bound →
  store_loop (S fuel) stack_size i bound v m
  = store_word (u32 (stack_size - i)) v m
      ≫= store_loop fuel stack_size (i + 1) bound v.
Proof.
  intros Hi. simpl. by rewrite (proj2 (Z.leb_gt _ _)) by lia.
Qed.

Lemma store_loop_done fuel stack_size i bound v m :
  bound ≤ i → store_loop fuel stack_size i bound v m = Some m.
Proof.
  intros Hi. destruct fuel; simpl; by rewrite (proj2 (Z.leb_le _ _)) by lia.
Qed.

Lemma EOS_InitStack_eq task_stack stack_size function :
  17 ≤ stack_size ≤ Z.of_nat (length task_stack) → stack_size < 2 ^ 32 →
  EOS_InitStack task_stack stack_size function
  = Some (take (Z.to_nat (stack_size - 17)) task_stack
          ++ stack_frame function
          ++ drop (Z.to_nat stack_size) task_stack).
Proof.
  intros Hsz Hmax.
  destruct (stack_split task_stack stack_size 17)
    as (pre & mid & post & Hstack & Hpre & Hpost & Hlpre & Hlmid); [lia|].
  change (Z.of_nat 17) with 17 in *.
  rewrite <- Hpre, <- Hpost. clear Hpre Hpost. rewrite Hstack. clear Hstack.
  do 17 (destruct mid as [|? mid]; [simpl in Hlmid; lia|]).
  destruct mid; [|simpl in Hlmid; lia].
  unfold EOS_InitStack. do 17 store_step 17. done.
Qed.

Lemma EOS_InitFpuStack_eq task_stack stack_size function :
  51 ≤ stack_size ≤ Z.of_nat (length task_stack) → stack_size < 2 ^ 32 →
  EOS_InitFpuStack task_stack stack_size function
  = Some (take (Z.to_nat (stack_size - 51)) task_stack
          ++ fpu_stack_frame function
          ++ drop (Z.to_nat stack_size) task_stack).
Proof.
  intros Hsz Hmax.
  destruct (stack_split task_stack stack_size 51)
    as (pre & mid & post & Hstack & Hpre & Hpost & Hlpre & Hlmid); [lia|].
  change (Z.of_nat 51) with 51 in *.
  rewrite <- Hpre, <- Hpost. clear Hpre Hpost. rewrite Hstack. clear Hstack.
  do 51 (destruct mid as [|? mid]; [simpl in Hlmid; lia|]).
  destruct mid; [|simpl in Hlmid; lia].
  unfold EOS_InitFpuStack.
  repeat first [ store_step 51
               | rewrite store_loop_step by lia
               | rewrite store_loop_done by lia;
                 cbn [mbind option_bind] ].
  done.
Qed.

(** What a seeded stack looks like from outside of the frame. *)
Lemma seeded_stack (task_stack frame : list Z) (stack_size : Z) :
  Z.of_nat (length frame) ≤ stack_size ≤ Z.of_nat (length task_stack) →
  let m := take (Z.to_nat (stack_size - Z.of_nat (length frame))) task_stack
           ++ frame ++ drop (Z.to_nat stack_size) task_stack in
  length m = length task_stack
  ∧ take (length frame)
      (drop (Z.to_nat (stack_size - Z.of_nat (length frame))) m) = frame
  ∧ ∀ j : nat, Z.of_nat j < stack_size - Z.of_nat (length frame)
               ∨ stack_size ≤ Z.of_nat j →
               m !! j = task_stack !! j.
Proof.
  intros Hsz m. unfold m. split; [|split].
  - rewrite !length_app, length_take, length_drop. lia.
  - rewrite drop_app_length' by (rewrite length_take; lia).
    by rewrite take_app_length.
  - intros j [Hj|Hj].
    + rewrite lookup_app_l by (rewrite length_take; lia).
      apply lookup_take_lt. lia.
    + rewrite lookup_app_r by (rewrite length_take; lia).
      rewrite lookup_app_r by (rewrite length_take; lia).
      rewrite lookup_drop, length_take. f_equal. lia.
Qed.

(** X21: on an array of at least [stack_size] words, with [stack_size]
    at least 17, [EOS_InitStack] stays inside the array, writes the 17
    words of [stack_frame] at the top of the stack and changes no other
    word. *)
Theorem EOS_InitStack_frame task_stack stack_size function :
  17 ≤ stack_size ≤ Z.of_nat (length task_stack) → stack_size < 2 ^ 32 →
  ∃ m, EOS_InitStack task_stack stack_size function = Some m
    ∧ length m = length task_stack
    ∧ take 17 (drop (Z.to_nat (stack_size - 17)) m) = stack_frame function
    ∧ ∀ j : nat, Z.of_nat j < stack_size - 17 ∨ stack_size ≤ Z.of_nat j →
                 m !! j = task_stack !! j.
Proof.
  intros Hsz Hmax. eexists. split; [by apply EOS_InitStack_eq|].
  apply (seeded_stack task_stack (stack_frame function) stack_size).
  simpl. lia.
Qed.

(** X22: on an array of at least [stack_size] words, with [stack_size]
    at least 51, [EOS_InitFpuStack] stays inside the array, writes the 51
    words of [fpu_stack_frame] at the top of the stack and changes no
    other word. *)
Theorem EOS_InitFpuStack_frame task_stack stack_size function :
  51 ≤ stack_size ≤ Z.of_nat (length task_stack) → stack_size < 2 ^ 32 →
  ∃ m, EOS_InitFpuStack task_stack stack_size function = Some m
    ∧ length m = length task_stack
    ∧ take 51 (drop (Z.to_nat (stack_size - 51)) m)
      = fpu_stack_frame function
    ∧ ∀ j : nat, Z.of_nat j < stack_size - 51 ∨ stack_size ≤ Z.of_nat j →
                 m !! j = task_stack !! j.
Proof.
  intros Hsz Hmax. eexists. split; [by apply EOS_InitFpuStack_eq|].
  apply (seeded_stack task_stack (fpu_stack_frame function) stack_size).
  simpl. lia.
Qed.

Lemma lookup_frame (pre frame post : list Z) (n j : nat) :
  length pre = n → (j < length frame)%nat →
  (pre ++ frame ++ post) !! (n + j)%nat = frame !! j.
Proof.
  intros <- Hj. rewrite lookup_app_r by lia.
  rewrite lookup_app_l by lia. f_equal. lia.
Qed.

Lemma EOS_ThreadNew_sp cb stk f prio ts sz fpu k handle k' t :
  EOS_ThreadNew cb stk f prio ts sz fpu k = Some (handle, k') →
  handle ≠ NULL → tcbs k' !! handle = Some t →
  sp t = u32 ((if ts =? NULL then stk else ts)
              + 4 * (sz - (if decide (fpu = EOS_USE_FPU) then 51 else 17))).
Proof.
  unfold EOS_ThreadNew. intros H Hh Ht.
  repeat (match type of H with
          | (if ?b then _ else _) = _ => destruct b eqn:?
          | match ?x with _ => _ end = _ => destruct x eqn:?
          end; try done); try (by injection H as <-).
  injection H as <- <-. simpl in Ht. rewrite lookup_insert_eq in Ht.
  by injection Ht as <-.
Qed.

(** X23: for a stack size that [EOS_ThreadNew] accepts, the seeding of
    the stack stays inside it, and the [sp] stored in the new TCB points
    at the exception-return marker, whose bit 4 (the bit the switch
    handler tests) is clear exactly for a task that uses the FPU; the
    entry point of the task lies 15 words (31 with the FPU frame) above
    it. *)
Theorem EOS_ThreadNew_stack_marker task_stack stack_size function use_fpu :
  64 ≤ stack_size ≤ Z.of_nat (length task_stack) → stack_size < 2 ^ 32 →
  ∃ m i marker,
    EOS_ThreadNew_stack task_stack stack_size function use_fpu = Some (m, i)
    ∧ length m = length task_stack
    ∧ m !! Z.to_nat i = Some marker
    ∧ Z.testbit marker 4 = bool_decide (use_fpu ≠ EOS_USE_FPU)
    ∧ m !! Z.to_nat (i + (if decide (use_fpu = EOS_USE_FPU) then 31 else 15))
      = Some (s32 function)
    ∧ ∀ cb stk prio ts k handle k' t,
        EOS_ThreadNew cb stk function prio ts stack_size use_fpu k
        = Some (handle, k') →
        handle ≠ NULL → tcbs k' !! handle = Some t →
        sp t = u32 ((if ts =? NULL then stk else ts) + 4 * i).
Proof.
  intros Hsz Hmax. unfold EOS_ThreadNew_stack.
  destruct (decide (use_fpu = EOS_USE_FPU)) as [Hfpu|Hfpu].
  - rewrite EOS_InitFpuStack_eq by lia. cbn [mbind option_bind].
    assert (u32 (stack_size - 51) = stack_size - 51) as ->
      by (unfold u32; apply Z.mod_small; lia).
    set (pre := take _ _).
    assert (length pre = Z.to_nat (stack_size - 51)) as Hpre
      by (unfold pre; rewrite length_take; lia).
    eexists _, _, (s32 0xFFFFFFED). split; [done|]. split; [|split; [|split]].
    + rewrite !length_app, length_drop, Hpre. simpl. lia.
    + replace (Z.to_nat (stack_size - 51))
        with (Z.to_nat (stack_size - 51) + 0)%nat by lia.
      rewrite lookup_frame; [done|done|simpl; lia].
    + rewrite bool_decide_eq_false_2 by (by intros ?). done.
    + split.
      * replace (Z.to_nat (stack_size - 51 + 31))
          with (Z.to_nat (stack_size - 51) + 31)%nat by lia.
        rewrite lookup_frame; [done|done|simpl; lia].
      * intros cb stk prio ts k handle k' t H Hh Ht.
        rewrite (EOS_ThreadNew_sp _ _ _ _ _ _ _ _ _ _ _ H Hh Ht).
        by rewrite decide_True.
  - rewrite EOS_InitStack_eq by lia. cbn [mbind option_bind].
    assert (u32 (stack_size - 17) = stack_size - 17) as ->
      by (unfold u32; apply Z.mod_small; lia).
    set (pre := take _ _).
    assert (length pre = Z.to_nat (stack_size - 17)) as Hpre
      by (unfold pre; rewrite length_take; lia).
    eexists _, _, (s32 0xFFFFFFFD). split; [done|]. split; [|split; [|split]].
    + rewrite !length_app, length_drop, Hpre. simpl. lia.
    + replace (Z.to_nat (stack_size - 17))
        with (Z.to_nat (stack_size - 17) + 0)%nat by lia.
      rewrite lookup_frame; [done|done|simpl; lia].
    + rewrite bool_decide_eq_true_2 by done. done.
    + split.
      * replace (Z.to_nat (stack_size - 17 + 15))
          with (Z.to_nat (stack_size - 17) + 15)%nat by lia.
        rewrite lookup_frame; [done|done|simpl; lia].
      * intros cb stk prio ts k handle k' t H Hh Ht.
        rewrite (EOS_ThreadNew_sp _ _ _ _ _ _ _ _ _ _ _ H Hh Ht).
        by rewrite decide_False.
Qed.

(** ** Starting the first task *)

Lemma u32_s32 x : u32 (s32 x) = u32 x.
Proof.
  unfold u32, s32. rewrite Zminus_mod_idemp_l. f_equal. lia.
Qed.

Lemma load_word_at base stack (j : nat) :
  load_word base stack (base + 4 * Z.of_nat j) = u32 <$> stack !! j.
Proof.
  unfold load_word.
  rewrite (proj2 (Z.leb_le _ _)) by lia.
  replace (base + 4 * Z.of_nat j - base) with (Z.of_nat j * 4) by lia.
  rewrite Z.mod_mul, Z.div_mul by lia. simpl. by rewrite Nat2Z.id.
Qed.

Lemma pop_words_at base stack : ∀ (n j : nat),
  (j + n ≤ length stack)%nat → base + 4 * Z.of_nat (j + n) < 2 ^ 32 →
  0 ≤ base →
  pop_words n base stack (base + 4 * Z.of_nat j)
  = Some (u32 <$> take n (drop j stack), base + 4 * Z.of_nat (j + n)).
Proof.
  induction n as [|n IH]; intros j Hlen Hmax Hbase; simpl.
  - by rewrite Nat.add_0_r.
  - rewrite load_word_at.
    destruct (stack !! j) as [v|] eqn:Hv;
      [|apply lookup_ge_None in Hv; lia].
    simpl.
    assert (u32 (base + 4 * Z.of_nat j + 4) = base + 4 * Z.of_nat (S j)) as ->
      by (unfold u32; rewrite Z.mod_small; lia).
    rewrite IH by lia. simpl.
    rewrite (drop_S _ _ _ Hv). simpl. do 3 f_equal. lia.
Qed.

(** [EOS_Start] on a stack seeded by [EOS_InitStack] whose [sp] points at
    the marker. *)
Lemma EOS_Start_seeded base stack stack_size function k r (n : nat) :
  tcbs k !! run_ptr k = Some r →
  length stack = Z.to_nat stack_size →
  stack_size = Z.of_nat n + 17 →
  take 17 (drop n stack) = stack_frame function →
  sp r = base + 4 * Z.of_nat n →
  0 ≤ base → base + 4 * stack_size < 2 ^ 32 →
  ∃ regs, EOS_Start base stack k = Some (regs, set_primask false k)
    ∧ reg_lr regs = u32 function
    ∧ reg_sp regs = base + 4 * stack_size
    ∧ reg_r4_r11 regs = u32 <$> take 8 (drop 1 (stack_frame function))
    ∧ reg_r0_r3 regs = u32 <$> take 4 (drop 9 (stack_frame function)).
Proof.
  intros Hrun Hlen Hsz Hframe Hsp Hbase Hmax.
  assert (∀ j : nat, (j < 17)%nat → stack !! (n + j)%nat
                                   = stack_frame function !! j) as Hat.
  { intros j Hj. rewrite <- Hframe, lookup_take_lt, lookup_drop by done.
    done. }
  assert (∀ c j : nat, (j + c ≤ 17)%nat →
            take c (drop (n + j) stack)
            = take c (drop j (stack_frame function))) as Hpop.
  { intros c j Hj. apply list_eq. intros i.
    rewrite !lookup_take, !lookup_drop. case_decide; [|done].
    rewrite <- Hat by lia. f_equal. lia. }
  assert (∀ j : nat, (j < 17)%nat →
            u32 (base + 4 * Z.of_nat (n + j) + 4)
            = base + 4 * Z.of_nat (n + S j)) as Hnext
    by (intros j Hj; unfold u32; rewrite Z.mod_small by lia; lia).
  unfold EOS_Start. rewrite Hrun. cbn [mbind option_bind]. rewrite Hsp.
  assert (u32 (base + 4 * Z.of_nat n + 4) = base + 4 * Z.of_nat (n + 1)) as ->
    by (unfold u32; rewrite Z.mod_small by lia; lia).
  rewrite pop_words_at by lia. cbn [mbind option_bind].
  rewrite pop_words_at by lia. cbn [mbind option_bind].
  replace (n + 1 + 8 + 4)%nat with (n + 13)%nat by lia.
  replace (n + 1 + 8)%nat with (n + 9)%nat by lia.
  rewrite load_word_at, !Hnext by lia.
  rewrite load_word_at, !Hat, !Hpop by lia.
  eexists. split; [done|]. cbn [reg_lr reg_sp reg_r4_r11 reg_r0_r3].
  split; [apply u32_s32|]. split; [lia|]. done.
Qed.

(** X24: [EOS_Init], called while the running task is the idle task with
    its [sp] at [idle_stack + 15] as initialised, seeds the idle stack,
    enables the scheduler, sets the period asked for, and starts the idle
    task: [EOS_Start] branches to [idleTask] with the stack pointer at
    the top of the idle stack and interrupts unmasked; no TCB is
    written. *)
Theorem EOS_Init_starts_running_task s r user_task_period idle_base
    idle_stack idleTask :
  tcbs (sys_kernel s) !! run_ptr (sys_kernel s) = Some r →
  sp r = idle_base + 4 * 15 →
  length idle_stack = 32%nat →
  0 ≤ idle_base → idle_base + 4 * 32 < 2 ^ 32 →
  0 ≤ idleTask < 2 ^ 32 →
  ∃ regs s',
    EOS_Init user_task_period idle_base idle_stack idleTask s
    = Some (regs, take 15 idle_stack ++ stack_frame idleTask, s')
    ∧ reg_lr regs = idleTask
    ∧ reg_sp regs = idle_base + 4 * 32
    ∧ sys_kernel s' = set_primask false (sys_kernel s)
    ∧ scheduler_enable s' = 1
    ∧ task_period s' = user_task_period
    ∧ eos_tickCounter s' = eos_tickCounter s.
Proof.
  intros Hrun Hsp Hlen Hbase Hmax Hfn.
  unfold EOS_Init. rewrite EOS_InitStack_eq by lia.
  change (Z.to_nat (32 - 17)) with 15%nat. change (Z.to_nat 32) with 32%nat.
  rewrite (drop_ge idle_stack 32), app_nil_r by lia.
  cbn [mbind option_bind].
  set (stack := take 15 idle_stack ++ stack_frame idleTask).
  destruct (EOS_Start_seeded idle_base stack 32 idleTask
              (EOS_EnterCritical (sys_kernel s)) r 15)
    as (regs & -> & Hlr & Hrsp & _); try done.
  - unfold stack. rewrite length_app, length_take, Hlen. done.
  - unfold stack. rewrite drop_app_length' by (rewrite length_take; lia).
    done.
  - cbn [mbind option_bind]. eexists _, _. split; [done|]. simpl.
    split; [rewrite Hlr; unfold u32; apply Z.mod_small; lia|].
    split; [done|]. split; [by destruct (sys_kernel s)|].
    split; [done|]. split; [|done].
    destruct (user_task_period =? task_period s) eqn:E; simpl; [|done].
    by apply Z.eqb_eq in E.
Qed.

(** ** The invariants at the concrete states *)

Lemma demo_kernel_inv : kernel_inv demo_idle demo_kernel [2000; 3000; 4000].
Proof.
  split; [apply ringb_sound; vm_compute; reflexivity|].
  split; [left|]. exists (mkTCB 500 0 2000 0 0 0).
  split; vm_compute; reflexivity.
Qed.

Lemma demo_elected_inv :
  kernel_inv demo_idle demo_elected [3000; 4000; 1000].
Proof.
  split; [apply ringb_sound; vm_compute; reflexivity|].
  split; [list_in|]. exists (mkTCB 500 0 2000 0 0 0).
  split; vm_compute; reflexivity.
Qed.

Lemma demo_two_slots_holds : queue_holds 600 2 1 [] demo_two_slots.
Proof.
  exists (mkQueue 6000 [0; 0] 0 0 2 1 0).
  split; [vm_compute; reflexivity|].
  split; [unfold queue_inv; simpl; lia|]. by repeat split.
Qed.

Lemma demo_one_item_holds : queue_holds 600 2 1 [[7]] demo_one_item.
Proof.
  exists (mkQueue 6000 [7; 0] 0 1 2 1 1).
  split; [vm_compute; reflexivity|].
  split; [unfold queue_inv; simpl; lia|]. by repeat split.
Qed.

Lemma demo_two_slots_ring : ring_ok demo_two_slots.
Proof. exists [2000; 3000; 4000]. apply ringb_sound. vm_compute. reflexivity. Qed.

Lemma demo_one_item_ring : ring_ok demo_one_item.
Proof. exists [2000; 3000; 4000]. apply ringb_sound. vm_compute. reflexivity. Qed.

(** ** The theorems at concrete states *)

Lemma EOS_scheduler_highest_priority_witness :
  ∃ b tb start visited l1 l2,
    EOS_scheduler demo_idle demo_kernel = Some (set_run_ptr b demo_kernel)
    ∧ scheduler_visits demo_idle demo_kernel [2000; 3000; 4000] start visited
    ∧ start :: visited = l1 ++ b :: l2
    ∧ tcbs demo_kernel !! b = Some tb ∧ runnable tb = true
    ∧ (∀ x t, x ∈ l1 → tcbs demo_kernel !! x = Some t → runnable t = true →
         priority t ≤ priority tb)
    ∧ (∀ x t, x ∈ l2 → tcbs demo_kernel !! x = Some t → runnable t = true →
         priority t < priority tb).
Proof.
  apply (EOS_scheduler_highest_priority demo_idle demo_kernel
           [2000; 3000; 4000]).
  apply demo_kernel_inv.
Defined.

Lemma EOS_scheduler_keeps_running_iff_witness :
  ∃ k', EOS_scheduler demo_idle demo_elected = Some k'
    ∧ (run_ptr k' = run_ptr demo_elected
       ↔ ∀ x t, x ∈ [3000; 4000; 1000] → tcbs demo_elected !! x = Some t →
           runnable t = true → priority t < 3).
Proof.
  apply (EOS_scheduler_keeps_running_iff demo_idle demo_elected
           [3000; 4000; 1000] (mkTCB 20444 0 3000 0 3 0)).
  - apply ringb_sound. vm_compute. reflexivity.
  - list_in.
  - vm_compute. reflexivity.
  - reflexivity.
Defined.

Lemma PendSV_Handler_switches_witness :
  ∃ b r l',
    tcbs demo_asleep !! run_ptr demo_asleep = Some r
    ∧ PendSV_Handler demo_idle 20400 demo_asleep
      = Some (set_primask false
                (set_run_ptr b
                   (set_tcbs (<[run_ptr demo_asleep := set_sp 20400 r]>
                                (tcbs demo_asleep)) demo_asleep)))
    ∧ b ∈ run_ptr demo_asleep :: [3000; 4000; 1000]
    ∧ runnable_at (<[run_ptr demo_asleep := set_sp 20400 r]>
                     (tcbs demo_asleep)) b
    ∧ kernel_inv demo_idle
        (set_run_ptr b
           (set_tcbs (<[run_ptr demo_asleep := set_sp 20400 r]>
                        (tcbs demo_asleep)) demo_asleep))
        l'.
Proof.
  apply (PendSV_Handler_switches demo_idle 20400 demo_asleep
           [3000; 4000; 1000]).
  split; [apply ringb_sound; vm_compute; reflexivity|].
  split; [list_in|]. exists (mkTCB 500 0 2000 0 0 0).
  split; vm_compute; reflexivity.
Defined.

Lemma EOS_Delay_sleeps_whole_quanta_witness :
  ∃ k1 k' t',
    EOS_Delay 2 demo_elected = Some k1
    ∧ run_events demo_idle [Switch 20400; Quantum; Switch 30200; Quantum] k1
      = Some k'
    ∧ tcbs k' !! run_ptr demo_elected = Some t'
    ∧ blocked t' = 0
    ∧ timeOut t' = 0
    ∧ next t' = 3000 ∧ priority t' = 3 ∧ paused t' = 0
    ∧ (2 < 2 → sp t' = 20400 ∧ run_ptr k' ≠ run_ptr demo_elected).
Proof.
  apply (EOS_Delay_sleeps_whole_quanta demo_idle demo_elected
           [3000; 4000; 1000] (mkTCB 20444 0 3000 0 3 0) 2 20400
           [Quantum; Switch 30200; Quantum]).
  - apply demo_elected_inv.
  - vm_compute. discriminate.
  - vm_compute. reflexivity.
  - reflexivity.
  - lia.
  - simpl. lia.
Defined.

Lemma EOS_Pause_freezes_task_witness :
  ∃ k1, EOS_Pause 3000 demo_kernel = Some (EOS_OK, k1)
    ∧ ∀ evs, ∃ k', run_events demo_idle evs k1 = Some k'
        ∧ tcbs k' !! 3000 = Some (mkTCB 30308 0 4000 0 2 EOS_PAUSED)
        ∧ run_ptr k' ≠ 3000.
Proof.
  apply (EOS_Pause_freezes_task demo_idle demo_kernel [2000; 3000; 4000] 3000
           (mkTCB 30308 0 4000 0 2 0)).
  - apply demo_kernel_inv.
  - list_in.
  - vm_compute. discriminate.
  - vm_compute. reflexivity.
  - reflexivity.
Defined.

Lemma SysTick_Handler_quantum_every_period_witness :
  ∃ s' k',
    ticks 5 (mkSystem demo_asleep 2 1 0) = Some s'
    ∧ timeouts 2 demo_asleep = Some k'
    ∧ tcbs (sys_kernel s') = tcbs k'
    ∧ run_ptr (sys_kernel s') = 2000
    ∧ eos_tickCounter s' = 1
    ∧ (2 ≤ 5 ∨ pendsv demo_asleep = true → pendsv (sys_kernel s') = true)
    ∧ task_period s' = 2
    ∧ scheduler_enable s' = 1.
Proof.
  apply (SysTick_Handler_quantum_every_period 5 (mkSystem demo_asleep 2 1 0)
           [3000; 4000; 1000]).
  - apply ringb_sound. vm_compute. reflexivity.
  - reflexivity.
  - simpl. lia.
  - simpl. lia.
Defined.

Lemma SysTick_Handler_idle_until_enabled_witness :
  ∃ s', ticks 5 (mkSystem demo_asleep 2 0 (2 ^ 32 - 2)) = Some s'
    ∧ tcbs (sys_kernel s') = tcbs demo_asleep
    ∧ run_ptr (sys_kernel s') = run_ptr demo_asleep
    ∧ pendsv (sys_kernel s') = pendsv demo_asleep
    ∧ eos_tickCounter s' = 3.
Proof.
  apply (SysTick_Handler_idle_until_enabled 5
           (mkSystem demo_asleep 2 0 (2 ^ 32 - 2))).
  - simpl. lia.
  - simpl. lia.
Defined.

Lemma EOS_Pause_Resume_round_trip_witness :
  ∃ k1 k2,
    EOS_Pause 3000 demo_kernel = Some (EOS_OK, k1)
    ∧ EOS_Pause 3000 k1 = Some (EOS_ERROR, set_primask true k1)
    ∧ EOS_Resume 3000 k1 = Some (EOS_OK, k2)
    ∧ k2 = set_primask false
             (if decide (3000 = run_ptr demo_kernel)
              then set_pendsv true demo_kernel else demo_kernel)
    ∧ EOS_Resume 3000 k2 = Some (EOS_ERROR, set_primask true k2).
Proof.
  apply (EOS_Pause_Resume_round_trip demo_kernel 3000
           (mkTCB 30308 0 4000 0 2 0)).
  - discriminate.
  - vm_compute. reflexivity.
  - reflexivity.
Defined.

Lemma EOS_Semaphore_count_bounds_witness :
  (∃ st k', EOS_SemaphoreRelease 500 demo_sem = Some (st, k')
            ∧ ring_ok k' ∧ sem_ok 500 k')
  ∧ match EOS_SemaphoreAcquire [] 500 demo_sem with
    | Returned st k' => st = EOS_OK ∧ primask k' = false
                        ∧ ring_ok k' ∧ sem_ok 500 k'
    | Suspended k' =>
      ring_ok k' ∧ sem_ok 500 k'
      ∧ (∃ s, sems k' !! 500 = Some s ∧ sem_count s = 0)
      ∧ ∃ r, tcbs k' !! run_ptr k' = Some r ∧ blocked r = 500
    | Undefined => False
    end.
Proof.
  apply (EOS_Semaphore_count_bounds demo_sem [] 500).
  - exists [2000; 3000; 4000]. apply ringb_sound. vm_compute. reflexivity.
  - exists (mkSem 1 1). split; [vm_compute; reflexivity|].
    unfold sem_inv. simpl. lia.
  - constructor.
Defined.

Lemma EOS_SemaphoreAcquire_Release_round_trip_witness :
  ∃ k1 k2,
    EOS_SemaphoreAcquire [] 500 demo_sem = Returned EOS_OK k1
    ∧ sems k1 = <[500 := mkSem (1 - 1) 1]> (sems demo_sem)
    ∧ tcbs k1 = tcbs demo_sem
    ∧ EOS_SemaphoreRelease 500 k1 = Some (EOS_OK, k2)
    ∧ sems k2 = sems demo_sem.
Proof.
  apply (EOS_SemaphoreAcquire_Release_round_trip demo_sem [2000; 3000; 4000]
           [] 500 (mkSem 1 1)).
  - apply ringb_sound. vm_compute. reflexivity.
  - vm_compute. reflexivity.
  - simpl. lia.
  - simpl. lia.
Defined.

Lemma EOS_ThreadNew_error_iff_witness :
  EOS_ThreadNew 5000 50000 7 PRIORITY_LOW 0 63 EOS_NO_FPU demo_kernel
  = Some (NULL, demo_kernel)
  ∧ EOS_ThreadNew 5000 0 7 PRIORITY_LOW 0 128 EOS_NO_FPU demo_kernel
    = Some (NULL, demo_kernel)
  ∧ EOS_ThreadNew 0 50000 7 PRIORITY_LOW 0 128 EOS_NO_FPU demo_kernel = None
  ∧ ∃ k' t,
      EOS_ThreadNew 5000 50000 7 PRIORITY_LOW 0 128 EOS_NO_FPU demo_kernel
      = Some (5000, k')
      ∧ run_ptr k' = run_ptr demo_kernel
      ∧ sems k' = sems demo_kernel ∧ queues k' = queues demo_kernel
      ∧ tcbs k' !! 5000 = Some t
      ∧ blocked t = 0 ∧ paused t = 0 ∧ timeOut t = 0
      ∧ priority t = u8 PRIORITY_LOW ∧ next t = run_ptr demo_kernel.
Proof.
  assert (ring (tcbs demo_kernel) (run_ptr demo_kernel) [2000; 3000; 4000])
    as Hr by (apply ringb_sound; vm_compute; reflexivity).
  split; [|split; [|split]].
  - exact (EOS_ThreadNew_error_iff demo_kernel [2000; 3000; 4000]
             5000 50000 7 PRIORITY_LOW 0 63 EOS_NO_FPU Hr ltac:(lia)).
  - exact (EOS_ThreadNew_error_iff demo_kernel [2000; 3000; 4000]
             5000 0 7 PRIORITY_LOW 0 128 EOS_NO_FPU Hr ltac:(lia)).
  - exact (EOS_ThreadNew_error_iff demo_kernel [2000; 3000; 4000]
             0 50000 7 PRIORITY_LOW 0 128 EOS_NO_FPU Hr ltac:(lia)).
  - exact (EOS_ThreadNew_error_iff demo_kernel [2000; 3000; 4000]
             5000 50000 7 PRIORITY_LOW 0 128 EOS_NO_FPU Hr ltac:(lia)).
Defined.

Lemma EOS_QueuePut_appends_witness :
  ∃ k', EOS_QueuePut [] 600 [7] EOS_BLOCK demo_two_slots = Returned EOS_OK k'
    ∧ ring_ok k'
    ∧ queue_holds 600 2 1 ([] ++ [take (Z.to_nat 1) [7]]) k'.
Proof.
  apply (EOS_QueuePut_appends demo_two_slots [] 600 2 1 [] [7] EOS_BLOCK).
  - lia.
  - lia.
  - lia.
  - apply demo_two_slots_ring.
  - apply demo_two_slots_holds.
  - simpl. lia.
  - simpl. lia.
Defined.

Lemma EOS_QueueGet_pops_witness :
  ∃ k', EOS_QueueGet [] 600 [0] EOS_BLOCK demo_one_item
        = Returned (EOS_OK, [7] ++ drop (Z.to_nat 1) [0]) k'
    ∧ ring_ok k'
    ∧ queue_holds 600 2 1 [] k'.
Proof.
  apply (EOS_QueueGet_pops demo_one_item [] 600 2 1 [7] [] [0] EOS_BLOCK).
  - lia.
  - lia.
  - lia.
  - apply demo_one_item_ring.
  - apply demo_one_item_holds.
  - simpl. lia.
Defined.

Lemma EOS_Queue_fifo_witness :
  ∃ k1 k2,
    put_all 600 [[1]; [2]] (snd (EOS_QueueCreate 600 6000 [0; 0] 2 1 demo_kernel))
    = Some k1
    ∧ get_all 600 (length [[1]; [2]]) [0] k1 = Some ([[1]; [2]], k2)
    ∧ queue_holds 600 2 1 [] k2.
Proof.
  apply (EOS_Queue_fifo demo_kernel 600 6000 [0; 0] 2 1 [[1]; [2]] [0]).
  - discriminate.
  - discriminate.
  - lia.
  - lia.
  - lia.
  - reflexivity.
  - exists [2000; 3000; 4000]. apply ringb_sound. vm_compute. reflexivity.
  - repeat constructor.
  - simpl. lia.
  - reflexivity.
Defined.

Lemma EOS_InitStack_frame_witness :
  ∃ m, EOS_InitStack (demo_stack 32) 32 7 = Some m
    ∧ length m = length (demo_stack 32)
    ∧ take 17 (drop (Z.to_nat (32 - 17)) m) = stack_frame 7
    ∧ ∀ j : nat, Z.of_nat j < 32 - 17 ∨ 32 ≤ Z.of_nat j →
                 m !! j = demo_stack 32 !! j.
Proof.
  apply (EOS_InitStack_frame (demo_stack 32) 32 7).
  - simpl. lia.
  - lia.
Defined.

Lemma EOS_InitFpuStack_frame_witness :
  ∃ m, EOS_InitFpuStack (demo_stack 64) 64 7 = Some m
    ∧ length m = length (demo_stack 64)
    ∧ take 51 (drop (Z.to_nat (64 - 51)) m) = fpu_stack_frame 7
    ∧ ∀ j : nat, Z.of_nat j < 64 - 51 ∨ 64 ≤ Z.of_nat j →
                 m !! j = demo_stack 64 !! j.
Proof.
  apply (EOS_InitFpuStack_frame (demo_stack 64) 64 7).
  - simpl. lia.
  - lia.
Defined.

Lemma EOS_ThreadNew_stack_marker_witness :
  ∃ m i marker,
    EOS_ThreadNew_stack (demo_stack 64) 64 7 EOS_USE_FPU = Some (m, i)
    ∧ length m = length (demo_stack 64)
    ∧ m !! Z.to_nat i = Some marker
    ∧ Z.testbit marker 4 = bool_decide (EOS_USE_FPU ≠ EOS_USE_FPU)
    ∧ m !! Z.to_nat (i + (if decide (EOS_USE_FPU = EOS_USE_FPU)
                          then 31 else 15))
      = Some (s32 7)
    ∧ ∀ cb stk prio ts k handle k' t,
        EOS_ThreadNew cb stk 7 prio ts 64 EOS_USE_FPU k = Some (handle, k') →
        handle ≠ NULL → tcbs k' !! handle = Some t →
        sp t = u32 ((if ts =? NULL then stk else ts) + 4 * i).
Proof.
  apply (EOS_ThreadNew_stack_marker (demo_stack 64) 64 7 EOS_USE_FPU).
  - simpl. lia.
  - lia.
Defined.

Lemma EOS_Init_starts_running_task_witness :
  ∃ regs s',
    EOS_Init 10 5000 (demo_stack 32) 7 demo_boot
    = Some (regs, take 15 (demo_stack 32) ++ stack_frame 7, s')
    ∧ reg_lr regs = 7
    ∧ reg_sp regs = 5000 + 4 * 32
    ∧ sys_kernel s' = set_primask false (sys_kernel demo_boot)
    ∧ scheduler_enable s' = 1
    ∧ task_period s' = 10
    ∧ eos_tickCounter s' = eos_tickCounter demo_boot.
Proof.
  apply (EOS_Init_starts_running_task demo_boot
           (idle_tcb demo_idle (5000 + 4 * 15)) 10 5000 (demo_stack 32) 7).
  - vm_compute. reflexivity.
  - reflexivity.
  - reflexivity.
  - lia.
  - lia.
  - lia.
Defined.

Lemma EOS_scheduler_skips_past_idle_witness :
  ∃ b, EOS_scheduler demo_idle demo_asleep = Some (set_run_ptr b demo_asleep)
    ∧ b ∈ demo_idle :: [] ∧ (b ∉ [3000; 4000])
    ∧ elected_among (tcbs demo_asleep) demo_idle [] b.
Proof.
  apply (EOS_scheduler_skips_past_idle demo_idle demo_asleep [3000; 4000] []
           (mkTCB 20444 2 3000 5 3 0)).
  - apply ringb_sound. vm_compute. reflexivity.
  - vm_compute. reflexivity.
  - reflexivity.
Defined.

Lemma EOS_scheduler_elects_idle_despite_runnable_witness :
  (∃ k', EOS_scheduler demo_idle demo_asleep = Some k'
     ∧ run_ptr k' = demo_idle
     ∧ tcbs k' = tcbs demo_asleep
     ∧ ring (tcbs k') (run_ptr k') ([] ++ run_ptr demo_asleep :: [3000; 4000])
     ∧ 3000 ∈ [] ++ run_ptr demo_asleep :: [3000; 4000]
     ∧ runnable_at (tcbs k') 3000
     ∧ ¬ (∀ y, y ∈ [] ++ run_ptr demo_asleep :: [3000; 4000] →
            ¬ runnable_at (tcbs k') y))
  ∧ (runnable <$> tcbs demo_idle_paused !! demo_idle) = Some false
  ∧ (∃ k', EOS_scheduler demo_idle demo_idle_paused = Some k'
       ∧ run_ptr k' = demo_idle
       ∧ tcbs k' = tcbs demo_idle_paused
       ∧ ring (tcbs k') (run_ptr k')
           ([] ++ run_ptr demo_idle_paused :: [3000; 4000])
       ∧ 3000 ∈ [] ++ run_ptr demo_idle_paused :: [3000; 4000]
       ∧ runnable_at (tcbs k') 3000
       ∧ ¬ (∀ y, y ∈ [] ++ run_ptr demo_idle_paused :: [3000; 4000] →
              ¬ runnable_at (tcbs k') y)).
Proof.
  split; [|split; [vm_compute; reflexivity|]].
  - apply (EOS_scheduler_elects_idle_despite_runnable demo_idle demo_asleep
             [3000; 4000] [] (mkTCB 20444 2 3000 5 3 0)
             3000 (mkTCB 30308 0 4000 0 2 0)).
    + apply ringb_sound. vm_compute. reflexivity.
    + vm_compute. reflexivity.
    + reflexivity.
    + intros y t Hy. by apply elem_of_nil in Hy.
    + left.
    + vm_compute. reflexivity.
    + reflexivity.
  - apply (EOS_scheduler_elects_idle_despite_runnable demo_idle
             demo_idle_paused [3000; 4000] [] (mkTCB 20444 2 3000 5 3 0)
             3000 (mkTCB 30308 0 4000 0 2 0)).
    + apply ringb_sound. vm_compute. reflexivity.
    + vm_compute. reflexivity.
    + reflexivity.
    + intros y t Hy. by apply elem_of_nil in Hy.
    + left.
    + vm_compute. reflexivity.
    + reflexivity.
Defined.

Lemma EOS_QueueGet_blocked_receives_witness :
  ∃ r k',
    tcbs demo_queue_suspended !! run_ptr demo_queue = Some r
    ∧ blocked r = 600
    ∧ pendsv demo_queue_suspended = true
    ∧ primask demo_queue_suspended = false
    ∧ EOS_QueueGet [demo_producer] 600 [0] EOS_BLOCK demo_queue
      = Returned (EOS_OK, [9] ++ drop (Z.to_nat 1) [0]) k'
    ∧ ring_ok k' ∧ queue_holds 600 2 1 [] k'.
Proof.
  apply (EOS_QueueGet_blocked_receives demo_queue [] demo_producer 600 2 1
           [9] [] [0] demo_queue_suspended).
  - lia.
  - lia.
  - lia.
  - simpl. lia.
  - exists (mkQueue 6000 [0; 0] 0 0 2 1 0).
    split; [vm_compute; reflexivity|].
    split; [unfold queue_inv; simpl; lia|]. by repeat split.
  - vm_compute. reflexivity.
  - exists [4000; 1000; 2000]. apply ringb_sound. vm_compute. reflexivity.
  - exists (mkQueue 6000 [9; 0] 0 1 2 1 1).
    split; [vm_compute; reflexivity|].
    split; [unfold queue_inv; simpl; lia|]. by repeat split.
Defined.

Lemma EOS_Semaphore_counts_tokens_witness :
  ∃ k', acquire_n 2 500 (snd (EOS_SemaphoreNew 500 2 demo_elected)) = Some k'
    ∧ sems k' !! 500 = Some (mkSem (2 - Z.of_nat 2) 2)
    ∧ tcbs k' = tcbs demo_elected ∧ run_ptr k' = run_ptr demo_elected
    ∧ (Z.of_nat 2 = 2 →
       ∃ k'', EOS_SemaphoreAcquire [] 500 k' = Suspended k''
         ∧ tcbs k'' !! run_ptr demo_elected
           = Some (set_blocked 500 (mkTCB 20444 0 3000 0 3 0))
         ∧ sems k'' = sems k').
Proof.
  apply (EOS_Semaphore_counts_tokens 500 2 demo_elected
           (mkTCB 20444 0 3000 0 3 0) 2).
  - discriminate.
  - vm_compute. reflexivity.
  - lia.
  - simpl. lia.
Defined.

Lemma EOS_scheduler_alternates_witness :
  EOS_scheduler demo_idle demo_peers = Some (set_run_ptr 2000 demo_peers)
  ∧ EOS_scheduler demo_idle (set_run_ptr 2000 demo_peers) = Some demo_peers.
Proof.
  apply (EOS_scheduler_alternates demo_idle demo_peers [4000; 1000; 2000]
           (mkTCB 30444 0 4000 0 2 0) 2000 (mkTCB 20444 0 3000 0 2 0)).
  - apply ringb_sound. vm_compute. reflexivity.
  - list_in.
  - vm_compute. reflexivity.
  - reflexivity.
  - list_in.
  - vm_compute. reflexivity.
  - reflexivity.
  - reflexivity.
  - intros y t Hy Hne Ht _.
    apply elem_of_cons in Hy as [->|Hy];
      [vm_compute in Ht; injection Ht as <-; simpl; lia|].
    apply elem_of_cons in Hy as [->|Hy];
      [vm_compute in Ht; injection Ht as <-; simpl; lia|].
    apply elem_of_cons in Hy as [->|Hy]; [done|].
    by apply elem_of_nil in Hy.
Defined.

Lemma EOS_Queue_refuses_without_blocking_witness :
  (Z.of_nat (length [[1]; [2]]) = 2 →
   EOS_QueuePut [] 600 [3] EOS_NO_BLOCK demo_full
   = Returned EOS_BLOCKED (set_primask false demo_full))
  ∧ ([[1]; [2]] = [] →
     EOS_QueueGet [] 600 [3] EOS_NO_BLOCK demo_full
     = Returned (EOS_BLOCKED, [3]) (set_primask false demo_full))
  ∧ queue_holds 600 2 1 [[1]; [2]] (set_primask false demo_full).
Proof.
  apply (EOS_Queue_refuses_without_blocking demo_full [] 600 2 1 [[1]; [2]]
           [3]).
  exists (mkQueue 6000 [1; 2] 0 0 2 1 2).
  split; [vm_compute; reflexivity|].
  split; [unfold queue_inv; simpl; lia|]. by repeat split.
Defined.

Lemma EOS_QueuePut_blocked_delivers_witness :
  ∃ r k',
    tcbs demo_full_suspended !! run_ptr demo_full = Some r
    ∧ blocked r = 600
    ∧ pendsv demo_full_suspended = true
    ∧ primask demo_full_suspended = false
    ∧ EOS_QueuePut [demo_consumer] 600 [3] EOS_BLOCK demo_full
      = Returned EOS_OK k'
    ∧ ring_ok k'
    ∧ queue_holds 600 2 1 ([[2]] ++ [take (Z.to_nat 1) [3]]) k'.
Proof.
  apply (EOS_QueuePut_blocked_delivers demo_full [] demo_consumer 600 2 1
           [[1]; [2]] [[2]] [3] demo_full_suspended).
  - lia.
  - lia.
  - lia.
  - simpl. lia.
  - exists (mkQueue 6000 [1; 2] 0 0 2 1 2).
    split; [vm_compute; reflexivity|].
    split; [unfold queue_inv; simpl; lia|]. by repeat split.
  - reflexivity.
  - vm_compute. reflexivity.
  - exists [4000; 1000; 2000]. apply ringb_sound. vm_compute. reflexivity.
  - exists (mkQueue 6000 [1; 2] 1 0 2 1 1).
    split; [vm_compute; reflexivity|].
    split; [unfold queue_inv; simpl; lia|]. by repeat split.
  - simpl. lia.
Defined.
